(** * neural_prophet: assembly of forecast-component and parameter plots

    A shallow embedding of [neuralprophet/plot_forecast_plotly.py] and
    [neuralprophet/plot_model_parameters.py].  Numbers are exact rationals
    ([Q]); the "absent" marker of a table cell (NaN) is [None].  Exceptions
    are values of [Py.exn] carried by the [Py.result] monad.  Timestamps are
    integers counting nanoseconds since the Unix epoch, as pandas stores
    them. *)

From Stdlib Require Import List String Ascii Bool Arith ZArith QArith Qabs Lia.
From Stdlib Require Import DecimalString DecimalNat FinFun.
Import ListNotations.

Local Open Scope string_scope.
Local Open Scope list_scope.
Local Open Scope nat_scope.

(* ================================================================== *)
(** ** Python values, exceptions and a few builtins *)
(* ================================================================== *)

Module Py.

Inductive exn : Type :=
| KeyError (key : string)
| IndexError
| ValueError (msg : string)
| AssertionError
| AttributeError
| UnboundLocalError.

Inductive result (A : Type) : Type :=
| Ok (a : A)
| Raise (e : exn).
Arguments Ok {A} a.
Arguments Raise {A} e.

Definition bind {A B} (r : result A) (k : A -> result B) : result B :=
  match r with
  | Ok a => k a
  | Raise e => Raise e
  end.

(** [str.lower], on ASCII letters. *)
Definition lower_ascii (a : ascii) : ascii :=
  let n := nat_of_ascii a in
  if (65 <=? n) && (n <=? 90) then ascii_of_nat (n + 32) else a.

Fixpoint lower (s : string) : string :=
  match s with
  | EmptyString => EmptyString
  | String a s' => String (lower_ascii a) (lower s')
  end.

(** [needle in hay] for strings. *)
Fixpoint contains (needle hay : string) : bool :=
  match hay with
  | EmptyString => String.prefix needle EmptyString
  | String _ hay' => String.prefix needle hay || contains needle hay'
  end.

(** A decimal digit, ['0'] to ['9']. *)
Definition is_digit (a : ascii) : bool :=
  let n := nat_of_ascii a in (48 <=? n) && (n <=? 57).

(** [hay.startswith(needle)]. *)
Definition startswith (hay needle : string) : bool := String.prefix needle hay.

(** [str(n)] for a natural number. *)
Definition str (n : nat) : string := NilZero.string_of_uint (Nat.to_uint n).

(** [str(z)] for an integer. *)
Definition str_int (z : Z) : string := NilZero.string_of_int (Z.to_int z).

(** Resolution of a Python subscript [i] against a sequence of length
    [n]: negative positions count from the end. *)
Definition index (n : nat) (i : Z) : option nat :=
  if ((0 <=? i) && (i <? Z.of_nat n))%Z then Some (Z.to_nat i)
  else if ((- Z.of_nat n <=? i) && (i <? 0))%Z then Some (Z.to_nat (Z.of_nat n + i))
  else None.

End Py.

Import Py.

Declare Scope py_scope.
Delimit Scope py_scope with py.
Notation "x <- e ;; k" := (Py.bind e (fun x => k))
  (at level 61, e at next level, right associativity) : py_scope.
Notation "' p <- e ;; k" := (Py.bind e (fun x => match x with p => k end))
  (at level 61, p pattern, e at next level, right associativity) : py_scope.
Local Open Scope py_scope.

(** A call that returned: its first step returned too.  [ok_step H x]
    names the value [x] of the first step of the computation in [H]. *)
Ltac ok_step H x :=
  match type of H with
  | Py.bind ?a _ = _ =>
      destruct a as [x|]; cbn [Py.bind] in H; try discriminate H
  end.

(* ================================================================== *)
(** ** Forecast tables *)
(* ================================================================== *)

(** A cell of a value column: a number, or [None] for NaN. *)
Abbreviation cell := (option Q).

Definition notna (c : cell) : bool :=
  match c with Some _ => true | None => false end.

(** Agreement of cells up to the value of the rational they hold. *)
Definition cell_eq (a b : cell) : Prop :=
  match a, b with
  | Some p, Some q => (p == q)%Q
  | None, None => True
  | _, _ => False
  end.

(** Elementwise subtraction of two arrays; NaN propagates. *)
Definition cell_sub (a b : cell) : cell :=
  match a, b with
  | Some p, Some q => Some (p - q)%Q
  | _, _ => None
  end.

Fixpoint map2 {A B C} (f : A -> B -> C) (l : list A) (l' : list B) : list C :=
  match l, l' with
  | a :: t, b :: t' => f a b :: map2 f t t'
  | _, _ => []
  end.

(** Boolean-mask selection [xs[mask]]. *)
Fixpoint select {A} (mask : list bool) (xs : list A) : list A :=
  match mask, xs with
  | b :: m, x :: t => if b then x :: select m t else select m t
  | _, _ => []
  end.

(** The forecast table: the timestamp column [ds] and the value columns in
    table order.  Every column has one cell per row.  Components are looked
    up among the value columns; the timestamps are the x values. *)
Record DataFrame : Type := {
  ds : list Z;
  columns : list (string * list cell)
}.

Definition column_names (df : DataFrame) : list string :=
  "ds" :: map fst (columns df).

Fixpoint lookup (name : string) (cols : list (string * list cell)) : option (list cell) :=
  match cols with
  | [] => None
  | (k, v) :: t => if String.eqb k name then Some v else lookup name t
  end.

(** [fcst[name]] on a value column. *)
Definition getitem (df : DataFrame) (name : string) : result (list cell) :=
  match lookup name (columns df) with
  | Some v => Ok v
  | None => Raise (KeyError name)
  end.

(** [fcst.loc[mask]]: a new table holding the selected rows. *)
Definition loc (df : DataFrame) (mask : list bool) : DataFrame :=
  {| ds := select mask (ds df);
     columns := map (fun kv => (fst kv, select mask (snd kv))) (columns df) |}.

Fixpoint store (name : string) (v : list cell) (cols : list (string * list cell))
  : list (string * list cell) :=
  match cols with
  | [] => []
  | (k, old) :: t => if String.eqb k name then (k, v) :: t else (k, old) :: store name v t
  end.

(** Writing through the array that [fcst[name].values] exposes. *)
Definition setvalues (df : DataFrame) (name : string) (v : list cell) : DataFrame :=
  {| ds := ds df; columns := store name v (columns df) |}.

(** [y[-1] = v]; an empty array has no last position. *)
Definition set_last {A} (v : A) (ys : list A) : result (list A) :=
  match ys with
  | [] => Raise IndexError
  | _ => Ok (removelast ys ++ [v])
  end.

(** *** pandas: [Series.rolling(w, min_periods=1, center=True).mean()] *)

(** Bounds [start, end) of the window labelled [i] in a series of [n]
    values: the fixed-window indexer with the centring offset, clipped to
    the series. *)
Definition rolling_bounds (w n i : nat) : nat * nat :=
  let offset := (w - 1) / 2 in
  (Nat.min n (i + 1 + offset - w), Nat.min n (i + 1 + offset)).

Fixpoint present (xs : list cell) : list Q :=
  match xs with
  | [] => []
  | Some q :: t => q :: present t
  | None :: t => present t
  end.

Definition Qsum (l : list Q) : Q := fold_right Qplus 0%Q l.

(** Mean over the non-NaN cells; NaN when fewer than one is present. *)
Definition nanmean (xs : list cell) : cell :=
  match present xs with
  | [] => None
  | vs => Some (Qsum vs / inject_Z (Z.of_nat (List.length vs)))%Q
  end.

Definition rolling_mean (w : nat) (col : list cell) : list cell :=
  let n := List.length col in
  map (fun i =>
         let '(s, e) := rolling_bounds w n i in
         nanmean (firstn (e - s) (skipn s col)))
      (seq 0 n).

(* ================================================================== *)
(** ** The fitted model, as far as the plotting code reads it *)
(* ================================================================== *)

(** A numpy array: its shape and its entries in row-major order. *)
Record ndarray : Type := {
  shape : list nat;
  data : list Q
}.

Record Season : Type := {
  period : Q;
  resolution : nat
}.

Record ConfigSeason : Type := {
  season_mode : string;
  periods : list (string * Season)
}.

Record ConfigNormalization : Type := {
  global_normalization : bool;
  unknown_data_normalization : bool;
  local_data_params : list string          (* the keys of the dictionary *)
}.

(** [m.<field>] and [m.model.<field>] name the same configuration; the
    learned parameters are read through the accessors of [m.model]. *)
Record Model : Type := {
  config_normalization : ConfigNormalization;
  n_changepoints : nat;                                   (* config_trend *)
  config_season : option ConfigSeason;
  n_lags : nat;
  n_forecasts : nat;
  quantiles : list Q;
  ar_weights : ndarray;
  config_regressors : option (list (string * string));    (* name, mode *)
  get_reg_weights : string -> ndarray;
  config_country_holidays : option (string * list string); (* mode, holiday_names *)
  config_events : option (list (string * string));        (* name, mode *)
  get_event_weights : string -> list (string * ndarray);
  config_lagged_regressors : option (list (string * bool)); (* name, as_scalar *)
  get_covar_weights : string -> ndarray;
  id_dict : list (string * nat)
}.

(* ================================================================== *)
(** ** plot_forecast_plotly.py *)
(* ================================================================== *)

Module PlotForecastPlotly.

Definition prediction_color : string := "#2d92ff".
Definition band_color : string := "rgba(45, 146, 255, 0.2)".
Definition cross_marker_color : string := "blue".

Inductive Primitive : Type := Bar | Scatter.

(** A drawable primitive with the keyword arguments the code sets. *)
Record Trace : Type := {
  t_primitive : Primitive;
  t_name : option string;
  t_x : list Z;
  t_y : list cell;
  t_mode : option string;
  t_color : string;
  t_opacity : option Q;
  t_fill : option string;
  t_showlegend : bool
}.

(** The returned dictionary; the padded x-range comes from a helper of
    another module and is left out. *)
Record TraceObject : Type := {
  traces : list Trace;
  xaxis_title : string;
  yaxis_title : string;
  yaxis_rangemode : string;
  yaxis_percent : bool
}.

(** A component dictionary, passed on as keyword arguments; a key that is
    not set takes the default of the called function. *)
Record Component : Type := {
  plot_name : option string;
  comp_name : string;
  multiplicative : bool;
  bar : bool;
  rolling : option nat;
  add_x : bool;
  fill : bool;
  num_overplot : option nat;
  focus : nat
}.

Definition component (pname cname : string) : Component :=
  {| plot_name := Some pname; comp_name := cname; multiplicative := false;
     bar := false; rolling := None; add_x := false; fill := false;
     num_overplot := None; focus := 1 |}.

Definition with_overplot (n : nat) (c : Component) : Component :=
  {| plot_name := plot_name c; comp_name := comp_name c;
     multiplicative := multiplicative c; bar := bar c; rolling := rolling c;
     add_x := add_x c; fill := fill c; num_overplot := Some n; focus := focus c |}.

Definition with_bar (c : Component) : Component :=
  {| plot_name := plot_name c; comp_name := comp_name c;
     multiplicative := multiplicative c; bar := true; rolling := rolling c;
     add_x := add_x c; fill := fill c; num_overplot := num_overplot c;
     focus := focus c |}.

Definition with_multiplicative (c : Component) : Component :=
  {| plot_name := plot_name c; comp_name := comp_name c;
     multiplicative := true; bar := bar c; rolling := rolling c;
     add_x := add_x c; fill := fill c; num_overplot := num_overplot c;
     focus := focus c |}.

Definition with_fill (c : Component) : Component :=
  {| plot_name := plot_name c; comp_name := comp_name c;
     multiplicative := multiplicative c; bar := bar c; rolling := rolling c;
     add_x := add_x c; fill := true; num_overplot := num_overplot c;
     focus := focus c |}.

Definition effective_plot_name (c : Component) : string :=
  match plot_name c with
  | Some n => n
  | None => comp_name c
  end.

Definition is_residual (c : Component) : bool :=
  contains "residual" (comp_name c).

Definition is_uncertainty (c : Component) : bool :=
  contains "uncertainty" (lower (effective_plot_name c)).

(** *** get_forecast_component_props *)

Definition markers (fcst_t : list Z) (ys : list cell) : Trace :=
  {| t_primitive := Scatter; t_name := None; t_x := fcst_t; t_y := ys;
     t_mode := Some "markers"; t_color := cross_marker_color;
     t_opacity := None; t_fill := None; t_showlegend := false |}.

Definition underlay (c : Component) (fcst_t : list Z) (ys : list cell) : Trace :=
  {| t_primitive := if bar c then Bar else Scatter;
     t_name := Some (effective_plot_name c); t_x := fcst_t; t_y := ys;
     t_mode := if bar c then None else Some "lines";
     t_color := prediction_color;
     t_opacity := Some (5 # 10)%Q; t_fill := None; t_showlegend := false |}.

Definition bar_trace (c : Component) (fcst_t : list Z) (ys : list cell)
           (alpha : option Q) : Trace :=
  {| t_primitive := Bar; t_name := Some (effective_plot_name c);
     t_x := fcst_t; t_y := ys; t_mode := None; t_color := prediction_color;
     t_opacity := alpha; t_fill := None; t_showlegend := false |}.

Definition line_trace (c : Component) (fcst_t : list Z) (ys : list cell)
           (alpha : option Q) : Trace :=
  {| t_primitive := Scatter; t_name := Some (effective_plot_name c);
     t_x := fcst_t; t_y := ys; t_mode := Some "lines";
     t_color := prediction_color;
     t_opacity := alpha; t_fill := None; t_showlegend := false |}.

Definition filled_trace (c : Component) (fcst_t : list Z) (ys : list cell) : Trace :=
  {| t_primitive := Scatter; t_name := Some (comp_name c);
     t_x := fcst_t; t_y := ys; t_mode := Some "lines"; t_color := band_color;
     t_opacity := None; t_fill := Some "tozeroy"; t_showlegend := true |}.

Definition base_column (c : Component) : string :=
  match num_overplot c with
  | Some n => ("yhat" ++ str n)%string
  | None => "yhat1"
  end.

Definition axes (c : Component) (ts : list Trace) : TraceObject :=
  {| traces := ts;
     xaxis_title := "ds";
     yaxis_title := effective_plot_name c;
     yaxis_rangemode := if String.eqb (comp_name c) "trend" then "normal" else "tozero";
     yaxis_percent := multiplicative c |}.

Definition get_forecast_component_props (fcst : DataFrame) (c : Component)
  : result TraceObject :=
  (* Remove empty rows for the respective component *)
  col <- getitem fcst (comp_name c) ;;
  let fcst := loc fcst (map notna col) in
  let fcst_t := ds fcst in
  under <-
    match rolling c with
    | Some w =>
        col <- getitem fcst (comp_name c) ;;
        let rolling_avg := rolling_mean w col in
        if bar c then Ok [underlay c fcst_t rolling_avg]
        else if add_x c then Ok [underlay c fcst_t rolling_avg; markers fcst_t col]
        else Ok [underlay c fcst_t rolling_avg]
    | None => Ok []
    end ;;
  y <- getitem fcst (comp_name c) ;;
  (* y[-1] = 0 writes into the column of the filtered table *)
  fcst <- (if is_residual c
           then y' <- set_last (Some 0%Q) y ;; Ok (setvalues fcst (comp_name c) y')
           else Ok fcst) ;;
  y <- getitem fcst (comp_name c) ;;
  y <- (if is_uncertainty c
        then q <- getitem fcst (comp_name c) ;;
             b <- getitem fcst (base_column c) ;;
             Ok (map2 cell_sub q b)
        else Ok y) ;;
  main <-
    (if bar c then Ok [bar_trace c fcst_t y None]
     else if is_uncertainty c && fill c then Ok [filled_trace c fcst_t y]
     else if add_x c
          then col <- getitem fcst (comp_name c) ;;
               Ok [line_trace c fcst_t y None; markers fcst_t col]
          else Ok [line_trace c fcst_t y None]) ;;
  Ok (axes c (under ++ main)).

(** *** get_multiforecast_component_props *)

Definition alpha_min : Q := (2 # 10)%Q.
Definition alpha_softness : Q := (12 # 10)%Q.

(** Opacity of the overlay drawn at loop index [i] (horizon [i + 1]). *)
Definition alpha (i : nat) : Q :=
  (alpha_min + alpha_softness * (1 - alpha_min)
               / (inject_Z (Z.of_nat i) + 1 * alpha_softness))%Q.

Definition horizon_column (c : Component) (i : nat) : string :=
  (comp_name c ++ str (i + 1))%string.

(** One pass of the overlay loop for index [i]: the table carries the
    writes of [y[-1] = 0], the list collects the traces. *)
Definition overlay_step (c : Component) (fcst_t : list Z) (i : nat)
           (st : DataFrame * list Trace) : result (DataFrame * list Trace) :=
  let '(fcst, ts) := st in
  y <- getitem fcst (horizon_column c i) ;;
  fcst <- (if is_residual c
           then y' <- set_last (Some 0%Q) y ;;
                Ok (setvalues fcst (horizon_column c i) y')
           else Ok fcst) ;;
  y <- getitem fcst (horizon_column c i) ;;
  Ok (fcst, ts ++ [if bar c then bar_trace c fcst_t y (Some (alpha i))
                   else line_trace c fcst_t y (Some (alpha i))]).

Fixpoint overlay_loop (c : Component) (fcst_t : list Z) (idx : list nat)
         (st : DataFrame * list Trace) : result (DataFrame * list Trace) :=
  match idx with
  | [] => Ok st
  | i :: rest => st' <- overlay_step c fcst_t i st ;; overlay_loop c fcst_t rest st'
  end.

Definition get_multiforecast_component_props (fcst : DataFrame) (c : Component)
  : result TraceObject :=
  (* Remove empty rows for the respective components *)
  fcst <-
    match num_overplot c with
    | Some (S _ as n) =>
        a <- getitem fcst (comp_name c ++ "1")%string ;;
        b <- getitem fcst (comp_name c ++ str n)%string ;;
        Ok (loc fcst (map2 orb (map notna a) (map notna b)))
    | _ =>
        a <- getitem fcst (comp_name c) ;;
        Ok (loc fcst (map notna a))
    end ;;
  let fcst_t := ds fcst in
  let col_names := filter (fun k => startswith k (comp_name c)) (column_names fcst) in
  st <-
    match num_overplot c with
    | Some n =>
        if n <=? List.length col_names
        then overlay_loop c fcst_t (rev (seq 0 n)) (fcst, [])
        else Raise AssertionError
    | None => Ok (fcst, [])
    end ;;
  let '(fcst, ts) := st in
  single <-
    (if match num_overplot c with None => true | Some _ => 1 <? focus c end
     then
       y <- getitem fcst (comp_name c) ;;
       let notnull := map notna y in
       if negb (is_residual c)
       then
         let fcst_t := select notnull fcst_t in
         let y := select notnull y in
         Ok [if bar c then bar_trace c fcst_t y None else line_trace c fcst_t y None]
       else
         y' <- set_last (Some 0%Q) y ;;
         Ok [if bar c then bar_trace c fcst_t y' None else line_trace c fcst_t y' None]
     else Ok []) ;;
  Ok (axes c (ts ++ single)).

(** *** plot_components: the components to be plotted *)

(** Number of non-NaN cells, [Series.count()]. *)
Definition count (col : list cell) : nat := List.length (present col).

Definition has_column (fcst : DataFrame) (name : string) : bool :=
  existsb (String.eqb name) (column_names fcst).

(** The double-quote character around a regressor name. *)
Definition dquote : string := String (ascii_of_nat 34) EmptyString.

Section Selector.

(** [str(round(q * 100, 1))], the percentage in a quantile column name. *)
Variable pct_label : Q -> string.

Definition quantile_column (h : nat) (q : Q) : string :=
  ("yhat" ++ str h ++ " " ++ pct_label q ++ "%")%string.

Definition season_components (m : Model) : list Component :=
  match config_season m with
  | Some cs =>
      map (fun p => component (fst p ++ " seasonality")%string (fst p)) (periods cs)
  | None => []
  end.

Definition ar_components (m : Model) (forecast_in_focus : option nat)
  : list Component :=
  if 0 <? n_lags m then
    match forecast_in_focus with
    | None => [with_bar (with_overplot (n_forecasts m)
                            (component "Auto-Regression" "ar"))]
    | Some k => [component ("AR (" ++ str k ++ ")-ahead")%string
                           ("ar" ++ str k)%string]
    end
  else [].

Definition lagged_regressor_components (m : Model)
           (forecast_in_focus : option nat) : list Component :=
  match config_lagged_regressors m with
  | Some regs =>
      map (fun r =>
             let name := fst r in
             match forecast_in_focus with
             | None =>
                 with_bar (with_overplot (n_forecasts m)
                   (component ("Lagged Regressor " ++ dquote ++ name ++ dquote)%string
                              ("lagged_regressor_" ++ name)%string))
             | Some k =>
                 component ("Lagged Regressor " ++ dquote ++ name ++ dquote ++ " ("
                              ++ str k ++ ")-ahead")%string
                           ("lagged_regressor_" ++ name ++ str k)%string
             end) regs
  | None => []
  end.

Definition aggregate_components (fcst : DataFrame) : list Component :=
  (if has_column fcst "events_additive"
   then [component "Additive Events" "events_additive"] else [])
  ++ (if has_column fcst "events_multiplicative"
      then [with_multiplicative
              (component "Multiplicative Events" "events_multiplicative")]
      else [])
  ++ (if has_column fcst "future_regressors_additive"
      then [component "Additive Future Regressors" "future_regressors_additive"]
      else [])
  ++ (if has_column fcst "future_regressors_multiplicative"
      then [with_multiplicative
              (component "Multiplicative Future Regressors"
                         "future_regressors_multiplicative")]
      else []).

Definition residual_components (m : Model) (fcst : DataFrame)
           (forecast_in_focus : option nat) (residuals : bool)
  : result (list Component) :=
  if residuals then
    if match forecast_in_focus with None => 1 <? n_forecasts m | Some _ => false end
    then
      col <- getitem fcst "residual1" ;;
      Ok (if 0 <? count col
          then [with_bar (with_overplot (n_forecasts m)
                            (component "Residuals" "residual"))]
          else [])
    else
      let ahead := match forecast_in_focus with None => 1 | Some k => k end in
      col <- getitem fcst ("residual" ++ str ahead)%string ;;
      Ok (if 0 <? count col
          then [with_bar (component ("Residuals (" ++ str ahead ++ ")-ahead")%string
                                    ("residual" ++ str ahead)%string)]
          else [])
  else Ok [].

Definition uncertainty_components (m : Model) (forecast_in_focus : option nat)
  : list Component :=
  if 1 <? List.length (quantiles m) then
    map (fun q =>
           match forecast_in_focus with
           | None => with_fill (component "Uncertainty" (quantile_column 1 q))
           | Some k => with_fill (with_overplot k
                         (component "Uncertainty" (quantile_column k q)))
           end) (tl (quantiles m))
  else [].

(** The list [components] that [plot_components] builds before it
    draws anything. *)
Definition plot_components_select (m : Model) (fcst : DataFrame)
           (forecast_in_focus : option nat) (residuals : bool)
  : result (list Component) :=
  let components := [component "Trend" "trend"] in
  let components := components ++ season_components m in
  let components := components ++ ar_components m forecast_in_focus in
  let components := components ++ lagged_regressor_components m forecast_in_focus in
  let components := components ++ aggregate_components fcst in
  res <- residual_components m fcst forecast_in_focus residuals ;;
  let components := components ++ res in
  Ok (components ++ uncertainty_components m forecast_in_focus).

End Selector.

(** *** The rolling underlay in the words of its description

    The mean of the values at the positions [j] of the series with
    [i - w/2 <= j <= i + (w-1)/2]: the [w] positions centred at [i], as
    far as the series has them. *)
Definition centered_positions (w n i : nat) : list nat :=
  filter (fun j => (i <=? j + w / 2) && (j <=? i + (w - 1) / 2)) (seq 0 n).

Definition centered_mean (w : nat) (xs : list Q) (i : nat) : Q :=
  let js := centered_positions w (List.length xs) i in
  (Qsum (map (fun j => nth j xs 0%Q) js) / inject_Z (Z.of_nat (List.length js)))%Q.

(** *** Notions used to state what the renderers return *)

Definition ends_in_zero (t : Trace) : Prop :=
  exists ys, t_y t = ys ++ [Some 0%Q].

Definition overlay_trace (c : Component) (fcst_t : list Z) (i : nat)
           (ys : list cell) : Trace :=
  if bar c then bar_trace c fcst_t ys (Some (alpha i))
  else line_trace c fcst_t ys (Some (alpha i)).

(** What the overlay at index [i] shows of the column [col]. *)
Definition overlay_values (c : Component) (col : list cell) : list cell :=
  if is_residual c then removelast col ++ [Some 0%Q] else col.

(** The table [cur] is [rows] after some of its columns had their last
    cell set to zero, which happens for residual components only. *)
Definition agrees (c : Component) (rows cur : DataFrame) : Prop :=
  forall name,
    match lookup name (columns rows) with
    | Some o => exists v, lookup name (columns cur) = Some v /\
                          (v = o \/ (is_residual c = true /\
                                     v = removelast o ++ [Some 0%Q]))
    | None => lookup name (columns cur) = None
    end.

(** The underlay traces that precede the main trace. *)
Definition underlay_traces (c : Component) (fcst_t : list Z) (col : list cell)
  : list Trace :=
  match rolling c with
  | Some w =>
      if bar c then [underlay c fcst_t (rolling_mean w col)]
      else if add_x c then [underlay c fcst_t (rolling_mean w col); markers fcst_t col]
      else [underlay c fcst_t (rolling_mean w col)]
  | None => []
  end.

(** The loop indices of the overlay: [list(range(num_overplot))[::-1]]. *)
Definition overlay_indices (c : Component) : list nat :=
  match num_overplot c with
  | Some n => rev (seq 0 n)
  | None => []
  end.

(** The rows that the multi-horizon renderer keeps. *)
Definition kept_rows (fcst : DataFrame) (c : Component) (rows : DataFrame) : Prop :=
  match num_overplot c with
  | Some (S n) =>
      exists a b,
        getitem fcst (comp_name c ++ "1")%string = Ok a /\
        getitem fcst (comp_name c ++ str (S n))%string = Ok b /\
        rows = loc fcst (map2 orb (map notna a) (map notna b))
  | _ =>
      exists a, getitem fcst (comp_name c) = Ok a /\ rows = loc fcst (map notna a)
  end.

(** *** A forecast table of four rows and the components drawn from it *)

Definition ex_forecast : DataFrame :=
  {| ds := [0; 1; 2; 3]%Z;
     columns :=
       [("y", [Some 10; Some 12; Some 11; None]);
        ("yhat1", [None; Some 11; Some 12; Some 13]);
        ("yhat2", [None; None; Some 10; Some 14]);
        ("yhat1 10.0%", [None; Some 9; Some 12; Some (23 # 2)]);
        ("trend", [Some 10; Some 11; Some 12; Some 16]);
        ("ar1", [None; Some 1; Some (-1); Some 2]);
        ("ar2", [None; None; Some 2; Some 1]);
        ("residual1", [None; Some (-1); Some 1; Some 7]);
        ("residual2", [None; None; Some (-1); Some 3])]%Q |}.

Definition ex_pct (q : Q) : string := "10.0".

Definition ex_uncertainty : Component :=
  with_fill (component "Uncertainty" (quantile_column ex_pct 1 (1 # 10))).

Definition ex_auto_regression : Component :=
  with_bar (with_overplot 2 (component "Auto-Regression" "ar")).

Definition ex_residual : Component :=
  with_bar (component "Residuals (1)-ahead" "residual1").

Definition ex_residuals : Component :=
  with_bar (with_overplot 2 (component "Residuals" "residual")).

Definition ex_rolling_trend : Component :=
  {| plot_name := Some "Trend"; comp_name := "trend"; multiplicative := false;
     bar := false; rolling := Some 3; add_x := false; fill := false;
     num_overplot := None; focus := 1 |}.

(** What a call returned; the empty object stands for a raised exception. *)
Definition returned (x : result TraceObject) : TraceObject :=
  match x with
  | Ok r => r
  | Raise _ => {| traces := []; xaxis_title := ""; yaxis_title := "";
                  yaxis_rangemode := ""; yaxis_percent := false |}
  end.

End PlotForecastPlotly.

(* ================================================================== *)
(** ** numpy operations used on weight arrays *)
(* ================================================================== *)

Module Np.

Definition size (sh : list nat) : nat := fold_right Nat.mul 1 sh.

Definition ndim (a : ndarray) : nat := List.length (shape a).

(** A zero-dimensional array holding one number. *)
Definition scalar (q : Q) : ndarray := {| shape := []; data := [q] |}.

(** [np.squeeze(a)]: the axes of length one are dropped. *)
Definition squeeze (a : ndarray) : ndarray :=
  {| shape := filter (fun d => negb (d =? 1)) (shape a); data := data a |}.

(** [a[i]]: the [i]-th block along the first axis. *)
Definition item (a : ndarray) (i : Z) : result ndarray :=
  match shape a with
  | d0 :: rest =>
      match Py.index d0 i with
      | Some k => Ok {| shape := rest;
                        data := firstn (size rest) (skipn (k * size rest) (data a)) |}
      | None => Raise IndexError
      end
  | [] => Raise IndexError
  end.

(** [a[i, :]]: as [a[i]], on an array with at least two axes. *)
Definition row (a : ndarray) (i : Z) : result ndarray :=
  if 2 <=? ndim a then item a i else Raise IndexError.

(** [np.mean(a)]. *)
Definition mean (a : ndarray) : ndarray :=
  scalar (Qsum (data a) / inject_Z (Z.of_nat (List.length (data a))))%Q.

(** [np.abs(a)]. *)
Definition abs (a : ndarray) : ndarray :=
  {| shape := shape a; data := map Qabs (data a) |}.

(** The first [n] consecutive blocks of [k] entries. *)
Fixpoint chunks (k n : nat) (l : list Q) : list (list Q) :=
  match n with
  | 0 => []
  | S n' => firstn k l :: chunks k n' (skipn k l)
  end.

(** [np.sum(a, axis=0)]; an array without axes has no axis 0. *)
Definition sum_axis0 (a : ndarray) : result ndarray :=
  match shape a with
  | d0 :: rest =>
      Ok {| shape := rest;
            data := fold_right (map2 Qplus) (repeat 0%Q (size rest))
                               (chunks (size rest) d0 (data a)) |}
  | [] => Raise IndexError
  end.

(** [np.sum(a)]. *)
Definition sum (a : ndarray) : Q := Qsum (data a).

(** [a / s] and [a * s] for a number [s]. *)
Definition div (a : ndarray) (s : Q) : ndarray :=
  {| shape := shape a; data := map (fun v => v / s)%Q (data a) |}.

Definition mul (a : ndarray) (s : Q) : ndarray :=
  {| shape := shape a; data := map (fun v => v * s)%Q (data a) |}.

End Np.

(* ================================================================== *)
(** ** plot_model_parameters.py *)
(* ================================================================== *)

Module PlotModelParameters.

(** The panel functions return what they draw; the axes object they draw
    on and the figure size do not enter any value and are left out. *)

Record DataParams : Type := {
  y_shift : Q;
  y_scale : Q
}.

(** A panel dictionary of [plot_parameters]. *)
Record Component : Type := {
  plot_name : string;
  comp_name : option string;
  weights : option ndarray;
  focus : option Z
}.

Definition panel (pname : string) : Component :=
  {| plot_name := pname; comp_name := None; weights := None; focus := None |}.

(** What a panel function draws on its axes. *)
Record ScalarPlot : Type := {
  sc_names : list string;
  sc_values : list ndarray;
  sc_xlabel : string;
  sc_ylabel : string;
  sc_rotated : bool
}.

Record LaggedPlot : Type := {
  lg_bars : list (nat * Q);            (* lag number, height *)
  lg_width : Q;
  lg_xlabel : string;
  lg_ylabel : string;
  lg_percent : bool
}.

Record SeasonPlot : Type := {
  se_x : list Q;
  se_y : list Q;
  se_ticks : option (list nat * list string);
  se_xlabel : string;
  se_ylabel : string
}.

(** *** Dates *)

Definition ns_per_hour : Z := 3600 * 10 ^ 9.
Definition ns_per_day : Z := 24 * ns_per_hour.
Definition ns_per_5min : Z := 300 * 10 ^ 9.

(** [pd.Timestamp("2017-01-01")], a Sunday. *)
Definition start_2017 : Z := 1483228800 * 10 ^ 9.

(** [pd.date_range(start, periods, freq)]. *)
Definition date_range (start : Z) (n : nat) (freq : Z) : list Z :=
  map (fun i => start + Z.of_nat i * freq)%Z (seq 0 n).

(** [pd.Timedelta(days=d)]. *)
Definition timedelta_days (d : Z) : Z := (d * ns_per_day)%Z.

(** [dates + delta]. *)
Definition shift_dates (delta : Z) (dates : list Z) : list Z :=
  map (fun t => t + delta)%Z dates.

Definition weekdays : list string :=
  ["Monday"; "Tuesday"; "Wednesday"; "Thursday"; "Friday"; "Saturday"; "Sunday"].

(** [Timestamp.day_name()]; 1970-01-01 was a Thursday. *)
Definition day_name (t : Z) : string :=
  nth (Z.to_nat ((t / ns_per_day + 3) mod 7)) weekdays "".

(** The dates whose seasonal component [plot_weekly] asks for. *)
Definition weekly_dates (weekly_start : Z) : list Z :=
  shift_dates (timedelta_days weekly_start)
              (date_range start_2017 (7 * 24) ns_per_hour).

(** The day names that label the weekly axis. *)
Definition weekly_labels (weekly_start : Z) : list string :=
  map day_name (shift_dates (timedelta_days weekly_start)
                            (date_range start_2017 7 ns_per_day)).

(** The dates whose seasonal component [plot_yearly] asks for. *)
Definition yearly_dates (yearly_start : Z) : list Z :=
  shift_dates (timedelta_days yearly_start)
              (date_range start_2017 365 ns_per_day).

Definition daily_dates : list Z := date_range start_2017 (24 * 12) ns_per_5min.

(** *** Helpers on Python lists and dictionaries *)

(** [l.index(q)]: the first position holding a value equal to [q]. *)
Fixpoint list_index (q : Q) (l : list Q) : option nat :=
  match l with
  | [] => None
  | v :: t => if Qeq_bool v q then Some 0
              else match list_index q t with
                   | Some i => Some (S i)
                   | None => None
                   end
  end.

(** [m.model.quantiles.index(quantile)]; the message of the [ValueError]
    stands for Python's "<value> is not in list". *)
Definition quantile_index (m : Model) (quantile : Q) : result nat :=
  match list_index quantile (quantiles m) with
  | Some i => Ok i
  | None => Raise (ValueError "quantile is not in list")
  end.

Fixpoint mapM {A B} (f : A -> result B) (l : list A) : result (list B) :=
  match l with
  | [] => Ok []
  | a :: t => b <- f a ;; bs <- mapM f t ;; Ok (b :: bs)
  end.

Fixpoint assoc {V} (k : string) (l : list (string * V)) : option V :=
  match l with
  | [] => None
  | (k', v) :: t => if String.eqb k' k then Some v else assoc k t
  end.

Definition is_additive (mode : string) : bool := String.eqb mode "additive".

(** *** plot_scalar_weights *)

(** The loop over the [(name, weights)] pairs: the bar height of each. *)
Fixpoint scalar_values (plot_name : string) (focus : option Z)
         (ws : list (string * ndarray)) : result (list ndarray) :=
  match ws with
  | [] => Ok []
  | (_, w) :: rest =>
      let weight := Np.squeeze w in
      if 1 <? Np.ndim weight
      then Raise (ValueError ("Not scalar " ++ plot_name))
      else
        weight <-
          (match shape weight with
           | [n] => if 1 <? n
                    then match focus with
                         | Some f => Np.item weight (f - 1)%Z
                         | None => Ok (Np.mean weight)
                         end
                    else Ok weight
           | _ => Ok weight
           end) ;;
        values <- scalar_values plot_name focus rest ;;
        Ok (weight :: values)
  end.

Definition plot_scalar_weights (ws : list (string * ndarray)) (plot_name : string)
           (focus : option Z) : result ScalarPlot :=
  values <- scalar_values plot_name focus ws ;;
  let names := map fst ws in
  Ok {| sc_names := names;
        sc_values := values;
        sc_xlabel := (plot_name ++ " name")%string;
        sc_ylabel :=
          (if contains "lagged" (lower plot_name)
           then match focus with
                | None => plot_name ++ " weight (avg)"
                | Some f => plot_name ++ " weight (" ++ str_int f ++ ")-ahead"
                end
           else plot_name ++ " weight")%string;
        sc_rotated := 100 <? String.length (String.concat "_" names) |}.

(** *** plot_lagged_weights *)

(** [ax.bar(x, height)]: one bar per position; the heights have to be a
    vector as long as [x]. *)
Definition ax_bar (xs : list nat) (heights : ndarray) : result (list (nat * Q)) :=
  match shape heights with
  | [n] => if n =? List.length xs then Ok (combine xs (data heights))
           else Raise (ValueError "shape mismatch")
  | _ => Raise (ValueError "shape mismatch")
  end.

Definition plot_lagged_weights (ws : ndarray) (comp_name : string)
           (focus : option Z) : result LaggedPlot :=
  n_lags <- match nth_error (shape ws) 1 with
            | Some n => Ok n
            | None => Raise IndexError
            end ;;
  let lags_range := rev (seq 1 n_lags) in
  match focus with
  | None =>
      ws <- Np.sum_axis0 (Np.abs ws) ;;
      let ws := Np.div ws (Np.sum ws) in
      bars <- ax_bar lags_range ws ;;
      Ok {| lg_bars := bars; lg_width := 1%Q;
            lg_xlabel := (comp_name ++ " lag number")%string;
            lg_ylabel := (comp_name ++ " relevance")%string;
            lg_percent := true |}
  | Some f =>
      ws <- (if Np.ndim ws =? 2 then Np.row ws (f - 1)%Z else Ok ws) ;;
      bars <- ax_bar lags_range ws ;;
      Ok {| lg_bars := bars; lg_width := (8 # 10)%Q;
            lg_xlabel := (comp_name ++ " lag number")%string;
            lg_ylabel := (comp_name ++ " weight (" ++ str_int f ++ ")-ahead")%string;
            lg_percent := false |}
  end.

(** *** The per-lag relevance in the words of its description *)

(** Sum of the absolute weights of column [j] of an [r] x [n] matrix. *)
Definition column_abs_sum (r n : nat) (entries : list Q) (j : nat) : Q :=
  Qsum (map (fun i => Qabs (nth (i * n + j) entries 0%Q)) (seq 0 r)).

(** The grand total of the per-column sums. *)
Definition abs_total (r n : nat) (entries : list Q) : Q :=
  Qsum (map (column_abs_sum r n entries) (seq 0 n)).

Definition relevance (r n : nat) (entries : list Q) (j : nat) : Q :=
  (column_abs_sum r n entries j / abs_total r n entries)%Q.

(** *** Services of the rest of the package

    The trend panels, the Fourier features with the seasonality network,
    the full prediction of the forecaster and the lookup of normalization
    parameters live outside these two files (or in torch and matplotlib).
    They are taken as they are: each may raise, none writes to the
    model. *)

Section Backend.

Variable TrendArtists : Type.

(** [m.config_normalization.get_data_params(df_name)]. *)
Variable get_data_params : ConfigNormalization -> string -> result DataParams.

(** [plot_trend] and [plot_trend_change] on
    [(m, quantile, plot_name, df_name)]. *)
Variable plot_trend : Model -> Q -> string -> string -> result TrendArtists.
Variable plot_trend_change : Model -> Q -> string -> string -> result TrendArtists.

(** [m.model.seasonality(features, name, meta)[:, :, quantile_index]],
    squeezed, on the Fourier features of the given dates, and on those of
    [n_steps + 1] points spread over one period. *)
Variable seasonality_at_dates :
  Model -> Season -> string -> list Z -> option (list nat) -> nat -> list Q.
Variable seasonality_one_period :
  Model -> Season -> string -> nat -> option (list nat) -> nat -> list Q.

(** [m.predict_seasonal_components({df_name: df}, quantile)[comp_name]]. *)
Variable predict_seasonal_components :
  Model -> string -> list Z -> Q -> string -> result (list Q).

Inductive Panel : Type :=
| TrendPanel (a : TrendArtists)
| SeasonPanel (p : SeasonPlot)
| LaggedPanel (p : LaggedPlot)
| ScalarPanel (p : ScalarPlot).

(** The figure: the panels from top to bottom, each with the mark of a
    percent axis. *)
Definition Figure : Type := list (Panel * bool).

(** *** predict_one_season, predict_season_from_dates *)

Definition season_settings (m : Model) : result ConfigSeason :=
  match config_season m with
  | Some cs => Ok cs
  | None => Raise AttributeError
  end.

Definition season_config (m : Model) (name : string) : result Season :=
  cs <- season_settings m ;;
  match assoc name (periods cs) with
  | Some s => Ok s
  | None => Raise (KeyError name)
  end.

Definition meta_name_tensor (m : Model) (df_name : string) (n : nat)
  : result (option (list nat)) :=
  if String.eqb df_name "__df__" then Ok None
  else match n with
       | 0 => Ok (Some [])
       | _ => match assoc df_name (id_dict m) with
              | Some i => Ok (Some (repeat i n))
              | None => Raise (KeyError df_name)
              end
       end.

Definition rescale (m : Model) (df_name : string) (predicted : list Q)
  : result (list Q) :=
  cs <- season_settings m ;;
  if String.eqb (season_mode cs) "additive"
  then data_params <- get_data_params (config_normalization m) df_name ;;
       Ok (map (fun v => v * y_scale data_params)%Q predicted)
  else Ok predicted.

Definition predict_one_season (m : Model) (quantile : Q) (name : string)
           (n_steps : nat) (df_name : string) : result (list Q * list Q) :=
  config <- season_config m name ;;
  let t_i := map (fun i => inject_Z (Z.of_nat i) / inject_Z (Z.of_nat n_steps))%Q
                 (seq 0 (n_steps + 1)) in
  meta <- meta_name_tensor m df_name (n_steps + 1) ;;
  qi <- quantile_index m quantile ;;
  let predicted := seasonality_one_period m config name n_steps meta qi in
  predicted <- rescale m df_name predicted ;;
  Ok (t_i, predicted).

Definition predict_season_from_dates (m : Model) (dates : list Z) (name : string)
           (quantile : Q) (df_name : string) : result (list Q) :=
  config <- season_config m name ;;
  meta <- meta_name_tensor m df_name (List.length dates) ;;
  qi <- quantile_index m quantile ;;
  let predicted := seasonality_at_dates m config name dates meta qi in
  rescale m df_name predicted.

(** The [quick] switch of the seasonal panels. *)
Definition seasonal_query (quick : bool) (m : Model) (dates : list Z)
           (comp_name : string) (quantile : Q) (df_name : string)
  : result (list Q) :=
  if quick then predict_season_from_dates m dates comp_name quantile df_name
  else predict_seasonal_components m df_name dates quantile comp_name.

Definition positions (n : nat) : list Q :=
  map (fun i => inject_Z (Z.of_nat i)) (seq 0 n).

(** *** plot_custom_season, plot_yearly, plot_weekly, plot_daily *)

Definition plot_custom_season (m : Model) (comp_name : string) (quantile : Q)
           (df_name : string) : result SeasonPlot :=
  '(t_i, predicted) <- predict_one_season m quantile comp_name 300 df_name ;;
  Ok {| se_x := t_i; se_y := predicted; se_ticks := None;
        se_xlabel := ("One period: " ++ comp_name)%string;
        se_ylabel := ("Seasonality: " ++ comp_name)%string |}.

Definition plot_yearly (m : Model) (quantile : Q) (comp_name : string)
           (yearly_start : Z) (quick : bool) (df_name : string)
  : result SeasonPlot :=
  let days := yearly_dates yearly_start in
  predicted <- seasonal_query quick m days comp_name quantile df_name ;;
  Ok {| se_x := map inject_Z days; se_y := predicted; se_ticks := None;
        se_xlabel := "Day of year";
        se_ylabel := ("Seasonality: " ++ comp_name)%string |}.

Definition plot_weekly (m : Model) (quantile : Q) (comp_name : string)
           (weekly_start : Z) (quick : bool) (df_name : string)
  : result SeasonPlot :=
  let days_i := weekly_dates weekly_start in
  predicted <- seasonal_query quick m days_i comp_name quantile df_name ;;
  let days := weekly_labels weekly_start in
  Ok {| se_x := positions (List.length days_i); se_y := predicted;
        se_ticks := Some (map (fun k => 24 * k) (seq 0 (List.length days + 1)),
                          days ++ [nth 0 days ""]);
        se_xlabel := "Day of week";
        se_ylabel := ("Seasonality: " ++ comp_name)%string |}.

Definition plot_daily (m : Model) (quantile : Q) (comp_name : string)
           (quick : bool) (df_name : string) : result SeasonPlot :=
  let dates := daily_dates in
  predicted <- seasonal_query quick m dates comp_name quantile df_name ;;
  Ok {| se_x := positions (List.length dates); se_y := predicted;
        se_ticks := Some (map (fun k => 12 * k) (seq 0 25), map str (seq 0 25));
        se_xlabel := "Hour of day";
        se_ylabel := ("Seasonality: " ++ comp_name)%string |}.

(** *** plot_parameters *)

Definition with_unknown_data_normalization (m : Model) (b : bool) : Model :=
  {| config_normalization :=
       {| global_normalization := global_normalization (config_normalization m);
          unknown_data_normalization := b;
          local_data_params := local_data_params (config_normalization m) |};
     n_changepoints := n_changepoints m;
     config_season := config_season m;
     n_lags := n_lags m;
     n_forecasts := n_forecasts m;
     quantiles := quantiles m;
     ar_weights := ar_weights m;
     config_regressors := config_regressors m;
     get_reg_weights := get_reg_weights m;
     config_country_holidays := config_country_holidays m;
     config_events := config_events m;
     get_event_weights := get_event_weights m;
     config_lagged_regressors := config_lagged_regressors m;
     get_covar_weights := get_covar_weights m;
     id_dict := id_dict m |}.

(** Falling back to the global data params: the identifier becomes
    ["__df__"] and, unless it is set already, the flag for unknown series
    is set on the model and the overwrite remembered. *)
Definition use_global_data_params (m : Model) : string * Model * bool :=
  if negb (unknown_data_normalization (config_normalization m))
  then ("__df__", with_unknown_data_normalization m true, true)
  else ("__df__", m, false).

(** The resolution of [df_name] at the head of [plot_parameters]: the
    identifier used from there on, the model after the write and
    [overwriting_unknown_data_normalization]. *)
Definition resolve_df_name (m : Model) (df_name : option string)
  : string * Model * bool :=
  if global_normalization (config_normalization m) then
    match df_name with
    | None => ("__df__", m, false)
    | Some name => (name, m, false)
    end
  else
    match df_name with
    | None => use_global_data_params m
    | Some name =>
        if negb (existsb (String.eqb name)
                         (local_data_params (config_normalization m)))
        then use_global_data_params m
        else (name, m, false)
    end.

Definition named (l : list (string * string * ndarray)) (additive : bool)
  : list (string * ndarray) :=
  map (fun e => (fst (fst e), snd e))
      (filter (fun e => Bool.eqb (is_additive (snd (fst e))) additive) l).

Definition regressor_weights (m : Model) (qi : nat)
  : result (list (string * string * ndarray)) :=
  match config_regressors m with
  | Some regs =>
      mapM (fun r =>
              w <- Np.row (get_reg_weights m (fst r)) (Z.of_nat qi) ;;
              Ok (fst r, snd r, w)) regs
  | None => Ok []
  end.

Definition event_weight_list (m : Model) (qi : nat) (mode event : string)
  : result (list (string * string * ndarray)) :=
  mapM (fun kp => w <- Np.row (snd kp) (Z.of_nat qi) ;; Ok (fst kp, mode, w))
       (get_event_weights m event).

Definition event_weights (m : Model) (qi : nat)
  : result (list (string * string * ndarray)) :=
  holidays <-
    match config_country_holidays m with
    | Some (mode, holiday_names) =>
        mapM (event_weight_list m qi mode) holiday_names
    | None => Ok []
    end ;;
  events <-
    match config_events m with
    | Some evs => mapM (fun e => event_weight_list m qi (snd e) (fst e)) evs
    | None => Ok []
    end ;;
  Ok (List.concat holidays ++ List.concat events).

Definition lagged_regressors (m : Model) : list (string * bool) :=
  match config_lagged_regressors m with
  | Some regs => regs
  | None => []
  end.

Definition dquote : string := String (ascii_of_nat 34) EmptyString.

(** What the first half of [plot_parameters] collects: the panels and
    the weight lists of the scalar panels. *)
Record Selection : Type := {
  components : list Component;
  additive_future_regressors : list (string * ndarray);
  multiplicative_future_regressors : list (string * ndarray);
  lagged_scalar_regressors : list (string * ndarray);
  additive_events : list (string * ndarray);
  multiplicative_events : list (string * ndarray)
}.

Definition when (b : bool) (pname : string) : list Component :=
  if b then [panel pname] else [].

Definition nonempty {A} (l : list A) : bool := 0 <? List.length l.

Definition select_components (m : Model) (quantile : Q)
           (forecast_in_focus : option Z) (df_name : string)
  : result Selection :=
  let components := [panel "Trend"] in
  let components := components ++ when (0 <? n_changepoints m) "Trend Rate Change" in
  let components :=
    components ++
    match config_season m with
    | Some cs =>
        map (fun p => {| plot_name := "seasonality"; comp_name := Some (fst p);
                         weights := None; focus := None |}) (periods cs)
    | None => []
    end in
  let components :=
    components ++
    (if 0 <? n_lags m
     then [{| plot_name := "lagged weights"; comp_name := Some "AR";
              weights := Some (ar_weights m); focus := forecast_in_focus |}]
     else []) in
  qi <- quantile_index m quantile ;;
  regs <- regressor_weights m qi ;;
  events <- event_weights m qi ;;
  let lagged_scalar :=
    map (fun r => (fst r, get_covar_weights m (fst r)))
        (filter (fun r => snd r) (lagged_regressors m)) in
  let components :=
    components ++
    map (fun r =>
           {| plot_name := "lagged weights";
              comp_name := Some ("Lagged Regressor " ++ dquote ++ fst r ++ dquote)%string;
              weights := Some (get_covar_weights m (fst r));
              focus := forecast_in_focus |})
        (filter (fun r => negb (snd r)) (lagged_regressors m)) in
  let components :=
    components ++ when (nonempty (named regs true)) "Additive future regressor" in
  let components :=
    components ++ when (nonempty (named regs false)) "Multiplicative future regressor" in
  let components :=
    components ++ when (nonempty lagged_scalar) "Lagged scalar regressor" in
  additive <-
    (if nonempty (named events true)
     then data_params <- get_data_params (config_normalization m) df_name ;;
          Ok (map (fun kw => (fst kw, Np.mul (snd kw) (y_scale data_params)))
                  (named events true))
     else Ok (named events true)) ;;
  let components := components ++ when (nonempty additive) "Additive event" in
  let components :=
    components ++ when (nonempty (named events false)) "Multiplicative event" in
  Ok {| components := components;
        additive_future_regressors := named regs true;
        multiplicative_future_regressors := named regs false;
        lagged_scalar_regressors := lagged_scalar;
        additive_events := additive;
        multiplicative_events := named events false |}.

Definition required {A} (key : string) (o : option A) : result A :=
  match o with
  | Some a => Ok a
  | None => Raise (KeyError key)
  end.

(** Which seasonal panel a seasonality gets. *)
Definition season_kind (m : Model) (name kind : string) (p : Q) : result bool :=
  if String.eqb (lower name) kind then Ok true
  else s <- season_config m name ;; Ok (Qeq_bool (period s) p).

Definition draw_season (m : Model) (quantile : Q) (weekly_start yearly_start : Z)
           (df_name name : string) : result SeasonPlot :=
  weekly <- season_kind m name "weekly" 7%Q ;;
  if weekly then plot_weekly m quantile name weekly_start true df_name
  else
    yearly <- season_kind m name "yearly" (36525 # 100)%Q ;;
    if yearly then plot_yearly m quantile name yearly_start true df_name
    else
      daily <- season_kind m name "daily" 1%Q ;;
      if daily then plot_daily m quantile name true df_name
      else plot_custom_season m name quantile df_name.

Definition scalar_panel_weights (sel : Selection) (plot_name : string)
  : result (list (string * ndarray) * bool) :=
  if String.eqb plot_name "additive future regressor"
  then Ok (additive_future_regressors sel, false)
  else if String.eqb plot_name "multiplicative future regressor"
  then Ok (multiplicative_future_regressors sel, true)
  else if String.eqb plot_name "lagged scalar regressor"
  then Ok (lagged_scalar_regressors sel, false)
  else if String.eqb plot_name "additive event"
  then Ok (additive_events sel, false)
  else if String.eqb plot_name "multiplicative event"
  then Ok (multiplicative_events sel, true)
  else Raise UnboundLocalError.

(** One turn of the loop over [zip(axes, components)]. *)
Definition draw_panel (m : Model) (quantile : Q) (forecast_in_focus : option Z)
           (weekly_start yearly_start : Z) (df_name : string) (sel : Selection)
           (comp : Component) : result (Panel * bool) :=
  let pname := lower (plot_name comp) in
  if startswith pname "trend" then
    if contains "change" pname
    then a <- plot_trend_change m quantile (plot_name comp) df_name ;;
         Ok (TrendPanel a, false)
    else a <- plot_trend m quantile (plot_name comp) df_name ;;
         Ok (TrendPanel a, false)
  else if startswith pname "seasonality" then
    name <- required "comp_name" (comp_name comp) ;;
    cs <- season_settings m ;;
    p <- draw_season m quantile weekly_start yearly_start df_name name ;;
    Ok (SeasonPanel p, String.eqb (season_mode cs) "multiplicative")
  else if String.eqb pname "lagged weights" then
    ws <- required "weights" (weights comp) ;;
    name <- required "comp_name" (comp_name comp) ;;
    p <- plot_lagged_weights ws name (focus comp) ;;
    Ok (LaggedPanel p, false)
  else
    '(ws, percent) <- scalar_panel_weights sel pname ;;
    p <- plot_scalar_weights ws (plot_name comp) forecast_in_focus ;;
    Ok (ScalarPanel p, percent).

(** Everything between the resolution of [df_name] and the reset of
    the flag. *)
Definition draw_parameters (m : Model) (quantile : Q) (forecast_in_focus : option Z)
           (weekly_start yearly_start : Z) (df_name : string) : result Figure :=
  sel <- select_components m quantile forecast_in_focus df_name ;;
  mapM (draw_panel m quantile forecast_in_focus weekly_start yearly_start df_name sel)
       (components sel).

(** The call returns the figure or raises, and leaves the model in the
    second component. *)
Definition plot_parameters (m : Model) (quantile : Q) (forecast_in_focus : option Z)
           (weekly_start yearly_start : Z) (df_name : option string)
  : result Figure * Model :=
  let '(df_name, m, overwriting_unknown_data_normalization) :=
    resolve_df_name m df_name in
  match draw_parameters m quantile forecast_in_focus weekly_start yearly_start df_name with
  | Ok fig =>
      (Ok fig,
       if overwriting_unknown_data_normalization
       then with_unknown_data_normalization m false
       else m)
  | Raise e => (Raise e, m)
  end.

End Backend.

(** *** Notions used to state the properties of the parameter plots *)

Definition unknown_allowed (m : Model) : bool :=
  unknown_data_normalization (config_normalization m).

(** [df_name] is [None] or not a key of the local data params. *)
Definition not_local (m : Model) (df_name : option string) : Prop :=
  match df_name with
  | None => True
  | Some name => ~ In name (local_data_params (config_normalization m))
  end.

Definition no_entries {A} (o : option (list A)) : Prop :=
  match o with
  | Some l => l = []
  | None => True
  end.

(** No seasonalities, lags, regressors or events. *)
Definition bare (m : Model) : Prop :=
  no_entries (option_map periods (config_season m)) /\
  n_lags m = 0 /\
  no_entries (config_regressors m) /\
  no_entries (option_map snd (config_country_holidays m)) /\
  no_entries (config_events m) /\
  no_entries (config_lagged_regressors m).

(** *** A model with local normalization, and services for it *)

Definition no_weights : ndarray := {| shape := [0]; data := [] |}.

Definition ex_model : Model :=
  {| config_normalization :=
       {| global_normalization := false;
          unknown_data_normalization := false;
          local_data_params := ["series_a"; "series_b"] |};
     n_changepoints := 0;
     config_season :=
       Some {| season_mode := "additive";
               periods := [("weekly", {| period := 7; resolution := 3 |})] |};
     n_lags := 2;
     n_forecasts := 2;
     quantiles := [1 # 2]%Q;
     ar_weights := {| shape := [2; 2]; data := [1; -3; 2; 2]%Q |};
     config_regressors := None;
     get_reg_weights := fun _ => no_weights;
     config_country_holidays := None;
     config_events := None;
     get_event_weights := fun _ => [];
     config_lagged_regressors := None;
     get_covar_weights := fun _ => no_weights;
     id_dict := [("series_a", 0); ("series_b", 1)] |}.

(** A model with nothing but its trend. *)
Definition ex_bare_model : Model :=
  {| config_normalization := config_normalization ex_model;
     n_changepoints := 0;
     config_season := None;
     n_lags := 0;
     n_forecasts := 1;
     quantiles := [1 # 2]%Q;
     ar_weights := no_weights;
     config_regressors := None;
     get_reg_weights := fun _ => no_weights;
     config_country_holidays := None;
     config_events := Some [];
     get_event_weights := fun _ => [];
     config_lagged_regressors := None;
     get_covar_weights := fun _ => no_weights;
     id_dict := [] |}.

Definition ex_table : DataFrame :=
  {| ds := [0; 1]%Z; columns := [("y", [Some 1; Some 2]%Q)] |}.

(** Data params are there for a known series and, when the flag allows
    it, for any other. *)
Definition ex_data_params (cn : ConfigNormalization) (df_name : string)
  : result DataParams :=
  if global_normalization cn
     || existsb (String.eqb df_name) (local_data_params cn)
     || unknown_data_normalization cn
  then Ok {| y_shift := 0; y_scale := 2 |}
  else Raise (ValueError "unknown series").

Definition ex_trend (m : Model) (quantile : Q) (plot_name df_name : string)
  : result unit := Ok tt.

(** A seasonality that answers each timestamp with the timestamp. *)
Definition ex_at_dates (m : Model) (s : Season) (name : string) (dates : list Z)
           (meta : option (list nat)) (qi : nat) : list Q :=
  map inject_Z dates.

Definition ex_one_period (m : Model) (s : Season) (name : string) (n_steps : nat)
           (meta : option (list nat)) (qi : nat) : list Q :=
  repeat 0%Q (n_steps + 1).

Definition ex_full_prediction (m : Model) (df_name : string) (dates : list Z)
           (quantile : Q) (comp_name : string) : result (list Q) :=
  Ok (map inject_Z dates).

Definition ex_plot_parameters :=
  plot_parameters unit ex_data_params ex_trend ex_trend ex_at_dates ex_one_period
                  ex_full_prediction.

Definition ex_plot_weekly :=
  plot_weekly ex_data_params ex_at_dates ex_full_prediction.

Definition ex_vector : ndarray := {| shape := [3]; data := [1; 2; 3]%Q |}.
Definition ex_matrix : ndarray := {| shape := [2; 2]; data := [1; 2; 3; 4]%Q |}.

Definition ex_weights : list (string * ndarray) :=
  [("a", ex_vector); ("b", ex_matrix)].

(** The plot that a call returned, if it returned. *)
Definition curve (x : result SeasonPlot) : list Q :=
  match x with
  | Ok p => se_y p
  | Raise _ => []
  end.

End PlotModelParameters.

(* ================================================================== *)
(** ** plot_forecast_plotly.py: the forecast figure and the panel grid *)
(* ================================================================== *)

Module ForecastFigure.

Import PlotForecastPlotly.

(** *** plot *)

(** A trace of the forecast figure.  The opacity of a forecast line is
    the alpha channel of its colour, kept here as a number. *)
Record Curve : Type := {
  c_name : string;
  c_x : list Z;
  c_y : list cell;
  c_mode : string;
  c_alpha : option Q;
  c_fill : option string;
  c_symbol : option string
}.

(** Alpha of the [i]-th forecast line: [0.2 + 2.0 / (i + 2.5)]. *)
Definition line_alpha (i : nat) : Q :=
  ((2 # 10) + 2 / (inject_Z (Z.of_nat i) + (25 # 10)))%Q.

Definition forecast_line (name : string) (ds : list Z) (ys : list cell) (i : nat)
  : Curve :=
  {| c_name := name; c_x := ds; c_y := ys; c_mode := "lines";
     c_alpha := Some (line_alpha i); c_fill := Some "none"; c_symbol := None |}.

Definition band_line (name : string) (ds : list Z) (ys : list cell)
           (fill : option string) : Curve :=
  {| c_name := name; c_x := ds; c_y := ys; c_mode := "lines";
     c_alpha := Some (2 # 10)%Q; c_fill := fill; c_symbol := None |}.

Definition cross (name : string) (xs : list Z) (ys : list cell) : Curve :=
  {| c_name := name; c_x := xs; c_y := ys; c_mode := "markers";
     c_alpha := None; c_fill := None; c_symbol := Some "x" |}.

Definition predicted_line (ds : list Z) (ys : list cell) : Curve :=
  {| c_name := "Predicted"; c_x := ds; c_y := ys; c_mode := "lines";
     c_alpha := None; c_fill := None; c_symbol := None |}.

Definition actual (ds : list Z) (ys : list cell) : Curve :=
  {| c_name := "Actual"; c_x := ds; c_y := ys; c_mode := "markers";
     c_alpha := None; c_fill := None; c_symbol := None |}.

(** [a[i]] on an array, with Python's subscripts. *)
Definition at_index {A} (l : list A) (i : Z) : result A :=
  match Py.index (List.length l) i with
  | Some k => match nth_error l k with
              | Some a => Ok a
              | None => Raise IndexError
              end
  | None => Raise IndexError
  end.

(** [enumerate(l)]. *)
Definition enumerate {A} (l : list A) : list (nat * A) :=
  combine (seq 0 (List.length l)) l.

Fixpoint mapM {A B} (f : A -> result B) (l : list A) : result (list B) :=
  match l with
  | [] => Ok []
  | a :: t => b <- f a ;; bs <- mapM f t ;; Ok (b :: bs)
  end.

Section Plot.

(** [str(round(q * 100, 1))], the percentage in a quantile column name. *)
Variable pct_label : Q -> string.

Definition colname (line_per_origin : bool) : string :=
  if line_per_origin then "origin-" else "yhat".

(** All forecast column names, and those that are no quantiles. *)
Definition yhat_col_names (fcst : DataFrame) (line_per_origin : bool) : list string :=
  filter (fun c => contains (colname line_per_origin) c) (column_names fcst).

Definition yhat_col_names_no_qts (fcst : DataFrame) (line_per_origin : bool)
  : list string :=
  filter (fun c => contains (colname line_per_origin) c && negb (contains "%" c))
         (yhat_col_names fcst line_per_origin).

(** One line per forecast column. *)
Definition forecast_lines (fcst : DataFrame) (line_per_origin : bool)
  : result (list Curve) :=
  mapM (fun e =>
          let '(i, yhat_col_name) := e in
          y <- getitem fcst (colname line_per_origin
                             ++ str (if line_per_origin then i else i + 1))%string ;;
          Ok (forecast_line yhat_col_name (ds fcst) y i))
       (enumerate (rev (yhat_col_names_no_qts fcst line_per_origin))).

(** The horizon that names the quantile columns:
    [highlight_forecast if highlight_forecast else step]. *)
Definition band_horizon (line_per_origin : bool) (highlight_forecast : option Z) : Z :=
  match highlight_forecast with
  | Some h => if (h =? 0)%Z then (if line_per_origin then 0 else 1)%Z else h
  | None => (if line_per_origin then 0 else 1)%Z
  end.

Definition band_name (line_per_origin : bool) (highlight_forecast : option Z) (q : Q)
  : string :=
  (colname line_per_origin ++ str_int (band_horizon line_per_origin highlight_forecast)
   ++ " " ++ pct_label q ++ "%")%string.

(** The quantile lines: the first without fill, the others filled to the
    line before. *)
Definition quantile_bands (fcst : DataFrame) (quantiles : list Q)
           (line_per_origin : bool) (highlight_forecast : option Z)
  : result (list Curve) :=
  if 1 <? List.length quantiles then
    mapM (fun e =>
            let '(i, q) := e in
            let name := band_name line_per_origin highlight_forecast q in
            y <- getitem fcst name ;;
            Ok (band_line name (ds fcst) y
                          (if i =? 0 then None else Some "tonexty")))
         (enumerate (tl quantiles))
  else Ok [].

(** Number of present cells, [sum(col.notna())]. *)
Definition notna_count (col : list cell) : nat :=
  List.length (filter notna col).

(** The markers of the highlighted forecast step. *)
Definition highlight (fcst : DataFrame) (line_per_origin : bool)
           (highlight_forecast : option Z) : result (list Curve) :=
  match highlight_forecast with
  | None => Ok []
  | Some h =>
      if line_per_origin then
        origin0 <- getitem fcst "origin-0" ;;
        let num_forecast_steps := Z.of_nat (notna_count origin0) in
        let steps_from_last := (num_forecast_steps - h)%Z in
        mapM (fun e =>
                let '(i, yhat_col_name) := e in
                let pos := (- (1 + Z.of_nat i + steps_from_last))%Z in
                x <- at_index (ds fcst) pos ;;
                col <- getitem fcst ("origin-" ++ str i)%string ;;
                y <- at_index col pos ;;
                Ok (cross yhat_col_name [x] [y]))
             (enumerate (yhat_col_names_no_qts fcst line_per_origin))
      else
        y <- getitem fcst ("yhat" ++ str_int h)%string ;;
        Ok [predicted_line (ds fcst) y; cross "Predicted" (ds fcst) y]
  end.

(** The traces of the forecast figure, in drawing order. *)
Definition plot (fcst : DataFrame) (quantiles : list Q)
           (highlight_forecast : option Z) (line_per_origin : bool)
  : result (list Curve) :=
  lines <- (if match highlight_forecast with None => true | Some _ => line_per_origin end
            then forecast_lines fcst line_per_origin
            else Ok []) ;;
  bands <- quantile_bands fcst quantiles line_per_origin highlight_forecast ;;
  marks <- highlight fcst line_per_origin highlight_forecast ;;
  y <- getitem fcst "y" ;;
  Ok (lines ++ bands ++ marks ++ [actual (ds fcst) y]).

End Plot.

(** *** plot_components: the rows of the panel grid *)

Section Panels.

(** The iteration order of a Python [set] of strings: some listing of the
    distinct elements. *)
Variable set_order : list string -> list string.

Definition plot_names (components : list Component) : list string :=
  map (fun c => lower (effective_plot_name c)) components.

Definition panel_names (components : list Component) : list string :=
  set_order (plot_names components).

Definition panel_order (components : list Component) : list string :=
  flat_map (fun name => filter (fun x => contains x name) (panel_names components))
           (plot_names components).

Definition npanel (components : list Component) : nat :=
  List.length (panel_names components).

(** [l.index(x)] for strings. *)
Fixpoint string_index (x : string) (l : list string) : option nat :=
  match l with
  | [] => None
  | y :: t => if String.eqb y x then Some 0
              else match string_index x t with
                   | Some i => Some (S i)
                   | None => None
                   end
  end.

(** The index [j] of the panel of a component; the component is drawn in
    row [j + 1] of the grid of [npanel] rows. *)
Definition panel_index (components : list Component) (c : Component) : result nat :=
  match string_index (lower (effective_plot_name c)) (panel_order components) with
  | Some j => Ok j
  | None => Raise (ValueError "name is not in list")
  end.

End Panels.

(** What [set_order] has to be: the same elements, each once. *)
Definition lists_set (set_order : list string -> list string) : Prop :=
  forall l, NoDup (set_order l) /\ (forall x, In x (set_order l) <-> In x l).

(** No name of the list lies inside another name of the list. *)
Definition substring_free (names : list string) : Prop :=
  forall x y, In x names -> In y names -> contains x y = true -> x = y.

(** *** plot_components: the renderer of a panel *)

Inductive Renderer : Type :=
| ForecastComponent         (* get_forecast_component_props *)
| Seasonality               (* the seasonal branch *)
| MultiForecastComponent    (* get_multiforecast_component_props *)
| Unbound.                  (* no branch assigns trace_object *)

(** The chain of tests on the lowered plot name. *)
Definition renderer (name : string) : Renderer :=
  if String.eqb name "trend"
     || (contains "residuals" name && contains "ahead" name)
     || (contains "ar" name && contains "ahead" name)
     || (contains "lagged_regressor" name && contains "ahead" name)
     || contains "uncertainty" name
  then ForecastComponent
  else if contains "event" name || contains "future regressor" name
  then ForecastComponent
  else if contains "season" name then Seasonality
  else if contains "auto-regression" name || contains "lagged regressor" name
          || contains "residuals" name
  then MultiForecastComponent
  else Unbound.

(** *** get_seasonality_props: the title of the x axis *)

(** [s[-2:]] and [s[:-2]]. *)
Definition last_two (s : string) : string :=
  String.substring (String.length s - 2) 2 s.

Definition without_last_two (s : string) : string :=
  String.substring 0 (String.length s - 2) s.

Definition seasonality_xaxis_title (comp_name : string) : string :=
  if String.eqb (last_two comp_name) "ly"
  then ("Day of " ++ without_last_two comp_name)%string
  else ("Day of " ++ comp_name)%string.

(** *** Tables with one cell per row in every column *)

Definition well_formed (df : DataFrame) : Prop :=
  forall name col, lookup name (columns df) = Some col ->
                   List.length col = List.length (ds df).

Definition aligned (t : Trace) : Prop :=
  List.length (t_x t) = List.length (t_y t).

Definition no_nan (t : Trace) : Prop :=
  Forall (fun v => notna v = true) (t_y t).

(** *** A model with two quantiles, a set order and a component list *)

Definition ex_quantile_model : Model :=
  {| config_normalization := config_normalization PlotModelParameters.ex_model;
     n_changepoints := 0;
     config_season := config_season PlotModelParameters.ex_model;
     n_lags := 2;
     n_forecasts := 2;
     quantiles := [1 # 2; 1 # 10]%Q;
     ar_weights := ar_weights PlotModelParameters.ex_model;
     config_regressors := None;
     get_reg_weights := get_reg_weights PlotModelParameters.ex_model;
     config_country_holidays := None;
     config_events := None;
     get_event_weights := fun _ => [];
     config_lagged_regressors := None;
     get_covar_weights := get_covar_weights PlotModelParameters.ex_model;
     id_dict := id_dict PlotModelParameters.ex_model |}.

(** One order a set can have: each element once, where the list has it
    last. *)
Definition listed_once (l : list string) : list string := nodup string_dec l.

Definition ex_components : list Component :=
  [component "Trend" "trend"; ex_auto_regression; ex_uncertainty;
   with_fill (component "Uncertainty" "yhat1 90.0%")].

(** What a call of [plot] returned; no trace stands for an exception. *)
Definition drawn (x : result (list Curve)) : list Curve :=
  match x with
  | Ok cs => cs
  | Raise _ => []
  end.

End ForecastFigure.

(* ================================================================== *)
(** * Strings: which characters a name can hold *)
(* ================================================================== *)

Module StringFacts.

Lemma chars_app (s1 s2 : string) :
  list_ascii_of_string (s1 ++ s2)
  = list_ascii_of_string s1 ++ list_ascii_of_string s2.
Proof. induction s1 as [|a s1 IH]; simpl; congruence. Qed.

Lemma prefix_empty (s : string) : String.prefix EmptyString s = true.
Proof. now destruct s. Qed.

Lemma prefix_app (n s : string) : String.prefix n (n ++ s) = true.
Proof.
  induction n as [|a n IH]; simpl; [apply prefix_empty|].
  destruct (ascii_dec a a); congruence.
Qed.

Lemma prefix_chars (h : string) :
  forall n, String.prefix n h = true ->
            incl (list_ascii_of_string n) (list_ascii_of_string h).
Proof.
  induction h as [|b h IH]; intros [|a n]; simpl; intros H;
    try discriminate; try (intros c Hc; contradiction).
  destruct (ascii_dec a b) as [->|]; try discriminate.
  intros c [<-|Hc]; [now left|right]. now apply (IH n).
Qed.

Lemma contains_chars (h : string) :
  forall n, contains n h = true ->
            incl (list_ascii_of_string n) (list_ascii_of_string h).
Proof.
  induction h as [|b h IH]; intros n; cbn [contains].
  - apply prefix_chars.
  - intros H. apply orb_true_iff in H. destruct H as [H|H].
    + now apply prefix_chars.
    + intros x Hx. right. now apply (IH n).
Qed.

Lemma contains_prefix (n s : string) : contains n (n ++ s) = true.
Proof.
  pose proof (prefix_app n s) as H.
  destruct (n ++ s)%string; cbn [contains]; [assumption|].
  now rewrite H.
Qed.

(** A needle with a character that the haystack lacks is not in it. *)
Lemma absent_char (x : ascii) (n h : string) :
  In x (list_ascii_of_string n) -> ~ In x (list_ascii_of_string h) ->
  contains n h = false.
Proof.
  intros Hn Hh. destruct (contains n h) eqn:E; auto.
  exfalso. apply Hh. now apply (contains_chars h n E).
Qed.

Lemma lower_chars (s : string) :
  list_ascii_of_string (lower s) = map lower_ascii (list_ascii_of_string s).
Proof. induction s as [|a s IH]; simpl; congruence. Qed.

Lemma uint_digits (d : Decimal.uint) :
  Forall (fun a => is_digit a = true)
         (list_ascii_of_string (NilEmpty.string_of_uint d)).
Proof. induction d; simpl; constructor; auto. Qed.

Lemma str_digits (k : nat) :
  Forall (fun a => is_digit a = true) (list_ascii_of_string (str k)).
Proof.
  unfold str, NilZero.string_of_uint.
  destruct (Nat.to_uint k) eqn:E; try (rewrite <- E; apply uint_digits).
  repeat constructor.
Qed.

Lemma lower_digit (a : ascii) : is_digit a = true -> lower_ascii a = a.
Proof.
  unfold is_digit, lower_ascii. intros H.
  apply andb_true_iff in H. destruct H as [_ H]. apply Nat.leb_le in H.
  destruct (Nat.leb_spec 65 (nat_of_ascii a)); [lia|reflexivity].
Qed.

End StringFacts.

(* ================================================================== *)
(** * Properties of the forecast-component renderers *)
(* ================================================================== *)

Module TableFacts.

Lemma select_notna_present (col : list cell) :
  Forall (fun v => notna v = true) (select (map notna col) col).
Proof.
  induction col as [|[v|] col IH]; simpl; auto.
Qed.

Lemma lookup_loc name mask cols :
  lookup name (map (fun kv => (fst kv, select mask (snd kv))) cols)
  = option_map (select mask) (lookup name cols).
Proof.
  induction cols as [|[k v] cols IH]; simpl; auto.
  destruct (String.eqb k name); auto.
Qed.

Lemma getitem_loc df name mask col :
  getitem df name = Ok col ->
  getitem (loc df mask) name = Ok (select mask col).
Proof.
  unfold getitem, loc; simpl. rewrite lookup_loc.
  destruct (lookup name (columns df)); simpl; congruence.
Qed.

Lemma lookup_store_same name v cols old :
  lookup name cols = Some old -> lookup name (store name v cols) = Some v.
Proof.
  induction cols as [|[k w] cols IH]; simpl; try discriminate.
  destruct (String.eqb k name) eqn:E; simpl; rewrite E; auto.
Qed.

Lemma lookup_store_other name name' v cols :
  name' <> name -> lookup name' (store name v cols) = lookup name' cols.
Proof.
  intros Hne. induction cols as [|[k w] cols IH]; simpl; auto.
  destruct (String.eqb k name) eqn:E; simpl.
  - apply String.eqb_eq in E; subst k.
    destruct (String.eqb name name') eqn:E'; auto.
    apply String.eqb_eq in E'. congruence.
  - destruct (String.eqb k name'); auto.
Qed.

Lemma getitem_setvalues_same df name v old :
  getitem df name = Ok old -> getitem (setvalues df name v) name = Ok v.
Proof.
  unfold getitem, setvalues; simpl.
  destruct (lookup name (columns df)) eqn:E; try discriminate.
  intros _. now rewrite (lookup_store_same _ _ _ _ E).
Qed.

Lemma set_last_ends {A} (v : A) (ys ys' : list A) :
  set_last v ys = Ok ys' -> ys' = removelast ys ++ [v] /\ ys <> [].
Proof.
  destruct ys; simpl; intros H; inversion H; split; auto; discriminate.
Qed.

Lemma set_last_ok {A} (v : A) (ys : list A) :
  ys <> [] -> set_last v ys = Ok (removelast ys ++ [v]).
Proof. destruct ys; simpl; congruence. Qed.

Lemma sub_equal_cells (q b : list cell) (mask : list bool) :
  Forall2 cell_eq q b ->
  Forall (fun v => notna v = true) (select mask q) ->
  Forall (fun v => cell_eq v (Some 0%Q)) (map2 cell_sub (select mask q) (select mask b)).
Proof.
  intros H. revert mask. induction H as [|x y q b Hxy H IH]; intros mask Hp.
  - destruct mask; simpl; constructor.
  - destruct mask as [|[|] mask]; simpl in *; auto.
    inversion Hp; subst. constructor; auto.
    destruct x as [x|]; try discriminate. destruct y as [y|]; simpl in *; try tauto.
    rewrite Hxy. unfold Qminus. apply Qplus_opp_r.
Qed.

End TableFacts.

Module ForecastPlotFacts.

Import PlotForecastPlotly TableFacts StringFacts.

(** The renderer up to its main trace, once the component column is
    known to exist. *)
Lemma props_after_filter (fcst : DataFrame) (c : Component) (col : list cell) :
  getitem fcst (comp_name c) = Ok col ->
  let keep := map notna col in
  let rows := loc fcst keep in
  get_forecast_component_props fcst c =
  (fcst' <- (if is_residual c
             then y' <- set_last (Some 0%Q) (select keep col) ;;
                  Ok (setvalues rows (comp_name c) y')
             else Ok rows) ;;
   y <- getitem fcst' (comp_name c) ;;
   y <- (if is_uncertainty c
         then q <- getitem fcst' (comp_name c) ;;
              b <- getitem fcst' (base_column c) ;;
              Ok (map2 cell_sub q b)
         else Ok y) ;;
   main <-
     (if bar c then Ok [bar_trace c (ds rows) y None]
      else if is_uncertainty c && fill c then Ok [filled_trace c (ds rows) y]
      else if add_x c
           then col' <- getitem fcst' (comp_name c) ;;
                Ok [line_trace c (ds rows) y None; markers (ds rows) col']
           else Ok [line_trace c (ds rows) y None]) ;;
   Ok (axes c (underlay_traces c (ds rows) (select keep col) ++ main))).
Proof.
  intros H keep rows. unfold get_forecast_component_props.
  rewrite H; cbn [Py.bind].
  assert (Hl : getitem rows (comp_name c) = Ok (select keep col))
    by (apply getitem_loc, H).
  fold keep. fold rows. rewrite Hl. unfold underlay_traces.
  destruct (rolling c) as [w|]; cbn [Py.bind];
    [destruct (bar c); [|destruct (add_x c)]|]; reflexivity.
Qed.

(** *** What the selector hands to the renderers *)

Lemma digits_lack (x : ascii) (k : nat) :
  is_digit x = false -> ~ In x (list_ascii_of_string (str k)).
Proof.
  intros Hx Hin.
  pose proof (proj1 (Forall_forall _ _) (str_digits k) x Hin) as Hd.
  congruence.
Qed.

Lemma lowered_digits_lack (x : ascii) (k : nat) :
  is_digit x = false -> ~ In x (map lower_ascii (list_ascii_of_string (str k))).
Proof.
  intros Hx Hin. apply in_map_iff in Hin. destruct Hin as (a & Ha & Hin).
  pose proof (proj1 (Forall_forall _ _) (str_digits k) a Hin) as Hd.
  rewrite (lower_digit a Hd) in Ha. subst a. congruence.
Qed.

(** The uncertainty components of [plot_components] are filled lines over
    a quantile column; the column name holds no "residual" since a
    percentage is written without the letter r. *)
Lemma selector_uncertainty_components (pct_label : Q -> string) (m : Model)
      (forecast_in_focus : option nat) (c : Component) :
  (forall q, ~ In "r"%char (list_ascii_of_string (pct_label q))) ->
  In c (uncertainty_components pct_label m forecast_in_focus) ->
  is_uncertainty c = true /\ fill c = true /\ bar c = false /\
  is_residual c = false /\ rolling c = None.
Proof.
  intros Hpct Hin. unfold uncertainty_components in Hin.
  destruct (1 <? List.length (quantiles m)); [|contradiction].
  apply in_map_iff in Hin. destruct Hin as (q & <- & _).
  assert (Hcol : forall h, contains "residual" (quantile_column pct_label h q) = false).
  { intros h. apply (absent_char "r"); [simpl; auto|].
    unfold quantile_column. rewrite !chars_app, !in_app_iff.
    intros [H|[H|[H|[H|H]]]].
    - simpl in H. intuition discriminate.
    - now apply (digits_lack "r" h).
    - simpl in H. intuition discriminate.
    - now apply (Hpct q).
    - simpl in H. intuition discriminate. }
  destruct forecast_in_focus; repeat split; apply Hcol.
Qed.

(** The residual components of [plot_components] are bars over a column
    named "residual..." under a plot name without "uncertainty", and they
    have no rolling underlay. *)
Lemma selector_residual_components (m : Model) (fcst : DataFrame)
      (forecast_in_focus : option nat) (cs : list Component) (c : Component) :
  residual_components m fcst forecast_in_focus true = Ok cs -> In c cs ->
  is_residual c = true /\ is_uncertainty c = false /\ bar c = true /\
  rolling c = None.
Proof.
  assert (Hname : forall k, contains "uncertainty"
                              (lower ("Residuals (" ++ str k ++ ")-ahead")) = false).
  { intros k. apply (absent_char "n"); [simpl; auto 10|].
    rewrite lower_chars, !chars_app, !map_app, !in_app_iff.
    intros [H|[H|H]].
    - simpl in H. intuition discriminate.
    - now apply (lowered_digits_lack "n" k).
    - simpl in H. intuition discriminate. }
  unfold residual_components. intros H Hin.
  destruct (match forecast_in_focus with
            | None => 1 <? n_forecasts m
            | Some _ => false
            end).
  - destruct (getitem fcst "residual1") as [col|]; cbn [Py.bind] in H;
      try discriminate.
    destruct (0 <? count col); inversion H; subst cs; [|contradiction].
    destruct Hin as [<-|[]]. repeat split.
  - ok_step H col.
    destruct (0 <? count col); inversion H; subst cs; [|contradiction].
    destruct Hin as [<-|[]]. repeat split.
    + exact (contains_prefix "residual" (str _)).
    + apply Hname.
Qed.

(** C1.  An uncertainty component with [fill] set, as the selector
    builds it (a quantile column drawn as a line, see
    [selector_uncertainty_components]), yields, after the optional
    underlay, one trace filled down to zero whose y-values are, over the
    rows where the quantile column is present, the quantile column minus
    the base column [yhat{num_overplot}] (or [yhat1]).  When the two
    columns agree at every row, every drawn value is zero. *)
Theorem uncertainty_band_values (fcst : DataFrame) (c : Component) (q b : list cell) :
  is_uncertainty c = true -> fill c = true -> bar c = false ->
  is_residual c = false ->
  getitem fcst (comp_name c) = Ok q ->
  getitem fcst (base_column c) = Ok b ->
  let keep := map notna q in
  let band := filled_trace c (select keep (ds fcst))
                           (map2 cell_sub (select keep q) (select keep b)) in
  exists under,
    get_forecast_component_props fcst c = Ok (axes c (under ++ [band])) /\
    (rolling c = None -> under = []) /\
    t_fill band = Some "tozeroy" /\
    (Forall2 cell_eq q b -> Forall (fun v => cell_eq v (Some 0%Q)) (t_y band)).
Proof.
  intros Hu Hf Hb Hr Hq Hbase keep band.
  exists (underlay_traces c (select keep (ds fcst)) (select keep q)).
  repeat split.
  - rewrite (props_after_filter fcst c q Hq). fold keep.
    rewrite Hr, Hu, Hb, Hf; simpl.
    rewrite (getitem_loc fcst _ keep q Hq); simpl.
    rewrite (getitem_loc fcst _ keep b Hbase); simpl.
    reflexivity.
  - intros Hroll. unfold underlay_traces. now rewrite Hroll.
  - intros Heq. simpl. apply sub_equal_cells; auto.
    apply select_notna_present.
Qed.

(** *** The overlay loop *)

Lemma agrees_refl c rows : agrees c rows rows.
Proof.
  intros name. destruct (lookup name (columns rows)) eqn:E; eauto.
Qed.

Lemma agrees_store c rows cur name v o :
  is_residual c = true ->
  agrees c rows cur ->
  lookup name (columns rows) = Some o ->
  lookup name (columns cur) = Some v ->
  agrees c rows (setvalues cur name (removelast o ++ [Some 0%Q])).
Proof.
  intros Hres Ha Ho Hv name'. specialize (Ha name') as Ha'.
  destruct (string_dec name' name) as [->|Hne].
  - rewrite Ho. eexists; split; [|right; split; [assumption|reflexivity]].
    simpl. eapply lookup_store_same; eauto.
  - simpl. rewrite lookup_store_other by assumption. exact Ha'.
Qed.

Lemma overlay_step_spec c fcst_t rows i cur ts cur' ts' :
  agrees c rows cur ->
  overlay_step c fcst_t i (cur, ts) = Ok (cur', ts') ->
  agrees c rows cur' /\
  exists col, getitem rows (horizon_column c i) = Ok col /\
              ts' = ts ++ [overlay_trace c fcst_t i (overlay_values c col)].
Proof.
  intros Ha. unfold overlay_step, overlay_trace, overlay_values.
  pose proof (Ha (horizon_column c i)) as Hn.
  unfold getitem at 1.
  destruct (lookup (horizon_column c i) (columns rows)) as [o|] eqn:Ho.
  2:{ rewrite Hn. cbn [Py.bind]. discriminate. }
  destruct Hn as (v & Hv & Hvo). rewrite Hv. cbn [Py.bind].
  assert (Hrows : getitem rows (horizon_column c i) = Ok o)
    by (unfold getitem; now rewrite Ho).
  assert (Hcur : getitem cur (horizon_column c i) = Ok v)
    by (unfold getitem; now rewrite Hv).
  destruct (is_residual c) eqn:Hres.
  - destruct (set_last (Some 0%Q) v) as [y'|e] eqn:Hs; cbn [Py.bind];
      try discriminate.
    apply set_last_ends in Hs. destruct Hs as [-> _].
    assert (Hy : removelast v ++ [Some 0%Q] = removelast o ++ [Some 0%Q]).
    { destruct Hvo as [->|[_ ->]]; auto. now rewrite removelast_last. }
    rewrite Hy.
    rewrite (getitem_setvalues_same _ _ _ _ Hcur).
    cbn [Py.bind]. intros H; inversion H; subst. split.
    + eapply agrees_store; eauto.
    + exists o. split; auto.
  - cbn [Py.bind]. rewrite Hcur. cbn [Py.bind].
    intros H; inversion H; subst. split; auto.
    exists o. split; auto.
    destruct Hvo as [->|[Hz _]]; [reflexivity|discriminate].
Qed.

Lemma overlay_loop_spec c fcst_t rows idx :
  forall cur ts cur' ts',
    agrees c rows cur ->
    overlay_loop c fcst_t idx (cur, ts) = Ok (cur', ts') ->
    agrees c rows cur' /\
    exists new,
      ts' = ts ++ new /\
      Forall2 (fun i t =>
                 exists col, getitem rows (horizon_column c i) = Ok col /\
                             t = overlay_trace c fcst_t i (overlay_values c col))
              idx new.
Proof.
  induction idx as [|i idx IH]; intros cur ts cur' ts' Ha; cbn [overlay_loop].
  - intros H; inversion H; subst. split; auto.
    exists []. rewrite app_nil_r. split; auto.
  - destruct (overlay_step c fcst_t i (cur, ts)) as [[cur1 ts1]|e] eqn:Hstep;
      cbn [Py.bind]; try discriminate.
    intros Hloop.
    destruct (overlay_step_spec _ _ _ _ _ _ _ _ Ha Hstep) as (Ha1 & col & Hcol & ->).
    destruct (IH _ _ _ _ Ha1 Hloop) as (Ha' & new & -> & Hnew).
    split; auto.
    exists (overlay_trace c fcst_t i (overlay_values c col) :: new).
    rewrite <- app_assoc. split; auto.
    constructor; eauto.
Qed.

Lemma multi_spec (fcst : DataFrame) (c : Component) (r : TraceObject) :
  get_multiforecast_component_props fcst c = Ok r ->
  exists rows new single,
    kept_rows fcst c rows /\
    traces r = new ++ single /\
    Forall2 (fun i t =>
               exists col, getitem rows (horizon_column c i) = Ok col /\
                           t = overlay_trace c (ds rows) i (overlay_values c col))
            (overlay_indices c) new /\
    Forall (fun t => is_residual c = true -> ends_in_zero t) single /\
    (num_overplot c <> None -> focus c <= 1 -> single = []).
Proof.
  unfold get_multiforecast_component_props, kept_rows, overlay_indices.
  set (filtered :=
         match num_overplot c with
         | Some (S _ as n) =>
             a <- getitem fcst (comp_name c ++ "1")%string ;;
             b <- getitem fcst (comp_name c ++ str n)%string ;;
             Ok (loc fcst (map2 orb (map notna a) (map notna b)))
         | _ => a <- getitem fcst (comp_name c) ;; Ok (loc fcst (map notna a))
         end).
  destruct filtered as [rows|e] eqn:Hrows; cbn [Py.bind]; try discriminate.
  set (looped :=
         match num_overplot c with
         | Some n =>
             if n <=? List.length
                        (filter (fun k => startswith k (comp_name c)) (column_names rows))
             then overlay_loop c (ds rows) (rev (seq 0 n)) (rows, [])
             else Raise AssertionError
         | None => Ok (rows, [])
         end).
  destruct looped as [[cur ts]|e] eqn:Hloop; cbn [Py.bind]; try discriminate.
  set (single :=
         if match num_overplot c with None => true | Some _ => 1 <? focus c end
         then _ else Ok []).
  destruct single as [sg|e] eqn:Hsingle; cbn [Py.bind]; try discriminate.
  intros H; inversion H; subst r; clear H. cbn [traces axes].
  exists rows, ts, sg. repeat split.
  - subst filtered. destruct (num_overplot c) as [[|n]|].
    + destruct (getitem fcst (comp_name c)) as [a|]; cbn [Py.bind] in Hrows;
        inversion Hrows; eauto.
    + destruct (getitem fcst (comp_name c ++ "1")%string) as [a|];
        cbn [Py.bind] in Hrows; try discriminate.
      destruct (getitem fcst (comp_name c ++ str (S n))%string) as [b|];
        cbn [Py.bind] in Hrows; inversion Hrows; eauto.
    + destruct (getitem fcst (comp_name c)) as [a|]; cbn [Py.bind] in Hrows;
        inversion Hrows; eauto.
  - subst looped. destruct (num_overplot c) as [n|].
    + destruct (n <=? _); try discriminate.
      destruct (overlay_loop_spec _ _ rows _ _ _ _ _ (agrees_refl c rows) Hloop)
        as (_ & new & -> & Hnew). exact Hnew.
    + inversion Hloop; subst. constructor.
  - subst single.
    destruct (match num_overplot c with None => true | Some _ => 1 <? focus c end).
    2:{ inversion Hsingle; constructor. }
    destruct (getitem cur (comp_name c)) as [y|]; cbn [Py.bind] in Hsingle;
      try discriminate.
    destruct (is_residual c) eqn:Hres; cbn [negb] in Hsingle.
    + destruct (set_last (Some 0%Q) y) as [y'|] eqn:Hs; cbn [Py.bind] in Hsingle;
        try discriminate.
      apply set_last_ends in Hs. destruct Hs as [-> _].
      inversion Hsingle; subst. constructor; [|constructor].
      intros _. exists (removelast y). destruct (bar c); reflexivity.
    + inversion Hsingle; subst. constructor; [|constructor]. discriminate.
  - intros Hn Hf. subst single.
    destruct (num_overplot c) as [n|]; try congruence.
    destruct (Nat.ltb_spec 1 (focus c)); try lia.
    now inversion Hsingle.
Qed.

Lemma Forall2_nth_error {A B} (P : A -> B -> Prop) (l : list A) (l' : list B) :
  Forall2 P l l' ->
  forall k a, nth_error l k = Some a -> exists b, nth_error l' k = Some b /\ P a b.
Proof.
  induction 1 as [|x y l l' Hxy H IH]; intros [|k] a; simpl; try discriminate.
  - intros E; inversion E; subst; eauto.
  - apply IH.
Qed.

Lemma nth_error_rev_range (n k : nat) :
  k < n -> nth_error (rev (seq 0 n)) k = Some (n - 1 - k).
Proof.
  intros Hk. rewrite nth_error_rev, length_seq.
  destruct (Nat.ltb_spec k n); try lia.
  rewrite nth_error_seq.
  destruct (Nat.ltb_spec (n - S k) n); try lia.
  f_equal; lia.
Qed.

Lemma alpha_decreasing (i j : nat) : i < j -> (alpha j < alpha i)%Q.
Proof.
  intros Hij. unfold alpha, alpha_min, alpha_softness, Qdiv.
  apply Qplus_lt_r. apply Qmult_lt_l; [reflexivity|].
  assert (Hpos : forall k, (0 < inject_Z (Z.of_nat k) + 1 * (12 # 10))%Q).
  { intros k. unfold Qlt; simpl. lia. }
  apply -> Qinv_lt_contravar; auto.
  apply Qplus_lt_l. rewrite <- Zlt_Qlt. lia.
Qed.

Lemma overlay_trace_y c fcst_t i ys : t_y (overlay_trace c fcst_t i ys) = ys.
Proof. unfold overlay_trace; destruct (bar c); reflexivity. Qed.

Lemma overlay_trace_opacity c fcst_t i ys :
  t_opacity (overlay_trace c fcst_t i ys) = Some (alpha i).
Proof. unfold overlay_trace; destruct (bar c); reflexivity. Qed.

(** C3.  With an overlay count [N >= 1] the renderer appends exactly
    [N] overlay traces (followed by the single-column trace only when
    [focus > 1]).  The trace of horizon [h] stands at position [N - h], so
    horizon [N] comes first and horizon [1] last; it shows the column
    [comp_name{h}] of the kept rows and has opacity [alpha (h - 1)], the
    value of [0.2 + 1.2 * (1 - 0.2) / (i + 1.2)] at the loop index
    [i = h - 1].  The opacity grows strictly as the horizon decreases. *)
Theorem overlay_traces_fade (fcst : DataFrame) (c : Component) (N : nat)
        (r : TraceObject) :
  num_overplot c = Some N -> 1 <= N ->
  get_multiforecast_component_props fcst c = Ok r ->
  exists rows overlay single,
    kept_rows fcst c rows /\
    traces r = overlay ++ single /\
    List.length overlay = N /\
    (focus c <= 1 -> single = []) /\
    (forall h, 1 <= h <= N ->
       exists t col,
         nth_error overlay (N - h) = Some t /\
         getitem rows (comp_name c ++ str h)%string = Ok col /\
         t_y t = overlay_values c col /\
         t_opacity t = Some (alpha (h - 1))) /\
    (forall h h', 1 <= h -> h < h' -> (alpha (h' - 1) < alpha (h - 1))%Q) /\
    (forall i, alpha i == (2 # 10) + (12 # 10) * (1 - (2 # 10))
                                     / (inject_Z (Z.of_nat i) + (12 # 10)))%Q.
Proof.
  intros Hn HN Hr.
  destruct (multi_spec fcst c r Hr) as (rows & new & single & Hk & Ht & Hnew & _ & Hs).
  exists rows, new, single.
  unfold overlay_indices in Hnew. rewrite Hn in Hnew.
  pose proof (Forall2_length Hnew) as Hlen.
  rewrite length_rev, length_seq in Hlen.
  repeat split; auto.
  - apply Hs. congruence.
  - intros h [Hh1 Hh2].
    destruct (Forall2_nth_error _ _ _ Hnew (N - h) (h - 1)) as (t & Ht' & col & Hcol & ->).
    { rewrite nth_error_rev_range by lia. f_equal; lia. }
    exists (overlay_trace c (ds rows) (h - 1) (overlay_values c col)), col.
    unfold horizon_column in Hcol.
    replace (h - 1 + 1) with h in Hcol by lia.
    repeat split; auto using overlay_trace_y, overlay_trace_opacity.
  - intros h h' Hh Hlt. apply alpha_decreasing. lia.
Qed.

Lemma count_select (col : list cell) :
  List.length (select (map notna col) col) = count col.
Proof.
  unfold count. induction col as [|[v|] col IH]; simpl; auto.
Qed.

(** C4.  For a residual component ([comp_name] contains "residual"):
    every trace of the single-component renderer (a residual component has
    no rolling underlay and is no uncertainty band, see
    [selector_residual_components]) and every trace of the multi-horizon
    renderer has a last y-value that is exactly zero, whatever the table
    holds in that row; and the single-component renderer does return its
    traces when the column has a present value. *)
Theorem residual_last_value_zero (fcst : DataFrame) (c : Component) :
  is_residual c = true ->
  (forall r, is_uncertainty c = false -> rolling c = None ->
             get_forecast_component_props fcst c = Ok r ->
             traces r <> [] /\ Forall ends_in_zero (traces r)) /\
  (forall r, get_multiforecast_component_props fcst c = Ok r ->
             Forall ends_in_zero (traces r)) /\
  (forall col, is_uncertainty c = false ->
               getitem fcst (comp_name c) = Ok col -> 0 < count col ->
               exists r, get_forecast_component_props fcst c = Ok r).
Proof.
  intros Hres. split; [|split].
  - intros r Hu Hroll Hr.
    destruct (getitem fcst (comp_name c)) as [col|e] eqn:Hcol.
    2:{ unfold get_forecast_component_props in Hr. rewrite Hcol in Hr. discriminate. }
    rewrite (props_after_filter fcst c col Hcol) in Hr.
    rewrite Hres, Hu in Hr. unfold underlay_traces in Hr. rewrite Hroll in Hr.
    set (keep := map notna col) in *.
    destruct (set_last (Some 0%Q) (select keep col)) as [y'|] eqn:Hs;
      cbn [Py.bind] in Hr; try discriminate.
    apply set_last_ends in Hs. destruct Hs as [-> _].
    rewrite (getitem_setvalues_same _ _ _ _ (getitem_loc _ _ keep _ Hcol)) in Hr.
    cbn [Py.bind andb app] in Hr.
    assert (Hz : forall t, t_y t = removelast (select keep col) ++ [Some 0%Q] ->
                           ends_in_zero t) by (intros t Ht; eexists; exact Ht).
    destruct (bar c); [|destruct (add_x c)]; cbn [Py.bind] in Hr;
      inversion Hr; subst r; cbn [traces axes];
      (split; [discriminate|]); repeat constructor; apply Hz; reflexivity.
  - intros r Hr.
    destruct (multi_spec fcst c r Hr) as (rows & new & single & _ & -> & Hnew & Hs & _).
    apply Forall_app. split.
    + clear Hr Hs. induction Hnew as [|i t idx new (col & _ & ->) _ IH]; constructor; auto.
      exists (removelast col). rewrite overlay_trace_y.
      unfold overlay_values. now rewrite Hres.
    + eapply Forall_impl; [|exact Hs]. auto.
  - intros col Hu Hcol Hcount.
    rewrite (props_after_filter fcst c col Hcol).
    rewrite Hres, Hu.
    set (keep := map notna col).
    rewrite set_last_ok.
    2:{ intros E. pose proof (count_select col) as Hc. fold keep in Hc.
        rewrite E in Hc. simpl in Hc. lia. }
    cbn [Py.bind].
    rewrite (getitem_setvalues_same _ _ _ _ (getitem_loc _ _ keep _ Hcol)).
    cbn [Py.bind andb].
    destruct (bar c); [|destruct (add_x c)]; cbn [Py.bind]; eauto.
Qed.

(** *** The rolling underlay *)

Lemma half_window (w : nat) : 1 <= w -> w / 2 + (w - 1) / 2 = w - 1.
Proof.
  intros Hw.
  pose proof (Nat.div_mod_eq w 2). pose proof (Nat.div_mod_eq (w - 1) 2).
  pose proof (Nat.mod_upper_bound w 2). pose proof (Nat.mod_upper_bound (w - 1) 2).
  lia.
Qed.

Lemma filter_none {A} (p : A -> bool) (l : list A) :
  (forall x, In x l -> p x = false) -> filter p l = [].
Proof.
  induction l as [|a l IH]; simpl; intros H; auto.
  rewrite (H a) by auto. apply IH. auto.
Qed.

Lemma filter_all {A} (p : A -> bool) (l : list A) :
  (forall x, In x l -> p x = true) -> filter p l = l.
Proof.
  induction l as [|a l IH]; simpl; intros H; auto.
  rewrite (H a) by auto. f_equal. apply IH. auto.
Qed.

(** The positions named by the description are the window of the
    indexer. *)
Lemma centered_positions_bounds (w n i : nat) :
  1 <= w -> i < n ->
  let '(s, e) := rolling_bounds w n i in
  centered_positions w n i = seq s (e - s) /\ s <= i /\ i < e /\ e <= n.
Proof.
  intros Hw Hi. unfold rolling_bounds, centered_positions.
  pose proof (half_window w Hw) as Hh.
  set (off := (w - 1) / 2) in *. set (half := w / 2) in *.
  set (s := Nat.min n (i + 1 + off - w)).
  set (e := Nat.min n (i + 1 + off)).
  assert (Hs : s <= i) by (subst s; lia).
  assert (He : i < e /\ e <= n) by (subst e; lia).
  split; [|lia].
  replace n with (s + ((e - s) + (n - e))) at 1 by lia.
  rewrite seq_app, seq_app, !filter_app. simpl (0 + s).
  replace (s + (e - s)) with e by lia.
  rewrite (filter_none _ (seq 0 s)), (filter_all _ (seq s (e - s))),
    (filter_none _ (seq e (n - e))); simpl; auto using app_nil_r;
    intros j Hj; apply in_seq in Hj;
    rewrite ?andb_true_iff, ?andb_false_iff, ?Nat.leb_le, ?Nat.leb_gt;
    subst s e; lia.
Qed.

Lemma map_nth_seq {A} (d : A) (xs : list A) :
  forall s k, s + k <= List.length xs ->
              map (fun j => nth j xs d) (seq s k) = firstn k (skipn s xs).
Proof.
  induction xs as [|x xs IH]; intros s k H; simpl in H.
  - assert (s = 0) by lia. assert (k = 0) by lia. subst. reflexivity.
  - destruct s as [|s].
    + destruct k as [|k]; auto. simpl. f_equal.
      rewrite <- seq_shift, map_map. simpl.
      rewrite (IH 0 k) by lia. reflexivity.
    + rewrite <- seq_shift, map_map. simpl. apply IH. lia.
Qed.

Lemma present_map_Some (xs : list Q) : present (map Some xs) = xs.
Proof. induction xs; simpl; congruence. Qed.

Lemma select_present (col : list cell) :
  select (map notna col) col = map Some (present col).
Proof. induction col as [|[v|] col IH]; simpl; congruence. Qed.

Lemma nanmean_window (xs : list Q) (s k : nat) :
  0 < k -> s + k <= List.length xs ->
  nanmean (firstn k (skipn s (map Some xs)))
  = Some (Qsum (firstn k (skipn s xs))
          / inject_Z (Z.of_nat (List.length (firstn k (skipn s xs)))))%Q.
Proof.
  intros Hk Hlen. unfold nanmean.
  rewrite skipn_map, firstn_map, present_map_Some.
  destruct (firstn k (skipn s xs)) eqn:E; auto.
  apply (f_equal (@List.length Q)) in E.
  rewrite length_firstn, length_skipn in E. simpl in E. lia.
Qed.

Lemma rolling_mean_centered (w : nat) (xs : list Q) (i : nat) :
  1 <= w -> i < List.length xs ->
  nth_error (rolling_mean w (map Some xs)) i = Some (Some (centered_mean w xs i)).
Proof.
  intros Hw Hi. unfold rolling_mean, centered_mean.
  rewrite length_map, nth_error_map, nth_error_seq.
  destruct (Nat.ltb_spec i (List.length xs)); try lia.
  cbn [option_map Nat.add].
  pose proof (centered_positions_bounds w (List.length xs) i Hw Hi) as Hb.
  destruct (rolling_bounds w (List.length xs) i) as [s e].
  destruct Hb as (-> & Hs & He & Hn).
  rewrite nanmean_window; [|lia..].
  rewrite map_nth_seq; [|lia].
  rewrite length_seq, length_firstn, length_skipn.
  do 4 f_equal. lia.
Qed.

Lemma Qsingle_mean (x : Q) : (Qsum [x] / inject_Z (Z.of_nat 1))%Q = x.
Proof.
  destruct x as [n d]. unfold Qsum, Qdiv, Qmult, Qplus, Qinv; simpl.
  f_equal; lia.
Qed.

Lemma centered_mean_one (xs : list Q) (i : nat) :
  i < List.length xs -> centered_mean 1 xs i = nth i xs 0%Q.
Proof.
  intros Hi. unfold centered_mean.
  pose proof (centered_positions_bounds 1 (List.length xs) i (le_n 1) Hi) as Hb.
  unfold rolling_bounds in Hb. simpl in Hb. destruct Hb as (-> & _).
  replace (Nat.min (List.length xs) (i + 1 + 0 - 1)) with i by lia.
  replace (Nat.min (List.length xs) (i + 1 + 0) - i) with 1 by lia.
  simpl. apply Qsingle_mean.
Qed.

Lemma rolling_mean_length (w : nat) (col : list cell) :
  List.length (rolling_mean w col) = List.length col.
Proof. unfold rolling_mean. now rewrite length_map, length_seq. Qed.

(** C5.  With a rolling window [w >= 1] the first trace returned is the
    underlay (opacity 0.5, no legend entry, bars or a line as the
    component says) over the rows where the column is present.  Its value
    at each index [i] is the mean of the column values at the positions
    [i - w/2 .. i + (w-1)/2] that exist: the [w] positions centred at [i],
    clipped to the series.  For [w = 1] the underlay is the series
    itself. *)
Theorem rolling_underlay_centered_mean (fcst : DataFrame) (c : Component)
        (w : nat) (col : list cell) (r : TraceObject) :
  rolling c = Some w -> 1 <= w ->
  getitem fcst (comp_name c) = Ok col ->
  get_forecast_component_props fcst c = Ok r ->
  let xs := present col in
  exists ys rest,
    traces r = underlay c (select (map notna col) (ds fcst)) ys :: rest /\
    List.length ys = List.length xs /\
    (forall i, i < List.length xs ->
               nth_error ys i = Some (Some (centered_mean w xs i))) /\
    (w = 1 -> ys = map Some xs).
Proof.
  intros Hroll Hw Hcol Hr xs.
  rewrite (props_after_filter fcst c col Hcol) in Hr.
  unfold underlay_traces in Hr. rewrite Hroll in Hr.
  rewrite select_present in Hr. fold xs in Hr.
  set (ys := rolling_mean w (map Some xs)) in *.
  assert (Hys : forall i, i < List.length xs ->
                          nth_error ys i = Some (Some (centered_mean w xs i)))
    by (intros i Hi; apply rolling_mean_centered; auto).
  assert (Hlen : List.length ys = List.length xs)
    by (subst ys; now rewrite rolling_mean_length, length_map).
  assert (Hone : w = 1 -> ys = map Some xs).
  { intros ->. apply nth_error_ext. intros i.
    destruct (Nat.lt_ge_cases i (List.length xs)) as [Hi|Hi].
    - rewrite Hys by assumption. rewrite nth_error_map.
      rewrite (nth_error_nth' xs 0%Q Hi). simpl.
      now rewrite centered_mean_one.
    - rewrite (proj2 (nth_error_None _ _)) by lia.
      rewrite (proj2 (nth_error_None _ _)); auto. now rewrite length_map. }
  ok_step Hr fcst'. ok_step Hr y. ok_step Hr y'. ok_step Hr main.
  inversion Hr; subst r; cbn [traces axes].
  destruct (bar c); [|destruct (add_x c)]; cbn [app]; eauto 10.
Qed.

(** *** The renderers on the example table *)

Lemma uncertainty_band_values_witness :
  exists under,
    get_forecast_component_props ex_forecast ex_uncertainty
    = Ok (axes ex_uncertainty
               (under ++ [filled_trace ex_uncertainty [1; 2; 3]%Z
                                       [Some (-2); Some 0; Some (-(3 # 2))]%Q])).
Proof.
  destruct (uncertainty_band_values ex_forecast ex_uncertainty _ _
              eq_refl eq_refl eq_refl eq_refl eq_refl eq_refl)
    as (under & H & _).
  exists under. exact H.
Defined.

Lemma overlay_traces_fade_witness :
  let r := returned (get_multiforecast_component_props ex_forecast ex_auto_regression) in
  exists rows overlay single,
    kept_rows ex_forecast ex_auto_regression rows /\
    traces r = overlay ++ single /\
    List.length overlay = 2 /\
    (focus ex_auto_regression <= 1 -> single = []) /\
    (forall h, 1 <= h <= 2 ->
       exists t col,
         nth_error overlay (2 - h) = Some t /\
         getitem rows ("ar" ++ str h)%string = Ok col /\
         t_y t = overlay_values ex_auto_regression col /\
         t_opacity t = Some (alpha (h - 1))) /\
    (forall h h', 1 <= h -> h < h' -> (alpha (h' - 1) < alpha (h - 1))%Q) /\
    (forall i, alpha i == (2 # 10) + (12 # 10) * (1 - (2 # 10))
                                     / (inject_Z (Z.of_nat i) + (12 # 10)))%Q.
Proof.
  intros r.
  apply (overlay_traces_fade ex_forecast ex_auto_regression 2 r);
    [reflexivity | lia | reflexivity].
Defined.

Lemma residual_last_value_zero_witness :
  Forall ends_in_zero
         (traces (returned (get_forecast_component_props ex_forecast ex_residual))) /\
  Forall ends_in_zero
         (traces (returned (get_multiforecast_component_props ex_forecast ex_residuals))).
Proof.
  split.
  - apply (proj1 (residual_last_value_zero ex_forecast ex_residual eq_refl));
      reflexivity.
  - apply (proj1 (proj2 (residual_last_value_zero ex_forecast ex_residuals eq_refl)));
      reflexivity.
Defined.

Lemma rolling_underlay_centered_mean_witness :
  exists ys rest,
    traces (returned (get_forecast_component_props ex_forecast ex_rolling_trend))
    = underlay ex_rolling_trend [0; 1; 2; 3]%Z ys :: rest /\
    nth_error ys 0 = Some (Some (centered_mean 3 [10; 11; 12; 16] 0)%Q) /\
    nth_error ys 2 = Some (Some (centered_mean 3 [10; 11; 12; 16] 2)%Q).
Proof.
  destruct (rolling_underlay_centered_mean ex_forecast ex_rolling_trend 3 _
              (returned (get_forecast_component_props ex_forecast ex_rolling_trend))
              eq_refl (le_S 1 2 (le_S 1 1 (le_n 1))) eq_refl eq_refl)
    as (ys & rest & Ht & _ & Hys & _).
  exists ys, rest. repeat split.
  - exact Ht.
  - apply (Hys 0). simpl. lia.
  - apply (Hys 2). simpl. lia.
Defined.

End ForecastPlotFacts.

(* ================================================================== *)
(** * Properties of the parameter plots *)
(* ================================================================== *)

Module ParameterPlotFacts.

Import PlotModelParameters.

(** *** Rejected calls *)

Lemma list_index_none (q : Q) (l : list Q) :
  (forall v, In v l -> ~ (v == q)%Q) -> list_index q l = None.
Proof.
  induction l as [|v l IH]; simpl; intros H; auto.
  destruct (Qeq_bool v q) eqn:E.
  - apply Qeq_bool_iff in E. exfalso. apply (H v); auto.
  - rewrite IH; auto.
Qed.

Lemma scalar_values_reaches (plot_name : string) (focus : option Z)
      (pre : list (string * ndarray)) :
  forall vs name w rest,
    scalar_values plot_name focus pre = Ok vs ->
    1 < Np.ndim (Np.squeeze w) ->
    scalar_values plot_name focus (pre ++ (name, w) :: rest)
    = Raise (ValueError ("Not scalar " ++ plot_name)).
Proof.
  induction pre as [|[n0 w0] pre IH]; intros vs name w rest Hpre Hw.
  - cbn [app scalar_values].
    destruct (Nat.ltb_spec 1 (Np.ndim (Np.squeeze w))); [reflexivity|lia].
  - cbn [app scalar_values] in *.
    destruct (1 <? Np.ndim (Np.squeeze w0)); try discriminate.
    ok_step Hpre v0.
    destruct (scalar_values plot_name focus pre) as [vs'|] eqn:Hp;
      cbn [Py.bind] in Hpre; try discriminate.
    now rewrite (IH vs' name w rest eq_refl Hw).
Qed.

Lemma scalar_values_fails (plot_name : string) (focus : option Z)
      (ws : list (string * ndarray)) :
  (exists name w, In (name, w) ws /\ 1 < Np.ndim (Np.squeeze w)) ->
  exists e, scalar_values plot_name focus ws = Raise e.
Proof.
  intros (name & w & Hin & Hw).
  induction ws as [|[n0 w0] ws IH]; [contradiction|].
  cbn [scalar_values].
  destruct (Nat.ltb_spec 1 (Np.ndim (Np.squeeze w0))) as [Hlt|Hge]; eauto.
  destruct Hin as [E|Hin]; [inversion E; subst; lia|].
  match goal with
  | |- exists e, Py.bind ?a _ = _ => destruct a; cbn [Py.bind]; eauto
  end.
  destruct (IH Hin) as (e & ->). cbn [Py.bind]. eauto.
Qed.

Section Backend.

Variable TrendArtists : Type.
Variable get_data_params : ConfigNormalization -> string -> result DataParams.
Variable plot_trend : Model -> Q -> string -> string -> result TrendArtists.
Variable plot_trend_change : Model -> Q -> string -> string -> result TrendArtists.
Variable seasonality_at_dates :
  Model -> Season -> string -> list Z -> option (list nat) -> nat -> list Q.
Variable seasonality_one_period :
  Model -> Season -> string -> nat -> option (list nat) -> nat -> list Q.
Variable predict_seasonal_components :
  Model -> string -> list Z -> Q -> string -> result (list Q).

Local Abbreviation plot :=
  (plot_parameters TrendArtists get_data_params plot_trend plot_trend_change
                   seasonality_at_dates seasonality_one_period
                   predict_seasonal_components).

Local Abbreviation draw :=
  (draw_parameters TrendArtists get_data_params plot_trend plot_trend_change
                   seasonality_at_dates seasonality_one_period
                   predict_seasonal_components).

Lemma resolve_keeps_quantiles (m : Model) (df_name : option string) :
  quantiles (snd (fst (resolve_df_name m df_name))) = quantiles m.
Proof.
  unfold resolve_df_name, use_global_data_params.
  destruct (global_normalization _); destruct df_name as [name|];
    try destruct (existsb _ _); try destruct (unknown_data_normalization _);
    reflexivity.
Qed.

Lemma draw_rejects_quantile (m : Model) (quantile : Q) fif ws ys (df_name : string) :
  list_index quantile (quantiles m) = None ->
  draw m quantile fif ws ys df_name = Raise (ValueError "quantile is not in list").
Proof.
  intros H. unfold draw, draw_parameters, select_components, quantile_index.
  rewrite H. reflexivity.
Qed.

(** C8 (as the code has it).  A quantile that is not among the model's
    quantiles makes [plot_parameters] raise the [ValueError] of
    [list.index] before any panel exists.  A weight array that keeps
    more than one axis after squeezing makes [plot_scalar_weights] raise:
    the [ValueError] "Not scalar ..." as soon as the loop reaches the
    array, that is, when the arrays before it were turned into bar
    heights without error.  Either way no figure or plot is returned. *)
Theorem rejected_calls_return_no_figure :
  (forall m quantile fif ws ys df_name,
      (forall v, In v (quantiles m) -> ~ (v == quantile)%Q) ->
      fst (plot m quantile fif ws ys df_name)
      = Raise (ValueError "quantile is not in list")) /\
  (forall weights plot_name focus,
      (exists name w, In (name, w) weights /\ 1 < Np.ndim (Np.squeeze w)) ->
      exists e, plot_scalar_weights weights plot_name focus = Raise e) /\
  (forall pre name w rest plot_name focus vs,
      scalar_values plot_name focus pre = Ok vs ->
      1 < Np.ndim (Np.squeeze w) ->
      plot_scalar_weights (pre ++ (name, w) :: rest) plot_name focus
      = Raise (ValueError ("Not scalar " ++ plot_name))).
Proof.
  split; [|split].
  - intros m quantile fif ws ys df_name H.
    unfold plot, plot_parameters.
    pose proof (resolve_keeps_quantiles m df_name) as Hq.
    destruct (resolve_df_name m df_name) as [[name m1] over]. simpl in Hq.
    fold draw. rewrite draw_rejects_quantile; [reflexivity|].
    rewrite Hq. now apply list_index_none.
  - intros weights plot_name focus H. unfold plot_scalar_weights.
    destruct (scalar_values_fails plot_name focus weights H) as (e & ->).
    cbn [Py.bind]. eauto.
  - intros pre name w rest plot_name focus vs Hpre Hw.
    unfold plot_scalar_weights.
    now rewrite (scalar_values_reaches plot_name focus pre vs name w rest Hpre Hw).
Qed.

(** *** The fallback to the global data params *)

Lemma resolve_fallback (m : Model) (df_name : option string) :
  global_normalization (config_normalization m) = false ->
  not_local m df_name ->
  resolve_df_name m df_name = use_global_data_params m.
Proof.
  intros Hg Hn. unfold resolve_df_name. rewrite Hg.
  destruct df_name as [name|]; auto.
  destruct (existsb _ _) eqn:E; auto.
  apply existsb_exists in E. destruct E as (k & Hin & Hk).
  apply String.eqb_eq in Hk. subst k. contradiction.
Qed.

Lemma flag_reset (m : Model) :
  unknown_allowed m = false ->
  with_unknown_data_normalization (with_unknown_data_normalization m true) false = m.
Proof.
  destruct m as [[g u l] ? ? ? ? ? ? ? ? ? ? ? ? ? ?]. unfold unknown_allowed.
  simpl. intros ->. reflexivity.
Qed.

(** C2 (as the code has it).  In local-normalization mode, with a
    [df_name] that is [None] or not among the local data params, the
    call draws with the identifier ["__df__"] on a model whose flag for
    unknown series is set; when it returns its figure the model is as it
    was before the call, the flag included. *)
Theorem fallback_restores_flag_on_return (m : Model) (quantile : Q)
        (fif : option Z) (ws ys : Z) (df_name : option string) :
  global_normalization (config_normalization m) = false ->
  not_local m df_name ->
  let during := if unknown_allowed m then m
                else with_unknown_data_normalization m true in
  unknown_allowed during = true /\
  fst (plot m quantile fif ws ys df_name) = draw during quantile fif ws ys "__df__" /\
  (forall fig, fst (plot m quantile fif ws ys df_name) = Ok fig ->
               snd (plot m quantile fif ws ys df_name) = m).
Proof.
  intros Hg Hn during. unfold plot, plot_parameters.
  rewrite (resolve_fallback m df_name Hg Hn). unfold use_global_data_params.
  subst during. fold (unknown_allowed m).
  destruct (unknown_allowed m) eqn:Hu; cbn [negb]; fold draw.
  - repeat split; auto.
    + destruct (draw m quantile fif ws ys "__df__"); reflexivity.
    + intros fig. destruct (draw m quantile fif ws ys "__df__"); reflexivity.
  - repeat split; auto.
    + destruct (draw _ quantile fif ws ys "__df__"); reflexivity.
    + intros fig.
      destruct (draw _ quantile fif ws ys "__df__"); cbn [fst snd];
        try discriminate.
      intros _. now apply flag_reset.
Qed.

(** *** The start-day offsets *)

Lemma shift_dates_zero (dates : list Z) : shift_dates (timedelta_days 0) dates = dates.
Proof.
  unfold shift_dates, timedelta_days. rewrite Z.mul_0_l.
  rewrite <- (map_id dates) at 2. apply map_ext. intros t. apply Z.add_0_r.
Qed.

Lemma ns_per_day_pos : (0 < ns_per_day)%Z.
Proof. reflexivity. Qed.

Lemma start_2017_days : start_2017 = (17167 * ns_per_day)%Z.
Proof. reflexivity. Qed.

(** The day name of midnight, [d] days after 2017-01-01. *)
Lemma day_name_from_2017 (d : Z) :
  day_name (start_2017 + d * ns_per_day)
  = nth (Z.to_nat ((d + 6) mod 7)) weekdays "".
Proof.
  unfold day_name. rewrite start_2017_days.
  pose proof ns_per_day_pos as HD. set (D := ns_per_day) in *.
  replace (17167 * D + d * D)%Z with ((17167 + d) * D)%Z by ring.
  rewrite Z.div_mul by lia.
  replace (17167 + d + 3)%Z with (d + 6 + 2452 * 7)%Z by ring.
  now rewrite Z.mod_add by lia.
Qed.

Lemma weekly_label (k : Z) (i : nat) :
  i < 7 ->
  nth_error (weekly_labels k) i
  = Some (nth (Z.to_nat ((Z.of_nat i + k + 6) mod 7)) weekdays "").
Proof.
  intros Hi. unfold weekly_labels, shift_dates, date_range, timedelta_days.
  rewrite !nth_error_map, nth_error_seq.
  destruct (Nat.ltb_spec i 7); try lia. cbn [option_map Nat.add].
  rewrite <- Z.add_assoc, <- Z.mul_add_distr_r.
  now rewrite day_name_from_2017.
Qed.

Local Abbreviation weekly :=
  (plot_weekly get_data_params seasonality_at_dates predict_seasonal_components).
Local Abbreviation yearly :=
  (plot_yearly get_data_params seasonality_at_dates predict_seasonal_components).
Local Abbreviation query :=
  (seasonal_query get_data_params seasonality_at_dates predict_seasonal_components).

(** C7 (as the code has it).  The start-day offset is added to the
    dates themselves: the seasonal query of the weekly (yearly) panel
    receives the 168 hourly (365 daily) timestamps of offset zero, each
    moved by the offset in days, and the curve drawn is the answer to
    that query.  The day names on the weekly axis are those of the moved
    dates, so they rotate with the offset. *)
Theorem start_offset_shifts_query (k : Z) :
  weekly_dates k = shift_dates (timedelta_days k) (weekly_dates 0) /\
  yearly_dates k = shift_dates (timedelta_days k) (yearly_dates 0) /\
  List.length (weekly_dates k) = 7 * 24 /\
  List.length (yearly_dates k) = 365 /\
  (forall i, i < 7 ->
     nth_error (weekly_labels k) i
     = Some (nth (Z.to_nat ((Z.of_nat i + k + 6) mod 7)) weekdays "")) /\
  (forall m quantile comp_name quick df_name,
     weekly m quantile comp_name k quick df_name
     = (predicted <- query quick m (shift_dates (timedelta_days k) (weekly_dates 0))
                           comp_name quantile df_name ;;
        Ok {| se_x := positions (7 * 24); se_y := predicted;
              se_ticks := Some (map (fun d => 24 * d) (seq 0 8),
                                weekly_labels k ++ [nth 0 (weekly_labels k) ""]);
              se_xlabel := "Day of week";
              se_ylabel := ("Seasonality: " ++ comp_name)%string |})) /\
  (forall m quantile comp_name quick df_name,
     yearly m quantile comp_name k quick df_name
     = (predicted <- query quick m (shift_dates (timedelta_days k) (yearly_dates 0))
                           comp_name quantile df_name ;;
        Ok {| se_x := map inject_Z (yearly_dates k); se_y := predicted;
              se_ticks := None;
              se_xlabel := "Day of year";
              se_ylabel := ("Seasonality: " ++ comp_name)%string |})).
Proof.
  assert (Hw : weekly_dates k = shift_dates (timedelta_days k) (weekly_dates 0)).
  { unfold weekly_dates at 2. now rewrite shift_dates_zero. }
  assert (Hy : yearly_dates k = shift_dates (timedelta_days k) (yearly_dates 0)).
  { unfold yearly_dates at 2. now rewrite shift_dates_zero. }
  assert (Hlw : List.length (weekly_dates k) = 7 * 24).
  { unfold weekly_dates, shift_dates, date_range.
    repeat rewrite length_map. apply length_seq. }
  assert (Hll : List.length (weekly_labels k) = 7).
  { unfold weekly_labels, shift_dates, date_range.
    repeat rewrite length_map. apply length_seq. }
  assert (Hly : List.length (yearly_dates k) = 365).
  { unfold yearly_dates, shift_dates, date_range.
    repeat rewrite length_map. apply length_seq. }
  split; [exact Hw|]. split; [exact Hy|]. split; [exact Hlw|].
  split; [exact Hly|]. split; [|split].
  - intros i Hi. now apply weekly_label.
  - intros m quantile comp_name quick df_name.
    unfold weekly, plot_weekly. fold query. rewrite Hlw, Hll, <- Hw. reflexivity.
  - intros m quantile comp_name quick df_name.
    unfold yearly, plot_yearly. fold query. rewrite <- Hy. reflexivity.
Qed.

(** *** The component selectors on a bare model *)

(** C9.  On a table that has only the columns [ds] and [y], for a
    model without seasonalities, lags, regressors or events, without
    residuals asked for and with a single quantile, the selector of
    [plot_components] returns the trend component alone; with zero
    changepoints, and for a quantile of the model, so does the selector
    of [plot_parameters]. *)
Theorem bare_model_selects_trend_only (pct_label : Q -> string) (m : Model)
        (fcst : DataFrame) (ys : list (option Q)) (quantile : Q)
        (focus : option nat) (fif : option Z) (df_name : string) (qi : nat) :
  columns fcst = [("y", ys)] ->
  bare m ->
  List.length (quantiles m) = 1 ->
  n_changepoints m = 0 ->
  list_index quantile (quantiles m) = Some qi ->
  PlotForecastPlotly.plot_components_select pct_label m fcst focus false
  = Ok [PlotForecastPlotly.component "Trend" "trend"] /\
  exists sel,
    select_components get_data_params m quantile fif df_name = Ok sel /\
    components sel = [panel "Trend"].
Proof.
  intros Hcols (Hs & Hl & Hr & Hh & He & Hg) Hq Hc Hqi. split.
  - unfold PlotForecastPlotly.plot_components_select,
      PlotForecastPlotly.season_components, PlotForecastPlotly.ar_components,
      PlotForecastPlotly.lagged_regressor_components,
      PlotForecastPlotly.aggregate_components,
      PlotForecastPlotly.residual_components,
      PlotForecastPlotly.uncertainty_components,
      PlotForecastPlotly.has_column, column_names.
    rewrite Hcols, Hl, Hq.
    destruct (config_season m) as [cs|]; simpl in Hs; [rewrite Hs|];
      (destruct (config_lagged_regressors m) as [lr|]; simpl in Hg; [rewrite Hg|]);
      reflexivity.
  - unfold select_components, quantile_index, regressor_weights, event_weights,
      lagged_regressors.
    rewrite Hqi, Hc, Hl. cbn [Py.bind].
    destruct (config_season m) as [cs|]; simpl in Hs; [rewrite Hs|];
      (destruct (config_regressors m) as [rg|]; simpl in Hr; [rewrite Hr|]);
      (destruct (config_country_holidays m) as [[md hn]|]; simpl in Hh; [rewrite Hh|]);
      (destruct (config_events m) as [ev|]; simpl in He; [rewrite He|]);
      (destruct (config_lagged_regressors m) as [lr|]; simpl in Hg; [rewrite Hg|]);
      eexists; split; reflexivity.
Qed.

End Backend.

(** *** The relevance of lags *)

Lemma nth_skipn {A} (d : A) (n : nat) :
  forall (l : list A) (k : nat), nth k (skipn n l) d = nth (n + k) l d.
Proof.
  induction n as [|n IH]; intros [|a l] k; simpl; auto.
  all: now destruct k.
Qed.

Lemma nth_firstn {A} (d : A) (n : nat) :
  forall (l : list A) (k : nat), k < n -> nth k (firstn n l) d = nth k l d.
Proof.
  induction n as [|n IH]; intros [|a l] [|k] H; simpl; auto; try lia.
  apply IH. lia.
Qed.

Lemma chunks_columns (n j : nat) :
  j < n ->
  forall (r : nat) (l : list Q),
    map (fun ch => nth j ch 0%Q) (Np.chunks n r l)
    = map (fun i => nth (i * n + j) l 0%Q) (seq 0 r).
Proof.
  intros Hj. induction r as [|r IH]; intros l; auto.
  cbn [Np.chunks map seq]. rewrite nth_firstn by assumption.
  f_equal. rewrite IH, <- seq_shift, map_map.
  apply map_ext. intros i. rewrite nth_skipn. f_equal. simpl. lia.
Qed.

Lemma chunks_lengths (n : nat) :
  forall (r : nat) (l : list Q),
    List.length l = r * n ->
    Forall (fun ch => List.length ch = n) (Np.chunks n r l).
Proof.
  induction r as [|r IH]; intros l Hl; cbn [Np.chunks]; constructor.
  - rewrite length_firstn. simpl in Hl. lia.
  - apply IH. rewrite length_skipn. simpl in Hl. lia.
Qed.

Lemma map2_length {A B C} (f : A -> B -> C) (a : list A) :
  forall b, List.length a = List.length b ->
            List.length (map2 f a b) = List.length a.
Proof.
  induction a as [|x a IH]; intros [|y b] H; simpl in *; try lia.
  rewrite IH; lia.
Qed.

Lemma map2_nth (a : list Q) :
  forall (b : list Q) (j : nat),
    j < List.length a -> j < List.length b ->
    nth j (map2 Qplus a b) 0%Q = (nth j a 0 + nth j b 0)%Q.
Proof.
  induction a as [|x a IH]; intros [|y b] [|j] Ha Hb; simpl in *; try lia; auto.
  apply IH; lia.
Qed.

Lemma fold_columns (n : nat) (chs : list (list Q)) :
  Forall (fun ch => List.length ch = n) chs ->
  List.length (fold_right (map2 Qplus) (repeat 0%Q n) chs) = n /\
  forall j, j < n ->
            nth j (fold_right (map2 Qplus) (repeat 0%Q n) chs) 0%Q
            = Qsum (map (fun ch => nth j ch 0%Q) chs).
Proof.
  induction 1 as [|ch chs Hch H (IHlen & IHnth)]; simpl.
  - split; [apply repeat_length|].
    intros j Hj. apply nth_repeat.
  - split.
    + rewrite map2_length; lia.
    + intros j Hj. rewrite map2_nth by lia. now rewrite IHnth.
Qed.

Lemma tabulate {A} (d : A) (l : list A) :
  forall (n : nat) (f : nat -> A),
    List.length l = n -> (forall j, j < n -> nth j l d = f j) ->
    l = map f (seq 0 n).
Proof.
  induction l as [|a l IH]; intros n f Hn Hf; simpl in Hn; subst n; auto.
  cbn [seq map]. f_equal.
  - apply (Hf 0). lia.
  - rewrite <- seq_shift, map_map. apply IH; auto.
    intros j Hj. apply (Hf (S j)). lia.
Qed.

(** Summing the absolute values along the first axis gives the column
    sums of the description. *)
Lemma sum_axis0_columns (r n : nat) (entries : list Q) :
  List.length entries = r * n ->
  fold_right (map2 Qplus) (repeat 0%Q n) (Np.chunks n r (map Qabs entries))
  = map (column_abs_sum r n entries) (seq 0 n).
Proof.
  intros Hlen.
  assert (Hch : Forall (fun ch => List.length ch = n)
                       (Np.chunks n r (map Qabs entries)))
    by (apply chunks_lengths; now rewrite length_map).
  destruct (fold_columns n _ Hch) as (Hl & Hn).
  apply (tabulate 0%Q); auto.
  intros j Hj. rewrite Hn by assumption.
  rewrite chunks_columns by assumption. unfold column_abs_sum.
  f_equal. apply map_ext. intros i.
  change 0%Q with (Qabs 0) at 1. apply map_nth.
Qed.

Lemma Qsum_nonneg (l : list Q) : Forall (fun v => 0 <= v)%Q l -> (0 <= Qsum l)%Q.
Proof.
  induction 1 as [|v l Hv H IH]; simpl; [apply Qle_refl|].
  change 0%Q with (0 + 0)%Q. now apply Qplus_le_compat.
Qed.

Lemma Qsum_bounds_member (l : list Q) (x : Q) :
  Forall (fun v => 0 <= v)%Q l -> In x l -> (x <= Qsum l)%Q.
Proof.
  induction 1 as [|v l Hv H IH]; simpl; [contradiction|].
  intros [->|Hin].
  - rewrite <- (Qplus_0_r x) at 1. apply Qplus_le_compat.
    + apply Qle_refl.
    + now apply Qsum_nonneg.
  - rewrite <- (Qplus_0_l x). apply Qplus_le_compat; auto.
Qed.

Lemma Qsum_map_div (t : Q) (l : list Q) :
  (Qsum (map (fun v => v / t) l) == Qsum l / t)%Q.
Proof.
  induction l as [|v l IH]; simpl.
  - unfold Qdiv. now rewrite Qmult_0_l.
  - rewrite IH. unfold Qdiv. now rewrite Qmult_plus_distr_l.
Qed.

Lemma Qabs_positive (x : Q) : ~ (x == 0)%Q -> (0 < Qabs x)%Q.
Proof.
  intros Hx. apply Qabs_case; intros H.
  - destruct (Qle_lt_or_eq _ _ H) as [Hlt|Heq]; auto.
    exfalso. apply Hx. now symmetry.
  - destruct (Qle_lt_or_eq _ _ H) as [Hlt|Heq]; [|contradiction].
    apply Qopp_lt_compat in Hlt. exact Hlt.
Qed.

Lemma column_abs_sum_nonneg (r n : nat) (entries : list Q) (j : nat) :
  (0 <= column_abs_sum r n entries j)%Q.
Proof.
  unfold column_abs_sum. apply Qsum_nonneg.
  apply Forall_forall. intros v Hv. apply in_map_iff in Hv.
  destruct Hv as (i & <- & _). apply Qabs_nonneg.
Qed.

Lemma abs_total_positive (r n : nat) (entries : list Q) :
  (exists k, k < r * n /\ ~ (nth k entries 0 == 0)%Q) ->
  (0 < abs_total r n entries)%Q.
Proof.
  intros (k & Hk & Hnz).
  assert (Hn : 0 < n) by (destruct n; lia).
  pose proof (Nat.div_mod_eq k n) as Hdm.
  pose proof (Nat.mod_upper_bound k n ltac:(lia)) as Hj.
  assert (Hi : k / n < r) by (apply Nat.Div0.div_lt_upper_bound; lia).
  apply Qlt_le_trans with (Qabs (nth k entries 0%Q)); [now apply Qabs_positive|].
  apply Qle_trans with (column_abs_sum r n entries (k mod n)).
  - unfold column_abs_sum. apply Qsum_bounds_member.
    + apply Forall_forall. intros v Hv. apply in_map_iff in Hv.
      destruct Hv as (i & <- & _). apply Qabs_nonneg.
    + apply in_map_iff. exists (k / n). split.
      * do 2 f_equal. lia.
      * apply in_seq. lia.
  - unfold abs_total. apply Qsum_bounds_member.
    + apply Forall_forall. intros v Hv. apply in_map_iff in Hv.
      destruct Hv as (j & <- & _). apply column_abs_sum_nonneg.
    + apply in_map_iff. exists (k mod n). split; auto. apply in_seq. lia.
Qed.

Lemma map_fst_combine {A B} (a : list A) :
  forall (b : list B), List.length a = List.length b -> map fst (combine a b) = a.
Proof.
  induction a as [|x a IH]; intros [|y b] H; simpl in *; try lia; auto.
  f_equal. apply IH. lia.
Qed.

Lemma map_snd_combine {A B} (a : list A) :
  forall (b : list B), List.length a = List.length b -> map snd (combine a b) = b.
Proof.
  induction a as [|x a IH]; intros [|y b] H; simpl in *; try lia; auto.
  f_equal. apply IH. lia.
Qed.

(** C10.  For an [r] x [n] weight matrix with a nonzero entry and no
    focus, [plot_lagged_weights] draws one bar per lag, at the lag numbers
    [n] down to [1]; the bar of column [j] is as high as the sum of the
    absolute weights of the column divided by the total of these sums.
    The heights are not negative and add up to one, and the axis is shown
    in percent.  With a focus [f] the bars are the weights of row [f - 1]
    as they are. *)
Theorem lagged_relevance_normalized (ws : ndarray) (r n : nat) (comp_name : string) :
  shape ws = [r; n] ->
  List.length (data ws) = r * n ->
  (exists k, k < r * n /\ ~ (nth k (data ws) 0 == 0)%Q) ->
  (exists p,
      plot_lagged_weights ws comp_name None = Ok p /\
      lg_bars p = combine (rev (seq 1 n)) (map (relevance r n (data ws)) (seq 0 n)) /\
      map fst (lg_bars p) = rev (seq 1 n) /\
      Forall (fun b => 0 <= snd b)%Q (lg_bars p) /\
      (Qsum (map snd (lg_bars p)) == 1)%Q /\
      lg_percent p = true) /\
  (forall f, (1 <= f <= Z.of_nat r)%Z ->
     exists p,
       plot_lagged_weights ws comp_name (Some f) = Ok p /\
       lg_bars p = combine (rev (seq 1 n))
                           (firstn n (skipn (Z.to_nat (f - 1) * n) (data ws))) /\
       lg_percent p = false).
Proof.
  intros Hshape Hlen Hnz.
  assert (Hlags : List.length (rev (seq 1 n)) = n)
    by now rewrite length_rev, length_seq.
  split.
  - unfold plot_lagged_weights, Np.sum_axis0, Np.abs, Np.div, Np.sum, ax_bar.
    rewrite Hshape. cbn [nth_error Py.bind shape data Np.size fold_right].
    rewrite Nat.mul_1_r, (sum_axis0_columns r n (data ws) Hlen).
    fold (abs_total r n (data ws)).
    rewrite Hlags, Nat.eqb_refl. cbn [Py.bind].
    eexists. split; [reflexivity|]. cbn [lg_bars lg_percent].
    rewrite map_map. fold (relevance r n (data ws)).
    assert (Hl : List.length (rev (seq 1 n))
                 = List.length (map (relevance r n (data ws)) (seq 0 n)))
      by now rewrite Hlags, length_map, length_seq.
    rewrite (map_fst_combine _ _ Hl), (map_snd_combine _ _ Hl).
    pose proof (abs_total_positive r n (data ws) Hnz) as Hpos.
    repeat split; auto.
    + apply Forall_forall. intros [lag h] Hin. apply in_combine_r in Hin.
      apply in_map_iff in Hin. destruct Hin as (j & <- & _). simpl.
      unfold relevance, Qdiv. apply Qmult_le_0_compat.
      * apply column_abs_sum_nonneg.
      * apply Qinv_le_0_compat. now apply Qlt_le_weak.
    + unfold relevance.
      rewrite <- (map_map (column_abs_sum r n (data ws))
                          (fun v => v / abs_total r n (data ws))%Q).
      rewrite Qsum_map_div. fold (abs_total r n (data ws)).
      unfold Qdiv. apply Qmult_inv_r.
      intros E. apply (Qlt_not_eq _ _ Hpos). now symmetry.
  - intros f Hf.
    unfold plot_lagged_weights, Np.row, Np.item, Np.ndim, ax_bar.
    rewrite Hshape. cbn [nth_error Py.bind List.length Nat.eqb Nat.leb].
    unfold Py.index.
    destruct (Z.leb_spec 0 (f - 1)); try lia.
    destruct (Z.ltb_spec (f - 1) (Z.of_nat r)); try lia.
    cbn [andb Py.bind shape data Np.size fold_right].
    rewrite Nat.mul_1_r, Hlags, Nat.eqb_refl. cbn [Py.bind].
    eexists. repeat split.
Qed.

(** *** The parameter plots on the example model *)

Lemma rejected_calls_return_no_figure_witness :
  fst (ex_plot_parameters ex_model (9 # 10)%Q None 0%Z 0%Z None)
  = Raise (ValueError "quantile is not in list") /\
  plot_scalar_weights ([("a", ex_vector)] ++ ("b", ex_matrix) :: [])
                      "Additive event" (Some 2%Z)
  = Raise (ValueError "Not scalar Additive event").
Proof.
  destruct (rejected_calls_return_no_figure unit ex_data_params ex_trend ex_trend
              ex_at_dates ex_one_period ex_full_prediction) as (H1 & _ & H3).
  split.
  - apply H1. intros v [<-|[]] E. vm_compute in E. discriminate E.
  - eapply H3; [reflexivity | vm_compute; lia].
Defined.

(** The loop never reaches the matrix ["b"]: the focus is outside the
    vector ["a"], whose subscript raises first. *)
Lemma not_scalar_preempted_by_index_error :
  (exists name w, In (name, w) ex_weights /\ 1 < Np.ndim (Np.squeeze w)) /\
  plot_scalar_weights ex_weights "Lagged scalar regressor" (Some 10%Z)
  = Raise IndexError.
Proof.
  split.
  - exists "b", ex_matrix. split; [right; left; reflexivity | vm_compute; lia].
  - reflexivity.
Qed.

Lemma fallback_restores_flag_on_return_witness :
  exists fig,
    fst (ex_plot_parameters ex_model (1 # 2)%Q None 0%Z 0%Z None) = Ok fig /\
    snd (ex_plot_parameters ex_model (1 # 2)%Q None 0%Z 0%Z None) = ex_model.
Proof.
  destruct (fallback_restores_flag_on_return unit ex_data_params ex_trend ex_trend
              ex_at_dates ex_one_period ex_full_prediction
              ex_model (1 # 2)%Q None 0%Z 0%Z None eq_refl I) as (_ & _ & H).
  destruct (fst (ex_plot_parameters ex_model (1 # 2)%Q None 0%Z 0%Z None))
    as [fig|e] eqn:E.
  - exists fig. split; [reflexivity|]. apply (H fig). exact E.
  - vm_compute in E. discriminate E.
Defined.

(** The requested quantile is not one of the model: the call raises
    after it has set the flag, and the flag stays set. *)
Lemma fallback_flag_leaks_on_raise :
  global_normalization (config_normalization ex_model) = false /\
  unknown_allowed ex_model = false /\
  fst (ex_plot_parameters ex_model (9 # 10)%Q None 0%Z 0%Z None)
  = Raise (ValueError "quantile is not in list") /\
  unknown_allowed (snd (ex_plot_parameters ex_model (9 # 10)%Q None 0%Z 0%Z None))
  = true.
Proof. repeat split. Qed.

Lemma start_offset_shifts_query_witness :
  weekly_dates 1 = shift_dates (timedelta_days 1) (weekly_dates 0) /\
  nth_error (weekly_labels 0) 0 = Some "Sunday" /\
  nth_error (weekly_labels 1) 0 = Some "Monday".
Proof.
  destruct (start_offset_shifts_query ex_data_params ex_at_dates ex_full_prediction 1)
    as (Hw & _ & _ & _ & Hl1 & _).
  destruct (start_offset_shifts_query ex_data_params ex_at_dates ex_full_prediction 0)
    as (_ & _ & _ & _ & Hl0 & _).
  split; [exact Hw|]. split.
  - apply (Hl0 0). lia.
  - apply (Hl1 0). lia.
Defined.

Lemma not_in_by_search (x : Z) (l : list Z) :
  existsb (Z.eqb x) l = false -> ~ In x l.
Proof.
  intros H Hin.
  assert (E : existsb (Z.eqb x) l = true)
    by (apply existsb_exists; exists x; split; [assumption | apply Z.eqb_refl]).
  congruence.
Qed.

(** Midnight of 2017-01-01 is asked for at offset 0 and not at offset 1,
    in the weekly and in the yearly panel; with a seasonality that echoes
    its timestamps the curves of the two offsets start at different
    values. *)
Lemma start_offset_changes_query :
  In start_2017 (weekly_dates 0) /\ ~ In start_2017 (weekly_dates 1) /\
  In start_2017 (yearly_dates 0) /\ ~ In start_2017 (yearly_dates 1) /\
  nth_error (curve (ex_plot_weekly ex_model (1 # 2)%Q "weekly" 0%Z true "series_a")) 0
  = Some (inject_Z start_2017 * 2)%Q /\
  nth_error (curve (ex_plot_weekly ex_model (1 # 2)%Q "weekly" 1%Z true "series_a")) 0
  = Some (inject_Z (start_2017 + ns_per_day) * 2)%Q.
Proof.
  split; [left; reflexivity|].
  split; [apply not_in_by_search; vm_compute; reflexivity|].
  split; [left; reflexivity|].
  split; [apply not_in_by_search; vm_compute; reflexivity|].
  split; vm_compute; reflexivity.
Qed.

Lemma bare_model_selects_trend_only_witness :
  PlotForecastPlotly.plot_components_select PlotForecastPlotly.ex_pct
    ex_bare_model ex_table None false
  = Ok [PlotForecastPlotly.component "Trend" "trend"] /\
  exists sel,
    select_components ex_data_params ex_bare_model (1 # 2)%Q None "__df__" = Ok sel /\
    components sel = [panel "Trend"].
Proof.
  apply (bare_model_selects_trend_only ex_data_params PlotForecastPlotly.ex_pct
           ex_bare_model ex_table [Some 1; Some 2]%Q (1 # 2)%Q None None "__df__" 0).
  - reflexivity.
  - repeat split.
  - reflexivity.
  - reflexivity.
  - reflexivity.
Defined.

Lemma lagged_relevance_normalized_witness :
  exists p,
    plot_lagged_weights (ar_weights ex_model) "AR" None = Ok p /\
    lg_bars p = combine [2; 1]
                        (map (relevance 2 2 [1; -3; 2; 2]%Q) [0; 1]) /\
    (Qsum (map snd (lg_bars p)) == 1)%Q.
Proof.
  destruct (lagged_relevance_normalized (ar_weights ex_model) 2 2 "AR" eq_refl eq_refl)
    as ((p & Hp & Hbars & _ & _ & Hsum & _) & _).
  - exists 0. split; [lia|]. intros E. vm_compute in E. discriminate E.
  - exists p. repeat split; auto.
Defined.

End ParameterPlotFacts.

(* ================================================================== *)
(** * Further properties of the forecast-component renderers *)
(* ================================================================== *)

Module RendererFacts.

Import PlotForecastPlotly ForecastFigure TableFacts ForecastPlotFacts.

(** *** Columns that are there, and how long they are *)


Lemma getitem_found (df : DataFrame) (name : string) (col : list cell) :
  getitem df name = Ok col <-> lookup name (columns df) = Some col.
Proof.
  unfold getitem. destruct (lookup name (columns df)); split; congruence.
Qed.

Lemma lookup_store_missing (name name' : string) (v : list cell) cols :
  lookup name' cols = None -> lookup name' (store name v cols) = None.
Proof.
  induction cols as [|[k w] cols IH]; simpl; auto.
  destruct (String.eqb k name) eqn:E; simpl;
    destruct (String.eqb k name'); auto; discriminate.
Qed.


Lemma select_length {A B} (mask : list bool) :
  forall (xs : list A) (ys : list B),
    List.length xs = List.length ys ->
    List.length (select mask xs) = List.length (select mask ys).
Proof.
  induction mask as [|b mask IH]; intros [|x xs] [|y ys] H; simpl in *;
    try discriminate; auto.
  destruct b; simpl; auto.
Qed.

Lemma well_formed_loc (df : DataFrame) (mask : list bool) :
  well_formed df -> well_formed (loc df mask).
Proof.
  intros Hwf name col. unfold loc; simpl. rewrite lookup_loc.
  destruct (lookup name (columns df)) as [o|] eqn:E; simpl; try discriminate.
  intros [= <-]. apply select_length. now apply (Hwf name).
Qed.

Lemma well_formed_setvalues (df : DataFrame) (name : string) (v : list cell) :
  well_formed df -> List.length v = List.length (ds df) ->
  well_formed (setvalues df name v).
Proof.
  intros Hwf Hv name' col. unfold setvalues; simpl.
  destruct (string_dec name' name) as [->|Hne].
  - destruct (lookup name (columns df)) as [o|] eqn:E.
    + rewrite (lookup_store_same _ _ _ _ E). now intros [= <-].
    + now rewrite (lookup_store_missing _ _ _ _ E).
  - rewrite lookup_store_other by assumption. apply Hwf.
Qed.

Lemma zeroed_length {A} (v : A) (ys : list A) :
  ys <> [] -> List.length (removelast ys ++ [v]) = List.length ys.
Proof.
  intros H. destruct (exists_last H) as (l & a & ->).
  now rewrite removelast_last, !length_app.
Qed.

Lemma map2_min_length {A B C} (f : A -> B -> C) (a : list A) :
  forall b, List.length b = List.length a ->
            List.length (map2 f a b) = List.length a.
Proof.
  induction a as [|x a IH]; intros [|y b] H; simpl in *; try discriminate; auto.
Qed.

(** *** get_forecast_component_props: when it raises *)


(** *** get_forecast_component_props: one y for every x *)

Lemma underlay_traces_aligned (c : Component) (x : list Z) (col : list cell) :
  List.length col = List.length x -> Forall aligned (underlay_traces c x col).
Proof.
  intros H. unfold underlay_traces.
  destruct (rolling c) as [w|]; [|constructor].
  assert (Hu : aligned (underlay c x (rolling_mean w col)))
    by (unfold aligned; simpl; now rewrite rolling_mean_length).
  assert (Hm : aligned (markers x col)) by (unfold aligned; simpl; auto).
  destruct (bar c), (add_x c); repeat constructor; assumption.
Qed.

Lemma written_table (res : bool) (name : string) (rows fcst' : DataFrame)
      (sel : list cell) :
  well_formed rows ->
  getitem rows name = Ok sel ->
  (if res
   then y' <- set_last (Some 0%Q) sel ;; Ok (setvalues rows name y')
   else Ok rows) = Ok fcst' ->
  well_formed fcst' /\ ds fcst' = ds rows /\
  getitem fcst' name = Ok (if res then removelast sel ++ [Some 0%Q] else sel) /\
  (res = true -> sel <> []).
Proof.
  intros Hwf Hsel H. destruct res.
  - destruct (set_last (Some 0%Q) sel) as [y'|] eqn:Hs; cbn [Py.bind] in H;
      try discriminate.
    apply set_last_ends in Hs. destruct Hs as [-> Hne].
    inversion H; subst fcst'; clear H. split; [|split; [|split]]; auto.
    + apply well_formed_setvalues; auto. rewrite zeroed_length by assumption.
      apply getitem_found in Hsel. now apply (Hwf _ _ Hsel).
    + now apply (getitem_setvalues_same _ _ _ _ Hsel).
  - inversion H; subst fcst'. repeat split; auto. discriminate.
Qed.

(** X2.  On a table that has one cell per row in every column, every
    trace that the single-component renderer returns pairs each x with one
    y: the underlay, the markers and the main trace all have as many
    values as timestamps (for an uncertainty band too, whose values are a
    difference of two columns). *)
Theorem single_renderer_aligned (fcst : DataFrame) (c : Component)
        (r : TraceObject) :
  well_formed fcst ->
  get_forecast_component_props fcst c = Ok r ->
  Forall aligned (traces r).
Proof.
  intros Hwf H.
  destruct (getitem fcst (comp_name c)) as [col|e] eqn:Hcol.
  2:{ unfold get_forecast_component_props in H. rewrite Hcol in H. discriminate. }
  rewrite (props_after_filter fcst c col Hcol) in H.
  set (keep := map notna col) in *. set (rows := loc fcst keep) in *.
  assert (Hrows : getitem rows (comp_name c) = Ok (select keep col))
    by now apply getitem_loc.
  assert (Hwr : well_formed rows) by now apply well_formed_loc.
  assert (Hsel : List.length (select keep col) = List.length (ds rows))
    by (apply getitem_found in Hrows; now apply (Hwr _ _ Hrows)).
  destruct (if is_residual c then _ else Ok rows) as [fcst'|] eqn:Hf;
    cbn [Py.bind] in H; try discriminate.
  destruct (written_table _ _ rows fcst' _ Hwr Hrows Hf) as (Hwf' & Hds & Hy & _).
  rewrite Hy in H. cbn [Py.bind] in H.
  set (y := if is_residual c then removelast (select keep col) ++ [Some 0%Q]
            else select keep col) in *.
  assert (Hlen : List.length y = List.length (ds rows)).
  { apply getitem_found in Hy. rewrite <- Hds. now apply (Hwf' _ _ Hy). }
  assert (Hmain : forall (u : bool) y2 main,
             List.length y2 = List.length (ds rows) ->
             (if bar c then Ok [bar_trace c (ds rows) y2 None]
              else if u && fill c
                   then Ok [filled_trace c (ds rows) y2]
                   else if add_x c
                        then Ok [line_trace c (ds rows) y2 None;
                                 markers (ds rows) y]
                        else Ok [line_trace c (ds rows) y2 None]) = Ok main ->
             Forall aligned main).
  { intros u y2 main Hy2 Hm.
    destruct (bar c), (u && fill c), (add_x c);
      inversion Hm; subst main; repeat constructor; unfold aligned; simpl; auto. }
  destruct (is_uncertainty c) eqn:Hu.
  - destruct (getitem fcst' (base_column c)) as [b|] eqn:Hb;
      cbn [Py.bind] in H; try discriminate.
    assert (Hblen : List.length b = List.length y).
    { apply getitem_found in Hb. rewrite Hlen, <- Hds. now apply (Hwf' _ _ Hb). }
    match type of H with
    | Py.bind ?m _ = _ => destruct m as [main|] eqn:Hm; cbn [Py.bind] in H;
                            try discriminate
    end.
    inversion H; subst r. cbn [traces axes]. apply Forall_app. split.
    + apply underlay_traces_aligned; assumption.
    + apply (Hmain true _ _ (eq_trans (map2_min_length _ _ _ Hblen) Hlen) Hm).
  - cbn [Py.bind] in H.
    match type of H with
    | Py.bind ?m _ = _ => destruct m as [main|] eqn:Hm; cbn [Py.bind] in H;
                            try discriminate
    end.
    inversion H; subst r. cbn [traces axes]. apply Forall_app. split.
    + apply underlay_traces_aligned; assumption.
    + apply (Hmain false _ _ Hlen Hm).
Qed.

(** *** get_forecast_component_props: no NaN is drawn *)

Lemma Forall_removelast {A} (P : A -> Prop) (l : list A) :
  Forall P l -> Forall P (removelast l).
Proof.
  induction 1 as [|x l Hx Hl IH]; simpl; auto.
  destruct l; auto.
Qed.

Lemma rolling_mean_present (w : nat) (xs : list Q) :
  1 <= w -> Forall (fun v => notna v = true) (rolling_mean w (map Some xs)).
Proof.
  intros Hw. apply Forall_forall. intros v Hin.
  apply In_nth_error in Hin. destruct Hin as (i & Hi).
  assert (Hlt : i < List.length xs).
  { assert (Hs : nth_error (rolling_mean w (map Some xs)) i <> None) by congruence.
    apply nth_error_Some in Hs.
    now rewrite rolling_mean_length, length_map in Hs. }
  rewrite (rolling_mean_centered w xs i Hw Hlt) in Hi.
  now inversion Hi.
Qed.

(** X3.  For a component that is no uncertainty band, and whose rolling
    window, if it has one, is at least 1, no trace of the single-component
    renderer holds a NaN: rows where the component is absent are dropped
    before anything is drawn, and the rolling mean with [min_periods=1]
    is defined at every kept row. *)
Theorem single_renderer_draws_no_nan (fcst : DataFrame) (c : Component)
        (r : TraceObject) :
  is_uncertainty c = false ->
  (forall w, rolling c = Some w -> 1 <= w) ->
  get_forecast_component_props fcst c = Ok r ->
  Forall no_nan (traces r).
Proof.
  intros Hu Hw H.
  destruct (getitem fcst (comp_name c)) as [col|e] eqn:Hcol.
  2:{ unfold get_forecast_component_props in H. rewrite Hcol in H. discriminate. }
  rewrite (props_after_filter fcst c col Hcol), Hu in H.
  set (keep := map notna col) in *. set (rows := loc fcst keep) in *.
  assert (Hrows : getitem rows (comp_name c) = Ok (select keep col))
    by now apply getitem_loc.
  assert (Hsel : Forall (fun v => notna v = true) (select keep col))
    by apply select_notna_present.
  assert (Hy' : exists fcst' y,
             (if is_residual c
              then y' <- set_last (Some 0%Q) (select keep col) ;;
                   Ok (setvalues rows (comp_name c) y')
              else Ok rows) = Ok fcst' /\
             getitem fcst' (comp_name c) = Ok y /\
             Forall (fun v => notna v = true) y).
  { destruct (is_residual c).
    - destruct (set_last (Some 0%Q) (select keep col)) as [y'|] eqn:Hs;
        cbn [Py.bind] in H; try discriminate.
      apply set_last_ends in Hs. destruct Hs as [-> _]. cbn [Py.bind].
      do 2 eexists. split; [reflexivity|]. split.
      + apply (getitem_setvalues_same _ _ _ _ Hrows).
      + apply Forall_app. split; [now apply Forall_removelast|].
        now repeat constructor.
    - exists rows, (select keep col). auto. }
  destruct Hy' as (fcst' & y & Hf & Hy & Hp). rewrite Hf in H.
  cbn [Py.bind andb] in H. rewrite Hy in H. cbn [Py.bind] in H.
  assert (Hr : traces r = underlay_traces c (ds rows) (select keep col)
                          ++ (if bar c then [bar_trace c (ds rows) y None]
                              else if add_x c
                                   then [line_trace c (ds rows) y None;
                                         markers (ds rows) y]
                                   else [line_trace c (ds rows) y None])).
  { destruct (bar c), (add_x c); cbn [Py.bind] in H; inversion H; reflexivity. }
  rewrite Hr. apply Forall_app. split.
  - unfold underlay_traces. destruct (rolling c) as [w|] eqn:Hroll; [|constructor].
    assert (Hmean : no_nan (underlay c (ds rows) (rolling_mean w (select keep col)))).
    { unfold no_nan, keep; simpl. rewrite select_present.
      apply rolling_mean_present. now apply Hw. }
    assert (Hmark : no_nan (markers (ds rows) (select keep col))) by exact Hsel.
    destruct (bar c), (add_x c); repeat constructor; assumption.
  - destruct (bar c), (add_x c); repeat constructor; exact Hp.
Qed.

(** *** Opacities *)

Lemma shifted_index_pos (i : nat) (d : Q) :
  (0 < d)%Q -> (0 < inject_Z (Z.of_nat i) + d)%Q.
Proof.
  intros Hd. apply Qlt_le_trans with (y := (0 + d)%Q).
  - now rewrite Qplus_0_l.
  - apply Qplus_le_l. rewrite <- (Zle_Qle 0). lia.
Qed.

(** X4.  The opacity of an overlay of the multi-horizon renderer,
    [0.2 + 1.2 * 0.8 / (i + 1.2)], and the alpha of a forecast line of the
    forecast figure, [0.2 + 2.0 / (i + 2.5)], are valid opacities at every
    loop index: both lie above 0.2 and do not exceed 1, and both are
    exactly 1 at index 0. *)
Theorem opacities_in_range (i : nat) :
  ((2 # 10) < alpha i /\ alpha i <= 1 /\
   (2 # 10) < line_alpha i /\ line_alpha i <= 1 /\
   alpha 0 == 1 /\ line_alpha 0 == 1)%Q.
Proof.
  assert (Hi : (0 <= inject_Z (Z.of_nat i))%Q) by (rewrite <- (Zle_Qle 0); lia).
  assert (Ha : (0 < inject_Z (Z.of_nat i) + 1 * (12 # 10))%Q)
    by (apply shifted_index_pos; reflexivity).
  assert (Hl : (0 < inject_Z (Z.of_nat i) + (25 # 10))%Q)
    by (apply shifted_index_pos; reflexivity).
  unfold alpha, line_alpha, alpha_min, alpha_softness.
  split; [|split; [|split; [|split; [|split]]]].
  - rewrite <- (Qplus_0_r (2 # 10)) at 1. apply Qplus_lt_r.
    apply Qlt_shift_div_l; [exact Ha|]. rewrite Qmult_0_l. reflexivity.
  - apply Qle_trans with (y := ((2 # 10) + (8 # 10))%Q); [|now compute].
    apply Qplus_le_r. apply Qle_shift_div_r; [exact Ha|].
    setoid_replace ((12 # 10) * (1 - (2 # 10)))%Q
      with ((8 # 10) * (0 + 1 * (12 # 10)))%Q by reflexivity.
    apply Qmult_le_l; [reflexivity|]. now apply Qplus_le_l.
  - rewrite <- (Qplus_0_r (2 # 10)) at 1. apply Qplus_lt_r.
    apply Qlt_shift_div_l; [exact Hl|]. rewrite Qmult_0_l. reflexivity.
  - apply Qle_trans with (y := ((2 # 10) + (8 # 10))%Q); [|now compute].
    apply Qplus_le_r. apply Qle_shift_div_r; [exact Hl|].
    setoid_replace 2%Q with ((8 # 10) * (0 + (25 # 10)))%Q by reflexivity.
    apply Qmult_le_l; [reflexivity|]. now apply Qplus_le_l.
  - reflexivity.
  - reflexivity.
Qed.

(** *** get_multiforecast_component_props: one y for every x *)

Lemma overlay_step_aligned (c : Component) (x : list Z) (i : nat)
      (cur cur' : DataFrame) (ts ts' : list Trace) :
  well_formed cur -> List.length x = List.length (ds cur) ->
  Forall aligned ts ->
  overlay_step c x i (cur, ts) = Ok (cur', ts') ->
  well_formed cur' /\ ds cur' = ds cur /\ Forall aligned ts'.
Proof.
  intros Hwf Hx Hts H. unfold overlay_step in H.
  destruct (getitem cur (horizon_column c i)) as [y|] eqn:Hy;
    cbn [Py.bind] in H; try discriminate.
  destruct (if is_residual c then _ else Ok cur) as [cur1|] eqn:Hf;
    cbn [Py.bind] in H; try discriminate.
  destruct (written_table _ _ cur cur1 _ Hwf Hy Hf) as (Hwf1 & Hds & Hy1 & _).
  rewrite Hy1 in H. cbn [Py.bind] in H. inversion H; subst cur' ts'; clear H.
  split; [assumption|]. split; [assumption|].
  apply Forall_app. split; [assumption|]. constructor; [|constructor].
  apply getitem_found in Hy1. apply Hwf1 in Hy1.
  unfold aligned. destruct (bar c); simpl; congruence.
Qed.

Lemma overlay_loop_aligned (c : Component) (x : list Z) (idx : list nat) :
  forall cur ts cur' ts',
    well_formed cur -> List.length x = List.length (ds cur) ->
    Forall aligned ts ->
    overlay_loop c x idx (cur, ts) = Ok (cur', ts') ->
    well_formed cur' /\ ds cur' = ds cur /\ Forall aligned ts'.
Proof.
  induction idx as [|i idx IH]; intros cur ts cur' ts' Hwf Hx Hts H;
    cbn [overlay_loop] in H.
  - inversion H; subst. auto.
  - destruct (overlay_step c x i (cur, ts)) as [[cur1 ts1]|] eqn:Hstep;
      cbn [Py.bind] in H; try discriminate.
    destruct (overlay_step_aligned _ _ _ _ _ _ _ Hwf Hx Hts Hstep)
      as (Hwf1 & Hds1 & Hts1).
    assert (Hx1 : List.length x = List.length (ds cur1)) by congruence.
    destruct (IH _ _ _ _ Hwf1 Hx1 Hts1 H) as (Hwf' & Hds' & Hts').
    repeat split; auto. congruence.
Qed.

(** X5.  On a table that has one cell per row in every column, every
    trace that the multi-horizon renderer returns pairs each x with one y:
    the overlays over the kept rows, and the trace of the single column,
    whose timestamps are filtered together with its values. *)
Theorem multi_renderer_aligned (fcst : DataFrame) (c : Component)
        (r : TraceObject) :
  well_formed fcst ->
  get_multiforecast_component_props fcst c = Ok r ->
  Forall aligned (traces r).
Proof.
  intros Hwf. unfold get_multiforecast_component_props.
  set (filtered :=
         match num_overplot c with
         | Some (S _ as n) =>
             a <- getitem fcst (comp_name c ++ "1")%string ;;
             b <- getitem fcst (comp_name c ++ str n)%string ;;
             Ok (loc fcst (map2 orb (map notna a) (map notna b)))
         | _ => a <- getitem fcst (comp_name c) ;; Ok (loc fcst (map notna a))
         end).
  destruct filtered as [rows|e] eqn:Hrows; cbn [Py.bind]; try discriminate.
  assert (Hwr : well_formed rows).
  { subst filtered. destruct (num_overplot c) as [[|n]|].
    - destruct (getitem fcst (comp_name c)) as [a|]; cbn [Py.bind] in Hrows;
        inversion Hrows. now apply well_formed_loc.
    - destruct (getitem fcst (comp_name c ++ "1")%string) as [a|];
        cbn [Py.bind] in Hrows; try discriminate.
      destruct (getitem fcst (comp_name c ++ str (S n))%string) as [b|];
        cbn [Py.bind] in Hrows; inversion Hrows. now apply well_formed_loc.
    - destruct (getitem fcst (comp_name c)) as [a|]; cbn [Py.bind] in Hrows;
        inversion Hrows. now apply well_formed_loc. }
  set (looped :=
         match num_overplot c with
         | Some n =>
             if n <=? List.length
                        (filter (fun k => startswith k (comp_name c)) (column_names rows))
             then overlay_loop c (ds rows) (rev (seq 0 n)) (rows, [])
             else Raise AssertionError
         | None => Ok (rows, [])
         end).
  destruct looped as [[cur ts]|e] eqn:Hloop; cbn [Py.bind]; try discriminate.
  assert (Hcur : well_formed cur /\ ds cur = ds rows /\ Forall aligned ts).
  { subst looped. destruct (num_overplot c) as [n|].
    - destruct (n <=? _); try discriminate.
      apply (overlay_loop_aligned c (ds rows) (rev (seq 0 n)) rows [] cur ts Hwr
                                  eq_refl (Forall_nil _) Hloop).
    - inversion Hloop; subst. auto. }
  destruct Hcur as (Hwc & Hds & Hts).
  set (single :=
         if match num_overplot c with None => true | Some _ => 1 <? focus c end
         then _ else Ok []).
  destruct single as [sg|e] eqn:Hsingle; cbn [Py.bind]; try discriminate.
  intros H; inversion H; subst r; clear H. cbn [traces axes].
  apply Forall_app. split; [assumption|].
  subst single.
  destruct (match num_overplot c with None => true | Some _ => 1 <? focus c end).
  2:{ inversion Hsingle; constructor. }
  destruct (getitem cur (comp_name c)) as [y|] eqn:Hy; cbn [Py.bind] in Hsingle;
    try discriminate.
  assert (Hlen : List.length y = List.length (ds rows)).
  { apply getitem_found in Hy. rewrite <- Hds. now apply (Hwc _ _ Hy). }
  destruct (is_residual c); cbn [negb] in Hsingle.
  - destruct (set_last (Some 0%Q) y) as [y'|] eqn:Hs; cbn [Py.bind] in Hsingle;
      try discriminate.
    apply set_last_ends in Hs. destruct Hs as [-> Hne].
    inversion Hsingle; subst sg. constructor; [|constructor].
    unfold aligned. destruct (bar c); simpl; now rewrite zeroed_length.
  - inversion Hsingle; subst sg. constructor; [|constructor].
    unfold aligned. destruct (bar c); simpl; now apply select_length.
Qed.

(** *** get_multiforecast_component_props: when the overlays are drawn *)









(** *** The renderers on the table of four rows *)

Lemma ex_forecast_well_formed : well_formed ex_forecast.
Proof.
  intros name col H. unfold ex_forecast in H. cbn [columns lookup] in H.
  repeat match type of H with
         | context [String.eqb ?k name] => destruct (String.eqb k name)
         end;
    inversion H; reflexivity.
Qed.


Lemma single_renderer_aligned_witness :
  well_formed ex_forecast /\
  Forall aligned
         (traces (returned (get_forecast_component_props ex_forecast ex_rolling_trend))).
Proof.
  split; [exact ex_forecast_well_formed|].
  apply (single_renderer_aligned ex_forecast ex_rolling_trend _
                                 ex_forecast_well_formed eq_refl).
Defined.

Lemma single_renderer_draws_no_nan_witness :
  Forall no_nan
         (traces (returned (get_forecast_component_props ex_forecast ex_rolling_trend))).
Proof.
  apply (single_renderer_draws_no_nan ex_forecast ex_rolling_trend _ eq_refl).
  - intros w E. inversion E. lia.
  - reflexivity.
Defined.

Lemma multi_renderer_aligned_witness :
  well_formed ex_forecast /\
  Forall aligned
         (traces (returned
                    (get_multiforecast_component_props ex_forecast ex_auto_regression))).
Proof.
  split; [exact ex_forecast_well_formed|].
  apply (multi_renderer_aligned ex_forecast ex_auto_regression _
                                ex_forecast_well_formed eq_refl).
Defined.


End RendererFacts.

(* ================================================================== *)
(** * Further properties of plot_components: selection and dispatch *)
(* ================================================================== *)

Module ComponentSelectionFacts.

Import PlotForecastPlotly ForecastFigure StringFacts TableFacts.

(** *** Substrings of composed names *)

Lemma lower_app (a b : string) : lower (a ++ b) = (lower a ++ lower b)%string.
Proof. induction a as [|x a IH]; simpl; congruence. Qed.

Lemma prefix_app_l (n : string) :
  forall s t, String.prefix n s = true -> String.prefix n (s ++ t) = true.
Proof.
  induction n as [|x n IH]; intros s t H; [apply prefix_empty|].
  destruct s as [|y s]; simpl in *; [discriminate|].
  destruct (ascii_dec x y); [now apply IH|discriminate].
Qed.

Lemma contains_empty (h : string) : contains "" h = true.
Proof. destruct h; reflexivity. Qed.

Lemma contains_app_l (n s t : string) :
  contains n s = true -> contains n (s ++ t) = true.
Proof.
  induction s as [|a s IH]; cbn [contains].
  - intros H. destruct n; [apply contains_empty|discriminate].
  - intros H. apply orb_true_iff in H. change (String a s ++ t)%string
      with (String a (s ++ t)%string). cbn [contains].
    apply orb_true_iff. destruct H as [H|H].
    + left. now apply (prefix_app_l n (String a s) t).
    + right. now apply IH.
Qed.

Lemma contains_app_r (n s t : string) :
  contains n t = true -> contains n (s ++ t) = true.
Proof.
  intros H. induction s as [|a s IH]; [assumption|].
  change (String a s ++ t)%string with (String a (s ++ t)%string).
  cbn [contains]. rewrite IH. apply orb_true_r.
Qed.

(** *** The selector: when it raises *)

(** X7.  The component selector of [plot_components] can fail in one way
    only: residuals are requested and the table lacks the residual column
    it counts, [residual{k}] for the horizon in focus and [residual1]
    without a focus, whatever the number of forecasts; it then raises
    [KeyError] with that name.  In every other case it returns its list:
    no other column is read while the components are chosen. *)
Theorem selector_raises_only_for_residuals (pct_label : Q -> string) (m : Model)
        (fcst : DataFrame) (forecast_in_focus : option nat) (residuals : bool) :
  let name := ("residual" ++ str (match forecast_in_focus with
                                  | None => 1
                                  | Some k => k
                                  end))%string in
  (residuals = false \/ lookup name (columns fcst) <> None ->
   exists cs, plot_components_select pct_label m fcst forecast_in_focus residuals
              = Ok cs) /\
  (residuals = true -> lookup name (columns fcst) = None ->
   plot_components_select pct_label m fcst forecast_in_focus residuals
   = Raise (KeyError name)).
Proof.
  intros name.
  assert (Hread : residual_components m fcst forecast_in_focus true
                  = (col <- getitem fcst name ;;
                     residual_components m fcst forecast_in_focus true)).
  { unfold residual_components, name.
    destruct forecast_in_focus as [k|].
    - destruct (getitem fcst ("residual" ++ str k)%string); reflexivity.
    - change ("residual" ++ str 1)%string with "residual1".
      destruct (1 <? n_forecasts m), (getitem fcst "residual1"); reflexivity. }
  split.
  - intros H. unfold plot_components_select.
    destruct residuals; [|cbn [residual_components Py.bind]; eauto].
    destruct H as [H|H]; [discriminate|].
    assert (Hres : exists res, residual_components m fcst forecast_in_focus true
                               = Ok res).
    { unfold residual_components, name in *.
      destruct forecast_in_focus as [k|].
      - unfold getitem.
        destruct (lookup ("residual" ++ str k)%string (columns fcst));
          [cbn [Py.bind]; eauto|congruence].
      - change ("residual" ++ str 1)%string with "residual1" in *.
        unfold getitem. destruct (lookup "residual1" (columns fcst));
          [|congruence].
        destruct (1 <? n_forecasts m); cbn [Py.bind]; eauto. }
    destruct Hres as (res & ->). cbn [Py.bind]. eauto.
  - intros -> H. unfold plot_components_select.
    rewrite Hread. unfold getitem. rewrite H. reflexivity.
Qed.

(** *** The selector: uncertainty components *)

(** X8.  Every uncertainty component that the selector builds is a
    quantile column of the horizon in focus (horizon 1 without a focus),
    for one of the quantiles after the first, and the renderer subtracts
    from it the point forecast [yhat{h}] of that same horizon: the base
    column follows from the [num_overplot] that the selector sets. *)
Theorem uncertainty_uses_own_horizon (pct_label : Q -> string) (m : Model)
        (forecast_in_focus : option nat) (c : Component) :
  In c (uncertainty_components pct_label m forecast_in_focus) ->
  let h := match forecast_in_focus with None => 1 | Some k => k end in
  1 < List.length (quantiles m) /\
  (exists q, In q (tl (quantiles m)) /\ comp_name c = quantile_column pct_label h q) /\
  base_column c = ("yhat" ++ str h)%string /\
  is_uncertainty c = true /\ fill c = true /\ rolling c = None.
Proof.
  intros Hin h. unfold uncertainty_components in Hin.
  destruct (Nat.ltb_spec 1 (List.length (quantiles m))); [|contradiction].
  apply in_map_iff in Hin. destruct Hin as (q & <- & Hq).
  split; [assumption|]. subst h.
  destruct forecast_in_focus; (split; [exists q; split; [assumption|reflexivity]|]);
    repeat split.
Qed.

(** *** The dispatch on the lowered plot name *)

Lemma renderer_bound (name : string) :
  contains "uncertainty" name || contains "event" name
  || contains "future regressor" name || contains "season" name
  || contains "auto-regression" name || contains "lagged regressor" name
  || contains "residuals" name = true ->
  renderer name <> Unbound.
Proof.
  unfold renderer.
  destruct (contains "uncertainty" name), (contains "event" name),
    (contains "future regressor" name), (contains "season" name),
    (contains "auto-regression" name), (contains "lagged regressor" name),
    (contains "residuals" name); cbn [orb andb]; intros H;
    try discriminate H;
    destruct (String.eqb name "trend"), (contains "ahead" name),
      (contains "ar" name), (contains "lagged_regressor" name);
    cbn [orb andb]; discriminate.
Qed.

Lemma renderer_ahead (family name : string) :
  (family = "residuals" \/ family = "ar") ->
  contains family name = true -> contains "ahead" name = true ->
  renderer name = ForecastComponent.
Proof.
  intros Hf H1 H2. unfold renderer. rewrite H2.
  destruct Hf; subst family; rewrite H1;
    destruct (String.eqb name "trend"), (contains "residuals" name),
      (contains "ar" name); reflexivity.
Qed.

Lemma focused_name (family : string) (k : nat) :
  lower (family ++ " (" ++ str k ++ ")-ahead")
  = (lower family ++ " (" ++ lower (str k) ++ ")-ahead")%string.
Proof. now rewrite !lower_app. Qed.

Lemma focused_panels_chain (k : nat) :
  renderer (lower ("AR (" ++ str k ++ ")-ahead")) = ForecastComponent /\
  renderer (lower ("Residuals (" ++ str k ++ ")-ahead")) = ForecastComponent.
Proof.
  split.
  - apply (renderer_ahead "ar"); [now right| |].
    + exact (contains_prefix "ar" _).
    + change ("AR (" ++ str k ++ ")-ahead")%string
        with ("AR" ++ " (" ++ str k ++ ")-ahead")%string.
      rewrite focused_name. apply contains_app_r. apply contains_app_r.
      apply contains_app_r. reflexivity.
  - apply (renderer_ahead "residuals"); [now left| |].
    + exact (contains_prefix "residuals" _).
    + change ("Residuals (" ++ str k ++ ")-ahead")%string
        with ("Residuals" ++ " (" ++ str k ++ ")-ahead")%string.
      rewrite focused_name. apply contains_app_r. apply contains_app_r.
      apply contains_app_r. reflexivity.
Qed.

(** X9.  A panel in focus is drawn by the single-component renderer:
    for every horizon [k] the lowered plot names "AR (k)-ahead" and
    "Residuals (k)-ahead" pass the first test of the dispatch chain,
    while "Auto-Regression" and "Residuals", the names used without a
    focus, reach the multi-horizon renderer. *)
Theorem focused_panels_use_single_renderer (k : nat) :
  renderer (lower ("AR (" ++ str k ++ ")-ahead")) = ForecastComponent /\
  renderer (lower ("Residuals (" ++ str k ++ ")-ahead")) = ForecastComponent /\
  renderer (lower "Auto-Regression") = MultiForecastComponent /\
  renderer (lower "Residuals") = MultiForecastComponent.
Proof.
  destruct (focused_panels_chain k) as [Har Hres].
  repeat split; try assumption; reflexivity.
Qed.

(** X10.  Every component that the selector returns is given a trace
    object of its own: its lowered plot name passes one of the tests of
    the dispatch chain, so the loop of [plot_components] never reaches
    the drawing code with the trace object of the component before. *)
Theorem selected_components_are_rendered (pct_label : Q -> string) (m : Model)
        (fcst : DataFrame) (forecast_in_focus : option nat) (residuals : bool)
        (cs : list Component) (c : Component) :
  plot_components_select pct_label m fcst forecast_in_focus residuals = Ok cs ->
  In c cs ->
  renderer (lower (effective_plot_name c)) <> Unbound.
Proof.
  unfold plot_components_select. intros H Hin.
  destruct (residual_components m fcst forecast_in_focus residuals) as [res|] eqn:Hres;
    cbn [Py.bind] in H; try discriminate.
  inversion H; subst cs; clear H.
  destruct Hin as [<-|Hin]; [discriminate|].
  rewrite !in_app_iff in Hin.
  destruct Hin as [[[[[Hin|Hin]|Hin]|Hin]|Hin]|Hin].
  - unfold season_components in Hin.
    destruct (config_season m) as [cfg|]; [|contradiction].
    apply in_map_iff in Hin. destruct Hin as (p & <- & _).
    apply renderer_bound. cbn [effective_plot_name plot_name component].
    rewrite lower_app.
    rewrite (contains_app_r "season" (lower (fst p)) (lower " seasonality") eq_refl).
    now rewrite !orb_true_r.
  - unfold ar_components in Hin.
    destruct (0 <? n_lags m); [|contradiction].
    destruct forecast_in_focus as [k|]; destruct Hin as [<-|[]].
    + cbn [effective_plot_name plot_name component].
      destruct (focused_panels_chain k) as [-> _]. discriminate.
    + discriminate.
  - unfold lagged_regressor_components in Hin.
    destruct (config_lagged_regressors m) as [regs|]; [|contradiction].
    apply in_map_iff in Hin. destruct Hin as (p & <- & _).
    apply renderer_bound.
    assert (Hl : forall rest,
               contains "lagged regressor" (lower ("Lagged Regressor " ++ rest)) = true).
    { intros rest. rewrite lower_app. now apply contains_app_l. }
    destruct forecast_in_focus;
      cbn [effective_plot_name plot_name component with_bar with_overplot];
      rewrite Hl; now rewrite !orb_true_r.
  - unfold aggregate_components in Hin. rewrite !in_app_iff in Hin.
    destruct (has_column fcst "events_additive"),
      (has_column fcst "events_multiplicative"),
      (has_column fcst "future_regressors_additive"),
      (has_column fcst "future_regressors_multiplicative");
      cbn [In] in Hin;
      repeat match goal with
             | H : _ \/ _ |- _ => destruct H as [H|H]
             | H : False |- _ => contradiction
             end; subst c; discriminate.
  - unfold residual_components in Hres.
    destruct residuals; [|inversion Hres; subst res; contradiction].
    destruct (match forecast_in_focus with
              | None => 1 <? n_forecasts m
              | Some _ => false
              end).
    + destruct (getitem fcst "residual1") as [col|]; cbn [Py.bind] in Hres;
        try discriminate.
      destruct (0 <? count col); inversion Hres; subst res; [|contradiction].
      destruct Hin as [<-|[]]. discriminate.
    + ok_step Hres col.
      destruct (0 <? count col); inversion Hres; subst res; [|contradiction].
      destruct Hin as [<-|[]].
      destruct (focused_panels_chain
                  (match forecast_in_focus with None => 1 | Some k => k end))
        as [_ E].
      intros Hu.
      assert (X : ForecastComponent = Unbound) by (rewrite <- E; exact Hu).
      discriminate X.
  - unfold uncertainty_components in Hin.
    destruct (1 <? List.length (quantiles m)); [|contradiction].
    apply in_map_iff in Hin. destruct Hin as (q & <- & _).
    destruct forecast_in_focus; discriminate.
Qed.

Lemma selector_raises_only_for_residuals_witness :
  plot_components_select ex_pct PlotModelParameters.ex_model
                         PlotModelParameters.ex_table None true
  = Raise (KeyError "residual1") /\
  exists cs, plot_components_select ex_pct PlotModelParameters.ex_model
                                    ex_forecast (Some 2) true = Ok cs.
Proof.
  split.
  - apply (proj2 (selector_raises_only_for_residuals
                    ex_pct PlotModelParameters.ex_model
                    PlotModelParameters.ex_table None true)); reflexivity.
  - apply (proj1 (selector_raises_only_for_residuals
                    ex_pct PlotModelParameters.ex_model ex_forecast (Some 2) true)).
    right. intros E. vm_compute in E. discriminate E.
Defined.

Lemma uncertainty_uses_own_horizon_witness :
  In ex_uncertainty (uncertainty_components ex_pct ex_quantile_model None) /\
  base_column ex_uncertainty = "yhat1".
Proof.
  assert (Hin : In ex_uncertainty (uncertainty_components ex_pct ex_quantile_model None))
    by (left; reflexivity).
  split; [exact Hin|].
  destruct (uncertainty_uses_own_horizon ex_pct ex_quantile_model None
                                         ex_uncertainty Hin)
    as (_ & _ & Hb & _).
  exact Hb.
Defined.

Lemma selected_components_are_rendered_witness :
  renderer (lower (effective_plot_name ex_auto_regression)) <> Unbound.
Proof.
  eapply (selected_components_are_rendered
            ex_pct PlotModelParameters.ex_model ex_forecast None false _
            ex_auto_regression).
  - reflexivity.
  - right. right. left. reflexivity.
Defined.

End ComponentSelectionFacts.

(* ================================================================== *)
(** * Further properties of plot_components: the panel grid *)
(* ================================================================== *)

Module PanelFacts.

Import PlotForecastPlotly ForecastFigure StringFacts.

Lemma append_empty_r (s : string) : (s ++ "")%string = s.
Proof. induction s as [|a s IH]; simpl; congruence. Qed.

Lemma contains_refl (n : string) : contains n n = true.
Proof.
  pose proof (contains_prefix n "") as H. now rewrite append_empty_r in H.
Qed.

Lemma string_index_first (x : string) (l : list string) :
  In x l ->
  exists j, string_index x l = Some j /\ nth_error l j = Some x /\
            forall i, i < j -> nth_error l i <> Some x.
Proof.
  induction l as [|y l IH]; [contradiction|]. intros Hin. cbn [string_index].
  destruct (String.eqb y x) eqn:E.
  - apply String.eqb_eq in E. subst y. exists 0. repeat split. intros i Hi. lia.
  - apply String.eqb_neq in E. destruct Hin as [->|Hin]; [congruence|].
    destruct (IH Hin) as (j & -> & Hj & Hfirst). exists (S j). repeat split; auto.
    intros [|i] Hi; simpl; [congruence|]. apply Hfirst. lia.
Qed.

(** X11.  Looking up the panel of a component never fails: whatever
    order the set of panel names is listed in, the lowered plot name of
    every component of the list occurs in [panel_order], so
    [panel_order.index(name)] returns a position of that list and raises
    no [ValueError]. *)
Theorem panel_index_found (set_order : list string -> list string)
        (components : list Component) (c : Component) :
  lists_set set_order -> In c components ->
  exists j, panel_index set_order components c = Ok j /\
            nth_error (panel_order set_order components) j
            = Some (lower (effective_plot_name c)).
Proof.
  intros Hset Hin. unfold panel_index.
  set (name := lower (effective_plot_name c)).
  assert (Hname : In name (plot_names components)).
  { unfold plot_names. apply in_map_iff. exists c. split; auto. }
  assert (Horder : In name (panel_order set_order components)).
  { unfold panel_order. apply in_flat_map. exists name. split; [assumption|].
    apply filter_In. split.
    - unfold panel_names. now apply (proj2 (Hset _)).
    - apply contains_refl. }
  destruct (string_index_first _ _ Horder) as (j & -> & Hj & _).
  exists j. split; auto.
Qed.

(** *** Names that do not contain each other *)

Lemma filter_none' {A} (f : A -> bool) (l : list A) :
  (forall x, In x l -> f x = false) -> filter f l = [].
Proof.
  induction l as [|a l IH]; intros H; simpl; auto.
  rewrite (H a (or_introl eq_refl)). apply IH. intros x Hx. apply H. now right.
Qed.

Lemma filter_only (name : string) (l : list string) :
  NoDup l -> In name l ->
  (forall x, In x l -> contains x name = true -> x = name) ->
  filter (fun x => contains x name) l = [name].
Proof.
  induction 1 as [|y l Hy Hnd IH]; [contradiction|]. intros Hin Hsub. simpl.
  destruct (string_dec y name) as [->|Hne].
  - rewrite contains_refl. f_equal. apply filter_none'. intros x Hx.
    destruct (contains x name) eqn:E; auto.
    assert (x = name) by (apply Hsub; [now right|assumption]). congruence.
  - destruct (contains y name) eqn:E.
    + exfalso. apply Hne. apply Hsub; [now left|assumption].
    + apply IH.
      * destruct Hin; congruence.
      * intros x Hx. apply Hsub. now right.
Qed.

Lemma panel_order_names (set_order : list string -> list string)
      (components : list Component) :
  lists_set set_order -> substring_free (plot_names components) ->
  panel_order set_order components = plot_names components.
Proof.
  intros Hset Hfree. unfold panel_order, panel_names.
  set (names := plot_names components) in *.
  assert (Hgen : forall l, incl l names ->
                           flat_map (fun name => filter (fun x => contains x name)
                                                        (set_order names)) l = l).
  { induction l as [|name l IH]; intros Hl; [reflexivity|].
    cbn [flat_map]. rewrite filter_only.
    - simpl. f_equal. apply IH. intros x Hx. apply Hl. now right.
    - apply Hset.
    - apply Hset. apply Hl. now left.
    - intros x Hx Hc. apply Hfree; auto.
      + now apply Hset.
      + apply Hl. now left. }
  apply Hgen. apply incl_refl.
Qed.

Lemma distinct_length (l l' : list string) :
  NoDup l -> NoDup l' -> (forall x, In x l <-> In x l') ->
  List.length l = List.length l'.
Proof.
  intros H H' Hiff. apply Nat.le_antisymm; apply NoDup_incl_length; auto;
    intros x Hx; now apply Hiff.
Qed.

(** X12.  When no panel name lies inside another one and the plot names
    are pairwise distinct apart from one name repeated at the end (as the
    selector builds them: one "Uncertainty" per quantile), every
    component falls on a row of the grid: its panel index is the position
    of the first component with that plot name, it is below [npanel], and
    the repeated components share the last row. *)
Theorem panel_rows_fit_grid (set_order : list string -> list string)
        (components : list Component) (p : list string) (u : string) (k : nat)
        (c : Component) :
  lists_set set_order ->
  substring_free (plot_names components) ->
  plot_names components = p ++ repeat u k -> NoDup p -> ~ In u p ->
  In c components ->
  let name := lower (effective_plot_name c) in
  exists j, panel_index set_order components c = Ok j /\
            j < npanel set_order components /\
            nth_error (plot_names components) j = Some name /\
            (forall i, i < j -> nth_error (plot_names components) i <> Some name) /\
            (name = u -> j = List.length p).
Proof.
  intros Hset Hfree Hnames Hp Hu Hin name.
  assert (Hname : In name (plot_names components)).
  { unfold plot_names. apply in_map_iff. exists c. split; auto. }
  unfold panel_index. fold name.
  rewrite (panel_order_names set_order components Hset Hfree).
  destruct (string_index_first _ _ Hname) as (j & -> & Hj & Hfirst).
  exists j. split; [reflexivity|].
  assert (Hgrid : npanel set_order components
                  = List.length p + (if k =? 0 then 0 else 1)).
  { unfold npanel, panel_names. rewrite Hnames.
    rewrite (distinct_length (set_order (p ++ repeat u k))
                             (p ++ (if k =? 0 then [] else [u]))).
    - rewrite length_app. destruct (k =? 0); reflexivity.
    - apply Hset.
    - destruct (k =? 0); [now rewrite app_nil_r|].
      apply NoDup_app; [assumption|repeat constructor; intros []|].
      intros x Hx [<-|[]]. contradiction.
    - intros x. rewrite (proj2 (Hset (p ++ repeat u k)) x), !in_app_iff.
      destruct k as [|k]; simpl; [tauto|].
      split; (intros [H|H]; [now left|right]).
      + destruct H as [H|H]; [now left|]. apply repeat_spec in H. now left.
      + destruct H as [H|[]]. now left. }
  assert (Hpos : (In name p -> j < List.length p) /\
                 (name = u -> j = List.length p /\ k <> 0)).
  { rewrite Hnames in Hj, Hfirst, Hname. split.
    - intros Hn. apply In_nth_error in Hn. destruct Hn as (i & Hi).
      assert (Hlt : i < List.length p)
        by (apply nth_error_Some; congruence).
      destruct (Nat.lt_ge_cases i j) as [Hij|Hij]; [|lia].
      exfalso. apply (Hfirst i Hij). rewrite nth_error_app1; assumption.
    - intros E. rewrite E in *.
      assert (Hk : k <> 0).
      { intros ->. simpl in Hname. rewrite app_nil_r in Hname. contradiction. }
      split; [|assumption].
      destruct (Nat.lt_trichotomy j (List.length p)) as [Hlt|[Heq|Hgt]]; auto.
      + exfalso. rewrite nth_error_app1 in Hj by assumption.
        apply Hu. eapply nth_error_In; eauto.
      + exfalso. apply (Hfirst (List.length p) Hgt).
        rewrite nth_error_app2 by lia. rewrite Nat.sub_diag.
        destruct k; [congruence|reflexivity]. }
  destruct Hpos as (Hinp & Hisu).
  split; [|split; [assumption|split; [assumption|]]].
  - rewrite Hgrid. rewrite Hnames in Hname. apply in_app_iff in Hname.
    destruct Hname as [Hn|Hn].
    + specialize (Hinp Hn). lia.
    + apply repeat_spec in Hn. destruct (Hisu Hn) as (-> & Hk).
      destruct (Nat.eqb_spec k 0); lia.
  - intros E. now destruct (Hisu E).
Qed.

Lemma listed_once_lists_set : lists_set listed_once.
Proof.
  intros l. unfold listed_once. split; [apply NoDup_nodup|].
  intros x. apply nodup_In.
Qed.

Lemma ex_components_substring_free : substring_free (plot_names ex_components).
Proof.
  intros x y Hx Hy. cbn in Hx, Hy.
  repeat match goal with
         | H : _ \/ _ |- _ => destruct H as [H|H]
         | H : False |- _ => contradiction
         end; subst x y; intros E; try reflexivity; vm_compute in E; discriminate E.
Qed.

Lemma panel_index_found_witness :
  lists_set listed_once /\
  exists j, panel_index listed_once ex_components ex_uncertainty = Ok j /\
            nth_error (panel_order listed_once ex_components) j = Some "uncertainty".
Proof.
  split; [exact listed_once_lists_set|].
  apply (panel_index_found listed_once ex_components ex_uncertainty
                           listed_once_lists_set).
  right. right. left. reflexivity.
Defined.

Lemma panel_rows_fit_grid_witness :
  exists j, panel_index listed_once ex_components ex_uncertainty = Ok j /\
            j < npanel listed_once ex_components /\ j = 2.
Proof.
  destruct (panel_rows_fit_grid listed_once ex_components
              ["trend"; "auto-regression"] "uncertainty" 2 ex_uncertainty
              listed_once_lists_set ex_components_substring_free eq_refl)
    as (j & Hj & Hlt & _ & _ & Hlast).
  - repeat constructor; simpl; intuition discriminate.
  - simpl. intuition discriminate.
  - right. right. left. reflexivity.
  - exists j. split; [assumption|]. split; [assumption|]. now apply Hlast.
Defined.

End PanelFacts.

(* ================================================================== *)
(** * Properties of the forecast figure and of the seasonality axis *)
(* ================================================================== *)

Module FigureFacts.

Import PlotForecastPlotly ForecastFigure.

Lemma mapM_Forall2 {A B} (f : A -> result B) (l : list A) :
  forall bs, mapM f l = Ok bs -> Forall2 (fun a b => f a = Ok b) l bs.
Proof.
  induction l as [|a l IH]; intros bs H; cbn [mapM] in H.
  - inversion H. constructor.
  - destruct (f a) as [b|] eqn:Hb; cbn [Py.bind] in H; try discriminate.
    destruct (mapM f l) as [bs'|]; cbn [Py.bind] in H; try discriminate.
    inversion H; subst bs. constructor; auto.
Qed.

Lemma enumerate_length {A} (l : list A) : List.length (enumerate l) = List.length l.
Proof. unfold enumerate. rewrite length_combine, length_seq. lia. Qed.

Lemma mapM_length {A B} (f : A -> result B) (l : list A) (bs : list B) :
  mapM f l = Ok bs -> List.length bs = List.length l.
Proof.
  intros H. apply mapM_Forall2 in H. symmetry. eapply Forall2_length; eauto.
Qed.

Lemma nth_error_combine_seq {A} (l : list A) :
  forall s i x, nth_error l i = Some x ->
                nth_error (combine (seq s (List.length l)) l) i = Some (s + i, x).
Proof.
  induction l as [|a l IH]; intros s [|i] x H; simpl in *; try discriminate.
  - inversion H. now rewrite Nat.add_0_r.
  - rewrite (IH (S s) i x H). f_equal. f_equal. lia.
Qed.

(** X13.  The forecast lines of [plot] come one per forecast column
    without a quantile, and line [i] is named after the column at position
    [n - 1 - i] of the table (the names are taken in reverse) while it
    shows the values of the column numbered by [i] itself, [yhat{i+1}] or
    [origin-{i}], with the alpha [0.2 + 2.0 / (i + 2.5)]. *)
Theorem forecast_lines_pairing (fcst : DataFrame) (line_per_origin : bool)
        (ls : list Curve) :
  forecast_lines fcst line_per_origin = Ok ls ->
  let names := yhat_col_names_no_qts fcst line_per_origin in
  let n := List.length names in
  List.length ls = n /\
  forall i, i < n ->
    exists name y,
      nth_error names (n - 1 - i) = Some name /\
      getitem fcst (colname line_per_origin
                    ++ str (if line_per_origin then i else i + 1))%string = Ok y /\
      nth_error ls i = Some (forecast_line name (ds fcst) y i).
Proof.
  intros H names n. unfold forecast_lines in H. fold names in H.
  pose proof (mapM_length _ _ _ H) as Hlen.
  rewrite enumerate_length, length_rev in Hlen. fold n in Hlen.
  split; [assumption|]. intros i Hi.
  apply mapM_Forall2 in H.
  assert (Hname : exists name, nth_error names (n - 1 - i) = Some name).
  { destruct (nth_error names (n - 1 - i)) eqn:E; eauto.
    apply nth_error_None in E. fold n in E. lia. }
  destruct Hname as (name & Hname). exists name.
  assert (Hrev : nth_error (rev names) i = Some name).
  { rewrite nth_error_rev. fold n. destruct (Nat.ltb_spec i n); [|lia].
    rewrite <- Hname. f_equal. lia. }
  assert (Henum : nth_error (enumerate (rev names)) i = Some (i, name))
    by apply (nth_error_combine_seq (rev names) 0 i name Hrev).
  destruct (ForecastPlotFacts.Forall2_nth_error _ _ _ H _ _ Henum)
    as (line & Hline & Hf).
  cbv beta iota in Hf.
  destruct (getitem fcst _) as [y|] eqn:Hy; cbn [Py.bind] in Hf; try discriminate.
  exists y. inversion Hf; subst line. auto.
Qed.

(** X14.  The figure always ends with the trace "Actual" over the
    column [y], so a table without [y] gives no figure; and without a
    highlighted step the traces before it are one line per forecast column
    that is no quantile, and one line per quantile after the first. *)
Theorem plot_ends_with_actual (pct_label : Q -> string) (fcst : DataFrame)
        (quantiles : list Q) (highlight_forecast : option Z)
        (line_per_origin : bool) (cs : list Curve) :
  plot pct_label fcst quantiles highlight_forecast line_per_origin = Ok cs ->
  exists front y,
    getitem fcst "y" = Ok y /\
    cs = front ++ [actual (ds fcst) y] /\
    (highlight_forecast = None ->
     List.length front
     = List.length (yhat_col_names_no_qts fcst line_per_origin)
       + (List.length quantiles - 1)).
Proof.
  unfold plot. intros H.
  destruct (if match highlight_forecast with
               | None => true
               | Some _ => line_per_origin
               end
            then forecast_lines fcst line_per_origin else Ok [])
    as [lines|] eqn:Hlines; cbn [Py.bind] in H; try discriminate.
  destruct (quantile_bands pct_label fcst quantiles line_per_origin highlight_forecast)
    as [bands|] eqn:Hbands; cbn [Py.bind] in H; try discriminate.
  destruct (highlight fcst line_per_origin highlight_forecast)
    as [marks|] eqn:Hmarks; cbn [Py.bind] in H; try discriminate.
  destruct (getitem fcst "y") as [y|]; cbn [Py.bind] in H; try discriminate.
  inversion H; subst cs; clear H.
  exists (lines ++ bands ++ marks), y. split; [reflexivity|]. split.
  - now rewrite <- !app_assoc.
  - intros ->. cbn [highlight] in Hmarks. inversion Hmarks; subst marks.
    rewrite app_nil_r, length_app. f_equal.
    + apply mapM_length in Hlines.
      now rewrite enumerate_length, length_rev in Hlines.
    + unfold quantile_bands in Hbands.
      destruct (Nat.ltb_spec 1 (List.length quantiles)).
      * apply mapM_length in Hbands. rewrite enumerate_length in Hbands.
        rewrite Hbands. destruct quantiles; simpl; lia.
      * inversion Hbands. simpl. lia.
Qed.

(** *** get_seasonality_props: the title of the x axis *)

Lemma substring_skip (s t : string) (m : nat) :
  String.substring (String.length s) m (s ++ t) = String.substring 0 m t.
Proof. induction s as [|a s IH]; simpl; auto. Qed.

Lemma substring_take (s t : string) :
  String.substring 0 (String.length s) (s ++ t) = s.
Proof.
  induction s as [|a s IH]; simpl; [now destruct t|congruence].
Qed.

Lemma length_append (s t : string) :
  String.length (s ++ t) = String.length s + String.length t.
Proof. induction s as [|a s IH]; simpl; congruence. Qed.

(** X15.  For a seasonality whose name ends in "ly" the x axis is titled
    "Day of" followed by the name without its last two characters,
    whatever the name: "weekly" gives "Day of week", and "daily" gives
    "Day of dai". *)
Theorem seasonality_title_drops_ly (s : string) :
  seasonality_xaxis_title (s ++ "ly") = ("Day of " ++ s)%string.
Proof.
  unfold seasonality_xaxis_title, last_two, without_last_two.
  rewrite length_append. cbn [String.length].
  replace (String.length s + 2 - 2) with (String.length s) by lia.
  rewrite substring_skip, substring_take. reflexivity.
Qed.

Lemma forecast_lines_pairing_witness :
  exists name y,
    nth_error (yhat_col_names_no_qts ex_forecast false) 1 = Some name /\
    getitem ex_forecast "yhat1" = Ok y /\
    nth_error (drawn (forecast_lines ex_forecast false)) 0
    = Some (forecast_line name (ds ex_forecast) y 0) /\
    name = "yhat2".
Proof.
  destruct (forecast_lines_pairing ex_forecast false
              (drawn (forecast_lines ex_forecast false)) eq_refl)
    as (_ & Hpair).
  destruct (Hpair 0) as (name & y & Hname & Hy & Hline).
  - vm_compute. lia.
  - exists name, y. repeat split; try assumption.
    vm_compute in Hname. now inversion Hname.
Defined.

Lemma plot_ends_with_actual_witness :
  exists front y,
    getitem ex_forecast "y" = Ok y /\
    drawn (plot ex_pct ex_forecast [1 # 2; 1 # 10]%Q None false)
    = front ++ [actual (ds ex_forecast) y] /\
    List.length front = 3.
Proof.
  destruct (plot_ends_with_actual ex_pct ex_forecast [1 # 2; 1 # 10]%Q None false
              (drawn (plot ex_pct ex_forecast [1 # 2; 1 # 10]%Q None false))
              eq_refl)
    as (front & y & Hy & Hcs & Hlen).
  exists front, y. repeat split; try assumption.
  now rewrite (Hlen eq_refl).
Defined.

End FigureFacts.

(* ================================================================== *)
(** * Further properties of the parameter plots *)
(* ================================================================== *)

Module ParameterPanelFacts.

Import PlotModelParameters.

Lemma mapM_ext {A B} (f g : A -> result B) (l : list A) :
  (forall a, In a l -> f a = g a) -> mapM f l = mapM g l.
Proof.
  induction l as [|a l IH]; intros H; cbn [mapM]; [reflexivity|].
  rewrite (H a (or_introl eq_refl)), IH; [reflexivity|].
  intros b Hb. apply H. now right.
Qed.

Section Backend.

Variable TrendArtists : Type.
Variable get_data_params : ConfigNormalization -> string -> result DataParams.
Variable plot_trend : Model -> Q -> string -> string -> result TrendArtists.
Variable plot_trend_change : Model -> Q -> string -> string -> result TrendArtists.
Variable seasonality_at_dates :
  Model -> Season -> string -> list Z -> option (list nat) -> nat -> list Q.
Variable seasonality_one_period :
  Model -> Season -> string -> nat -> option (list nat) -> nat -> list Q.
Variable predict_seasonal_components :
  Model -> string -> list Z -> Q -> string -> result (list Q).

Local Abbreviation plot :=
  (plot_parameters TrendArtists get_data_params plot_trend plot_trend_change
                   seasonality_at_dates seasonality_one_period
                   predict_seasonal_components).

Local Abbreviation draw :=
  (draw_parameters TrendArtists get_data_params plot_trend plot_trend_change
                   seasonality_at_dates seasonality_one_period
                   predict_seasonal_components).

Local Abbreviation select := (select_components get_data_params).

(** *** plot_parameters: the model after the call *)

(** X16.  When the call needs no fallback to the global data params
    (global normalization, or a [df_name] that is a known local series,
    or a model that accepts unknown series already), [plot_parameters]
    never writes to the model: the model after the call is the model
    before it, whether the call returns a figure or raises. *)
Theorem no_fallback_no_write (m : Model) (quantile : Q) (forecast_in_focus : option Z)
        (weekly_start yearly_start : Z) (df_name : option string) :
  global_normalization (config_normalization m) = true \/
  unknown_allowed m = true \/
  (exists name, df_name = Some name /\
                In name (local_data_params (config_normalization m))) ->
  snd (plot m quantile forecast_in_focus weekly_start yearly_start df_name) = m.
Proof.
  intros H. unfold plot_parameters.
  assert (Hres : exists name, resolve_df_name m df_name = (name, m, false)).
  { unfold resolve_df_name, use_global_data_params, unknown_allowed in *.
    destruct (global_normalization (config_normalization m)).
    - destruct df_name; eauto.
    - destruct H as [H|[H|(name & -> & Hin)]]; [discriminate| |].
      + rewrite H. cbn [negb]. destruct df_name as [name|]; eauto.
        destruct (negb (existsb _ _)); eauto.
      + assert (E : existsb (String.eqb name)
                            (local_data_params (config_normalization m)) = true).
        { apply existsb_exists. exists name. split; auto. apply String.eqb_refl. }
        rewrite E. cbn [negb]. eauto. }
  destruct Hres as (name & ->).
  destruct (draw m quantile forecast_in_focus weekly_start yearly_start name);
    reflexivity.
Qed.

(** *** plot_parameters: the seasonal panels *)

Lemma draw_season_quick (other : Model -> string -> list Z -> Q -> string -> result (list Q))
      (m : Model) (quantile : Q) (weekly_start yearly_start : Z)
      (df_name name : string) :
  draw_season get_data_params seasonality_at_dates seasonality_one_period
              predict_seasonal_components m quantile weekly_start yearly_start
              df_name name
  = draw_season get_data_params seasonality_at_dates seasonality_one_period
                other m quantile weekly_start yearly_start df_name name.
Proof. reflexivity. Qed.

(** X17.  [plot_parameters] draws its seasonal panels on the quick path
    only: its outcome, the figure or the exception and the model after
    the call, does not depend on the full seasonal prediction of the
    forecaster, which it never calls. *)
Theorem parameters_never_use_full_prediction
        (other : Model -> string -> list Z -> Q -> string -> result (list Q))
        (m : Model) (quantile : Q) (forecast_in_focus : option Z)
        (weekly_start yearly_start : Z) (df_name : option string) :
  plot m quantile forecast_in_focus weekly_start yearly_start df_name
  = plot_parameters TrendArtists get_data_params plot_trend plot_trend_change
                    seasonality_at_dates seasonality_one_period other
                    m quantile forecast_in_focus weekly_start yearly_start df_name.
Proof.
  unfold plot_parameters. destruct (resolve_df_name m df_name) as [[name m'] ow].
  assert (E : draw m' quantile forecast_in_focus weekly_start yearly_start name
              = draw_parameters TrendArtists get_data_params plot_trend
                                plot_trend_change seasonality_at_dates
                                seasonality_one_period other
                                m' quantile forecast_in_focus weekly_start
                                yearly_start name).
  { unfold draw_parameters.
    destruct (select m' quantile forecast_in_focus name) as [sel|]; cbn [Py.bind];
      [|reflexivity].
    apply mapM_ext. intros comp _. unfold draw_panel.
    destruct (startswith (lower (plot_name comp)) "trend"); [reflexivity|].
    destruct (startswith (lower (plot_name comp)) "seasonality"); [|reflexivity].
    destruct (required "comp_name" (comp_name comp)) as [name'|]; cbn [Py.bind];
      [|reflexivity].
    destruct (season_settings m'); cbn [Py.bind]; [|reflexivity].
    now rewrite (draw_season_quick other). }
  now rewrite E.
Qed.

(** *** plot_parameters: the panels from top to bottom *)

Lemma resolve_keeps_changepoints (m : Model) (df_name : option string) :
  n_changepoints (snd (fst (resolve_df_name m df_name))) = n_changepoints m.
Proof.
  unfold resolve_df_name, use_global_data_params.
  destruct (global_normalization _); destruct df_name as [name|];
    try destruct (existsb _ _); try destruct (unknown_data_normalization _);
    reflexivity.
Qed.

Lemma select_head (m : Model) (quantile : Q) (forecast_in_focus : option Z)
      (df_name : string) (sel : Selection) :
  select m quantile forecast_in_focus df_name = Ok sel ->
  exists rest,
    components sel
    = panel "Trend" :: when (0 <? n_changepoints m) "Trend Rate Change" ++ rest.
Proof.
  unfold select_components. intros H.
  ok_step H qi. ok_step H regs. ok_step H events. ok_step H additive.
  inversion H; subst sel; clear H. cbn [components].
  rewrite <- !app_assoc. cbn [app]. eexists. reflexivity.
Qed.

(** X18.  A figure that [plot_parameters] returns starts with the trend
    panel, drawn by [plot_trend] under the name "Trend" for the resolved
    series, on an axis that is not in percent; when the model has
    changepoints the panel of [plot_trend_change] follows directly. *)
Theorem figure_starts_with_trend (m : Model) (quantile : Q)
        (forecast_in_focus : option Z) (weekly_start yearly_start : Z)
        (df_name : option string) (fig : Figure TrendArtists) :
  fst (plot m quantile forecast_in_focus weekly_start yearly_start df_name) = Ok fig ->
  let name := fst (fst (resolve_df_name m df_name)) in
  let m' := snd (fst (resolve_df_name m df_name)) in
  exists a rest,
    plot_trend m' quantile "Trend" name = Ok a /\
    fig = (TrendPanel TrendArtists a, false) :: rest /\
    (0 < n_changepoints m ->
     exists b rest',
       plot_trend_change m' quantile "Trend Rate Change" name = Ok b /\
       rest = (TrendPanel TrendArtists b, false) :: rest').
Proof.
  intros H name m'. unfold plot_parameters in H.
  pose proof (resolve_keeps_changepoints m df_name) as Hcp. fold m' in Hcp.
  subst name m'. destruct (resolve_df_name m df_name) as [[name m'] ow].
  cbn [fst snd] in *.
  destruct (draw m' quantile forecast_in_focus weekly_start yearly_start name)
    as [fig'|] eqn:Hdraw; cbn [fst] in H; try discriminate.
  inversion H; subst fig'; clear H.
  unfold draw_parameters in Hdraw.
  destruct (select m' quantile forecast_in_focus name) as [sel|] eqn:Hsel;
    cbn [Py.bind] in Hdraw; try discriminate.
  destruct (select_head _ _ _ _ _ Hsel) as (rest & Hcomps).
  rewrite Hcomps, Hcp in Hdraw. cbn [mapM] in Hdraw.
  change (draw_panel TrendArtists get_data_params plot_trend plot_trend_change
                     seasonality_at_dates seasonality_one_period
                     predict_seasonal_components m' quantile forecast_in_focus
                     weekly_start yearly_start name sel (panel "Trend"))
    with (a <- plot_trend m' quantile "Trend" name ;;
          Ok (TrendPanel TrendArtists a, false)) in Hdraw.
  destruct (plot_trend m' quantile "Trend" name) as [a|]; cbn [Py.bind] in Hdraw;
    try discriminate.
  match type of Hdraw with
  | Py.bind ?x _ = _ => destruct x as [panels|] eqn:Hrest; cbn [Py.bind] in Hdraw;
                          try discriminate
  end.
  inversion Hdraw; subst fig; clear Hdraw.
  exists a, panels. split; [reflexivity|]. split; [reflexivity|].
  intros Hpos. destruct (Nat.ltb_spec 0 (n_changepoints m)); [|lia].
  cbn [when app mapM] in Hrest.
  change (draw_panel TrendArtists get_data_params plot_trend plot_trend_change
                     seasonality_at_dates seasonality_one_period
                     predict_seasonal_components m' quantile forecast_in_focus
                     weekly_start yearly_start name sel (panel "Trend Rate Change"))
    with (a <- plot_trend_change m' quantile "Trend Rate Change" name ;;
          Ok (TrendPanel TrendArtists a, false)) in Hrest.
  destruct (plot_trend_change m' quantile "Trend Rate Change" name) as [b|];
    cbn [Py.bind] in Hrest; try discriminate.
  match type of Hrest with
  | Py.bind ?x _ = _ => destruct x as [panels'|]; cbn [Py.bind] in Hrest;
                          try discriminate
  end.
  inversion Hrest; subst panels. eauto.
Qed.

(** *** plot_parameters: what the branches of the drawing loop read *)

Lemma nonempty_cons {A} (l : list A) : nonempty l = true -> l <> [].
Proof. destruct l; [discriminate|]. intros _. discriminate. Qed.

Lemma when_in (b : bool) (pname : string) (comp : Component) :
  In comp (when b pname) -> b = true /\ comp = panel pname.
Proof. destruct b; simpl; intuition. Qed.

(** X19.  Every component that [plot_parameters] selects comes with
    what its branch of the drawing loop reads: a seasonality panel has
    its [comp_name], a panel of lagged weights has [comp_name] and
    [weights], and every other panel that is no trend panel reaches one
    of the five weight lists, which is then not empty.  So the loop
    raises no [KeyError] on a component and never draws with an unbound
    or empty list of weights. *)
Theorem selected_panels_are_complete (m : Model) (quantile : Q)
        (forecast_in_focus : option Z) (df_name : string) (sel : Selection)
        (comp : Component) :
  select m quantile forecast_in_focus df_name = Ok sel ->
  In comp (components sel) ->
  let pname := lower (plot_name comp) in
  startswith pname "trend" = false ->
  (startswith pname "seasonality" = true /\ comp_name comp <> None) \/
  (startswith pname "seasonality" = false /\ pname = "lagged weights" /\
   comp_name comp <> None /\ weights comp <> None) \/
  (startswith pname "seasonality" = false /\ pname <> "lagged weights" /\
   exists ws percent,
     scalar_panel_weights sel pname = Ok (ws, percent) /\ ws <> []).
Proof.
  intros H Hin pname Htrend. subst pname. unfold select_components in H.
  ok_step H qi. ok_step H regs. ok_step H events.
  match type of H with
  | Py.bind ?x _ = _ => destruct x as [additive|] eqn:Hadd; cbn [Py.bind] in H;
                          try discriminate
  end.
  inversion H; subst sel; clear H. cbn [components] in Hin.
  destruct Hin as [<-|Hin]; [discriminate Htrend|].
  rewrite !in_app_iff in Hin.
  destruct Hin as [[[[[[[[Hin|Hin]|Hin]|Hin]|Hin]|Hin]|Hin]|Hin]|Hin].
  - apply when_in in Hin. destruct Hin as [_ ->]. discriminate Htrend.
  - left. destruct (config_season m) as [cs|]; [|contradiction].
    apply in_map_iff in Hin. destruct Hin as (p & <- & _).
    split; [reflexivity|discriminate].
  - right. left. destruct (0 <? n_lags m); [|contradiction].
    destruct Hin as [<-|[]]. repeat split; discriminate.
  - right. left. apply in_map_iff in Hin. destruct Hin as (p & <- & _).
    repeat split; discriminate.
  - right. right. apply when_in in Hin. destruct Hin as [Hne ->].
    split; [reflexivity|]. split; [discriminate|].
    do 2 eexists. split; [reflexivity|]. now apply nonempty_cons.
  - right. right. apply when_in in Hin. destruct Hin as [Hne ->].
    split; [reflexivity|]. split; [discriminate|].
    do 2 eexists. split; [reflexivity|]. now apply nonempty_cons.
  - right. right. apply when_in in Hin. destruct Hin as [Hne ->].
    split; [reflexivity|]. split; [discriminate|].
    do 2 eexists. split; [reflexivity|]. now apply nonempty_cons.
  - right. right. apply when_in in Hin. destruct Hin as [Hne ->].
    split; [reflexivity|]. split; [discriminate|].
    do 2 eexists. split; [reflexivity|]. now apply nonempty_cons.
  - right. right. apply when_in in Hin. destruct Hin as [Hne ->].
    split; [reflexivity|]. split; [discriminate|].
    do 2 eexists. split; [reflexivity|]. now apply nonempty_cons.
Qed.

(** *** predict_season_from_dates: the order of its failures *)

(** X20.  The quick seasonal prediction fails in a fixed order: without
    seasonalities [AttributeError]; for a name that is no seasonality
    [KeyError] with that name; then, for dates of a named series that the
    model has no identifier for, [KeyError] with the series name; then,
    for a quantile the model does not have, the [ValueError] of
    [list.index].  When all are found and the seasonal mode is not
    additive, it returns the output of the seasonality network as it is,
    without asking for the data params. *)
Theorem season_prediction_failures (m : Model) (dates : list Z) (name : string)
        (quantile : Q) (df_name : string) :
  let predict := predict_season_from_dates get_data_params seasonality_at_dates
                                           m dates name quantile df_name in
  (config_season m = None -> predict = Raise AttributeError) /\
  (forall cs, config_season m = Some cs -> assoc name (periods cs) = None ->
              predict = Raise (KeyError name)) /\
  (forall cs s, config_season m = Some cs -> assoc name (periods cs) = Some s ->
                df_name <> "__df__" -> dates <> [] ->
                assoc df_name (id_dict m) = None ->
                predict = Raise (KeyError df_name)) /\
  (forall cs s meta,
      config_season m = Some cs -> assoc name (periods cs) = Some s ->
      meta_name_tensor m df_name (List.length dates) = Ok meta ->
      list_index quantile (quantiles m) = None ->
      predict = Raise (ValueError "quantile is not in list")) /\
  (forall cs s meta qi,
      config_season m = Some cs -> assoc name (periods cs) = Some s ->
      meta_name_tensor m df_name (List.length dates) = Ok meta ->
      list_index quantile (quantiles m) = Some qi ->
      season_mode cs <> "additive" ->
      predict = Ok (seasonality_at_dates m s name dates meta qi)).
Proof.
  intros predict. subst predict.
  unfold predict_season_from_dates, season_config, rescale, season_settings,
    quantile_index.
  split; [|split; [|split; [|split]]].
  - intros ->. reflexivity.
  - intros cs -> Hs. cbn [Py.bind]. now rewrite Hs.
  - intros cs s -> Hs Hdf Hdates Hid. cbn [Py.bind]. rewrite Hs. cbn [Py.bind].
    unfold meta_name_tensor. apply String.eqb_neq in Hdf. rewrite Hdf.
    destruct dates as [|d dates]; [congruence|]. cbn [List.length].
    now rewrite Hid.
  - intros cs s meta -> Hs Hmeta Hq. cbn [Py.bind]. rewrite Hs. cbn [Py.bind].
    rewrite Hmeta. cbn [Py.bind]. now rewrite Hq.
  - intros cs s meta qi -> Hs Hmeta Hq Hmode. cbn [Py.bind].
    rewrite Hs. cbn [Py.bind]. rewrite Hmeta. cbn [Py.bind]. rewrite Hq.
    cbn [Py.bind]. apply String.eqb_neq in Hmode. now rewrite Hmode.
Qed.

(** *** plot_weekly: the axis of the week *)

Lemma weekly_labels_formula (k : Z) :
  weekly_labels k
  = map (fun i => nth (Z.to_nat ((Z.of_nat i + k + 6) mod 7)) weekdays "") (seq 0 7).
Proof.
  unfold weekly_labels, shift_dates, date_range, timedelta_days.
  rewrite !map_map. apply map_ext. intros i.
  rewrite <- Z.add_assoc, <- Z.mul_add_distr_r.
  now rewrite ParameterPlotFacts.day_name_from_2017.
Qed.

(** X21.  The weekly axis repeats with the week: a start-day offset of
    [k + 7] gives the same seven day names as the offset [k], for every
    integer [k], negative ones included.  A weekly panel that is drawn
    has eight ticks, 24 hourly positions apart, labelled with these seven
    names and the first name once more, over 168 hourly positions. *)
Theorem weekly_axis_repeats (k : Z) :
  weekly_labels (k + 7) = weekly_labels k /\
  forall (m : Model) (quantile : Q) (comp_name : string) (quick : bool)
         (df_name : string) (p : SeasonPlot),
    plot_weekly get_data_params seasonality_at_dates predict_seasonal_components
                m quantile comp_name k quick df_name = Ok p ->
    List.length (se_x p) = 168 /\
    exists labels,
      se_ticks p = Some ([0; 24; 48; 72; 96; 120; 144; 168], labels) /\
      List.length labels = 8 /\
      firstn 7 labels = weekly_labels k /\
      nth_error labels 7 = nth_error labels 0.
Proof.
  split.
  - rewrite !weekly_labels_formula. apply map_ext. intros i.
    replace (Z.of_nat i + (k + 7) + 6)%Z with (Z.of_nat i + k + 6 + 1 * 7)%Z by ring.
    now rewrite Z.mod_add by lia.
  - intros m quantile comp_name quick df_name p H. unfold plot_weekly in H.
    ok_step H predicted.
    apply (f_equal (fun x => match x with Ok v => v | Raise _ => p end)) in H.
    cbv beta iota in H. subst p. cbv beta iota delta [se_x se_ticks].
    assert (Hlen : List.length (weekly_labels k) = 7)
      by (rewrite weekly_labels_formula, length_map, length_seq; reflexivity).
    split.
    + unfold positions. rewrite length_map, length_seq.
      unfold weekly_dates, shift_dates, date_range.
      rewrite !length_map, length_seq. reflexivity.
    + exists (weekly_labels k ++ [nth 0 (weekly_labels k) ""]).
      split; [rewrite Hlen; reflexivity|].
      split; [rewrite length_app, Hlen; reflexivity|]. split.
      * replace 7 with (List.length (weekly_labels k) + 0) by (rewrite Hlen; reflexivity).
        rewrite firstn_app_2. cbn [firstn]. apply app_nil_r.
      * rewrite nth_error_app2 by (rewrite Hlen; apply le_n).
        rewrite nth_error_app1 by (rewrite Hlen; apply Nat.lt_0_succ).
        rewrite (nth_error_nth' (weekly_labels k) "")
          by (rewrite Hlen; apply Nat.lt_0_succ).
        rewrite Hlen. reflexivity.
Qed.

End Backend.

(** *** plot_lagged_weights: the focus *)

(** X22.  [plot_lagged_weights] reads the number of lags from the second
    axis, so weights with fewer than two axes raise [IndexError] with or
    without a focus.  On an [r] x [n] matrix a focus above [r] or at most
    [-r] raises [IndexError], while a focus [f] with [-r < f <= 0] is
    accepted and counts from the end: its bars are those of the focus
    [f + r]. *)
Theorem lagged_focus_wraps (ws : ndarray) (comp_name : string) :
  (List.length (shape ws) <= 1 ->
   forall focus, plot_lagged_weights ws comp_name focus = Raise IndexError) /\
  (forall r n f,
      shape ws = [r; n] ->
      ((f <= - Z.of_nat r \/ Z.of_nat r < f)%Z ->
       plot_lagged_weights ws comp_name (Some f) = Raise IndexError) /\
      ((- Z.of_nat r < f <= 0)%Z ->
       exists p p',
         plot_lagged_weights ws comp_name (Some f) = Ok p /\
         plot_lagged_weights ws comp_name (Some (f + Z.of_nat r)%Z) = Ok p' /\
         lg_bars p = lg_bars p')).
Proof.
  split.
  - intros Hdim focus. unfold plot_lagged_weights.
    destruct (shape ws) as [|d0 [|d1 rest]]; try reflexivity.
    simpl in Hdim. lia.
  - intros r n f Hshape.
    assert (Hlags : List.length (rev (seq 1 n)) = n)
      by now rewrite length_rev, length_seq.
    unfold plot_lagged_weights, Np.row, Np.item, Np.ndim, ax_bar.
    rewrite Hshape. cbn [nth_error Py.bind List.length Nat.eqb Nat.leb].
    unfold Py.index. split.
    + intros Hf.
      destruct (Z.leb_spec 0 (f - 1)), (Z.ltb_spec (f - 1) (Z.of_nat r));
        cbn [andb]; try lia;
        destruct (Z.leb_spec (- Z.of_nat r) (f - 1)), (Z.ltb_spec (f - 1) 0);
        cbn [andb]; try lia; reflexivity.
    + intros Hf.
      destruct (Z.leb_spec 0 (f - 1)); [lia|]. cbn [andb].
      destruct (Z.leb_spec (- Z.of_nat r) (f - 1)); [|lia].
      destruct (Z.ltb_spec (f - 1) 0); [|lia].
      destruct (Z.leb_spec 0 (f + Z.of_nat r - 1)); [|lia].
      destruct (Z.ltb_spec (f + Z.of_nat r - 1) (Z.of_nat r)); [|lia].
      cbn [andb Py.bind shape data Np.size fold_right].
      rewrite Hlags, Nat.eqb_refl. cbn [Py.bind].
      do 2 eexists. split; [reflexivity|]. split; [reflexivity|].
      cbn [lg_bars]. do 4 f_equal. lia.
Qed.

(** *** plot_scalar_weights: one number per name *)

Lemma squeezed_axis (w : ndarray) (n : nat) :
  shape (Np.squeeze w) = [n] -> n <> 1.
Proof.
  unfold Np.squeeze; cbn [shape]. intros H E. subst n.
  assert (Hin : In 1 (filter (fun d => negb (d =? 1)) (shape w)))
    by (rewrite H; now left).
  apply filter_In in Hin. destruct Hin as [_ Hin]. discriminate Hin.
Qed.

Lemma scalar_values_shapes (plot_name : string) (focus : option Z)
      (ws : list (string * ndarray)) :
  forall values,
    scalar_values plot_name focus ws = Ok values ->
    List.length values = List.length ws /\
    Forall (fun v => shape v = [] \/ shape v = [0]) values.
Proof.
  induction ws as [|[name w] ws IH]; intros values H; cbn [scalar_values] in H.
  - inversion H. split; [reflexivity|constructor].
  - destruct (1 <? Np.ndim (Np.squeeze w)) eqn:Hdim; try discriminate.
    match type of H with
    | Py.bind ?x _ = _ => destruct x as [weight|] eqn:Hw; cbn [Py.bind] in H;
                            try discriminate
    end.
    destruct (scalar_values plot_name focus ws) as [rest|]; cbn [Py.bind] in H;
      try discriminate.
    inversion H; subst values; clear H.
    destruct (IH rest eq_refl) as (Hlen & Hall).
    split; [simpl; congruence|]. constructor; [|assumption].
    apply Nat.ltb_ge in Hdim. unfold Np.ndim in Hdim.
    destruct (shape (Np.squeeze w)) as [|n [|n' sh]] eqn:Hsh.
    + inversion Hw; subst weight. now left.
    + pose proof (squeezed_axis w n Hsh) as Hn.
      destruct (Nat.ltb_spec 1 n).
      * destruct focus as [f|].
        -- unfold Np.item in Hw. rewrite Hsh in Hw.
           destruct (Py.index n (f - 1)); inversion Hw. now left.
        -- inversion Hw. now left.
      * inversion Hw; subst weight. right. rewrite Hsh. f_equal. lia.
    + simpl in Hdim. lia.
Qed.

(** X23.  When [plot_scalar_weights] returns, it has one bar per
    [(name, weights)] pair, named in the order of the list, and every bar
    height is a single number: an array without axes (an array of several
    weights is reduced to its mean, or to the entry in focus), or the
    empty array of an empty weight vector. *)
Theorem scalar_bars_are_numbers (ws : list (string * ndarray)) (plot_name : string)
        (focus : option Z) (p : ScalarPlot) :
  plot_scalar_weights ws plot_name focus = Ok p ->
  sc_names p = map fst ws /\
  List.length (sc_values p) = List.length (sc_names p) /\
  Forall (fun v => shape v = [] \/ shape v = [0]) (sc_values p).
Proof.
  unfold plot_scalar_weights. intros H.
  destruct (scalar_values plot_name focus ws) as [values|] eqn:Hv;
    cbn [Py.bind] in H; try discriminate.
  inversion H; subst p; clear H. cbn [sc_names sc_values].
  destruct (scalar_values_shapes _ _ _ _ Hv) as (Hlen & Hall).
  split; [reflexivity|]. split; [now rewrite length_map|assumption].
Qed.

(** *** plot_lagged_weights: the relevance does not depend on the scale *)

Lemma lagged_bars_formula (ws : ndarray) (r n : nat) (comp_name : string) :
  shape ws = [r; n] -> List.length (data ws) = r * n ->
  exists p,
    plot_lagged_weights ws comp_name None = Ok p /\
    lg_bars p = combine (rev (seq 1 n)) (map (relevance r n (data ws)) (seq 0 n)).
Proof.
  intros Hshape Hlen.
  assert (Hlags : List.length (rev (seq 1 n)) = n)
    by now rewrite length_rev, length_seq.
  unfold plot_lagged_weights, Np.sum_axis0, Np.abs, Np.div, Np.sum, ax_bar.
  rewrite Hshape. cbn [nth_error Py.bind shape data Np.size fold_right].
  rewrite Nat.mul_1_r, (ParameterPlotFacts.sum_axis0_columns r n (data ws) Hlen).
  fold (abs_total r n (data ws)).
  rewrite Hlags, Nat.eqb_refl. cbn [Py.bind].
  eexists. split; [reflexivity|]. cbn [lg_bars].
  rewrite map_map. reflexivity.
Qed.

Lemma Qsum_scaled (g : nat -> Q) (a : Q) (idx : list nat) :
  (Qsum (map (fun i => g i * a) idx) == Qsum (map g idx) * a)%Q.
Proof.
  induction idx as [|i idx IH]; cbn [map Qsum fold_right].
  - ring.
  - fold (Qsum (map (fun i => g i * a)%Q idx)). fold (Qsum (map g idx)).
    rewrite IH. ring.
Qed.

Lemma Qsum_ext_in (f g : nat -> Q) (idx : list nat) :
  (forall i, In i idx -> (f i == g i)%Q) ->
  (Qsum (map f idx) == Qsum (map g idx))%Q.
Proof.
  induction idx as [|i idx IH]; intros H; cbn [map Qsum fold_right].
  - reflexivity.
  - fold (Qsum (map f idx)). fold (Qsum (map g idx)).
    rewrite (H i (or_introl eq_refl)), IH; [reflexivity|].
    intros k Hk. apply H. now right.
Qed.

Lemma column_scaled (r n : nat) (entries : list Q) (c : Q) (j : nat) :
  List.length entries = r * n -> j < n ->
  (column_abs_sum r n (map (fun v => v * c) entries) j
   == column_abs_sum r n entries j * Qabs c)%Q.
Proof.
  intros Hlen Hj. unfold column_abs_sum.
  rewrite <- Qsum_scaled. apply Qsum_ext_in. intros i Hi.
  apply in_seq in Hi.
  rewrite (nth_indep _ 0%Q (0 * c)%Q) by (rewrite length_map; nia).
  rewrite (map_nth (fun v => (v * c)%Q)). apply Qabs_Qmult.
Qed.

Lemma total_scaled (r n : nat) (entries : list Q) (c : Q) :
  List.length entries = r * n ->
  (abs_total r n (map (fun v => v * c) entries)
   == abs_total r n entries * Qabs c)%Q.
Proof.
  intros Hlen. unfold abs_total. rewrite <- Qsum_scaled.
  apply Qsum_ext_in. intros j Hj. apply in_seq in Hj.
  apply column_scaled; [assumption|lia].
Qed.

Lemma relevance_scaled (r n : nat) (entries : list Q) (c : Q) (j : nat) :
  List.length entries = r * n -> j < n -> ~ (c == 0)%Q ->
  ~ (abs_total r n entries == 0)%Q ->
  (relevance r n (map (fun v => v * c) entries) j == relevance r n entries j)%Q.
Proof.
  intros Hlen Hj Hc Ht. unfold relevance.
  rewrite (column_scaled r n entries c j Hlen Hj), (total_scaled r n entries c Hlen).
  assert (Ha : ~ (Qabs c == 0)%Q).
  { intros E. apply (Qlt_not_eq _ _ (ParameterPlotFacts.Qabs_positive c Hc)).
    now symmetry. }
  field. split; assumption.
Qed.

Lemma Forall2_combine_map {A} (R : Q -> Q -> Prop) (f g : nat -> Q) (lags : list A) :
  forall idx, (forall j, In j idx -> R (f j) (g j)) ->
              Forall2 (fun b b' => fst b = fst b' /\ R (snd b) (snd b'))
                      (combine lags (map f idx)) (combine lags (map g idx)).
Proof.
  induction lags as [|l lags IH]; intros [|j idx] H; cbn [combine map];
    try constructor.
  - split; [reflexivity|]. apply H. now left.
  - apply IH. intros k Hk. apply H. now right.
Qed.

(** X24.  The relevance bars of the lagged weights do not depend on the
    scale of the weights: multiplying an [r] x [n] weight matrix that has
    a nonzero entry by a nonzero number (the sign may change too) gives
    the same lag numbers with the same heights. *)
Theorem lagged_relevance_scale_free (ws : ndarray) (r n : nat) (comp_name : string)
        (c : Q) :
  shape ws = [r; n] -> List.length (data ws) = r * n ->
  (exists k, k < r * n /\ ~ (nth k (data ws) 0 == 0)%Q) ->
  ~ (c == 0)%Q ->
  exists p p',
    plot_lagged_weights ws comp_name None = Ok p /\
    plot_lagged_weights (Np.mul ws c) comp_name None = Ok p' /\
    Forall2 (fun b b' => fst b = fst b' /\ (snd b == snd b')%Q)
            (lg_bars p) (lg_bars p').
Proof.
  intros Hshape Hlen Hnz Hc.
  assert (Htotal : ~ (abs_total r n (data ws) == 0)%Q).
  { intros E.
    apply (Qlt_not_eq _ _ (ParameterPlotFacts.abs_total_positive r n (data ws) Hnz)).
    now symmetry. }
  destruct (lagged_bars_formula ws r n comp_name Hshape Hlen) as (p & Hp & Hbars).
  destruct (lagged_bars_formula (Np.mul ws c) r n comp_name) as (p' & Hp' & Hbars').
  - exact Hshape.
  - unfold Np.mul; cbn [data]. now rewrite length_map.
  - exists p, p'. split; [assumption|]. split; [assumption|].
    rewrite Hbars, Hbars'. unfold Np.mul; cbn [data].
    apply Forall2_combine_map. intros j Hj. apply in_seq in Hj.
    symmetry. apply relevance_scaled; [assumption|lia|assumption|assumption].
Qed.

(** *** The parameter plots on the example model *)

Lemma lagged_relevance_scale_free_witness :
  exists p p',
    plot_lagged_weights (ar_weights ex_model) "AR" None = Ok p /\
    plot_lagged_weights (Np.mul (ar_weights ex_model) (-3)%Q) "AR" None = Ok p' /\
    Forall2 (fun b b' => fst b = fst b' /\ (snd b == snd b')%Q)
            (lg_bars p) (lg_bars p').
Proof.
  apply (lagged_relevance_scale_free (ar_weights ex_model) 2 2 "AR" (-3)%Q
                                     eq_refl eq_refl).
  - exists 0. split; [lia|]. intros E. vm_compute in E. discriminate E.
  - intros E. vm_compute in E. discriminate E.
Defined.

Lemma no_fallback_no_write_witness :
  In "series_a" (local_data_params (config_normalization ex_model)) /\
  snd (ex_plot_parameters ex_model (9 # 10)%Q None 0%Z 0%Z (Some "series_a"))
  = ex_model.
Proof.
  assert (Hin : In "series_a" (local_data_params (config_normalization ex_model)))
    by (left; reflexivity).
  split; [exact Hin|].
  apply (no_fallback_no_write unit ex_data_params ex_trend ex_trend ex_at_dates
                              ex_one_period ex_full_prediction).
  right. right. exists "series_a". split; [reflexivity|exact Hin].
Defined.

Lemma figure_starts_with_trend_witness :
  exists rest,
    fst (ex_plot_parameters ex_model (1 # 2)%Q None 0%Z 0%Z (Some "series_a"))
    = Ok ((TrendPanel unit tt, false) :: rest).
Proof.
  destruct (fst (ex_plot_parameters ex_model (1 # 2)%Q None 0%Z 0%Z (Some "series_a")))
    as [fig|e] eqn:E.
  - destruct (figure_starts_with_trend unit ex_data_params ex_trend ex_trend
                ex_at_dates ex_one_period ex_full_prediction
                ex_model (1 # 2)%Q None 0%Z 0%Z (Some "series_a") fig E)
      as (a & rest & _ & Hfig & _).
    exists rest. rewrite Hfig. destruct a. reflexivity.
  - vm_compute in E. discriminate E.
Defined.

Lemma ex_selection_has_lagged_panel :
  exists sel,
    select_components ex_data_params ex_model (1 # 2)%Q None "series_a" = Ok sel /\
    In {| plot_name := "lagged weights"; comp_name := Some "AR";
          weights := Some (ar_weights ex_model); focus := None |}
       (components sel).
Proof.
  eexists. split; [reflexivity|].
  right. right. left. reflexivity.
Qed.

Lemma selected_panels_are_complete_witness :
  exists sel comp,
    select_components ex_data_params ex_model (1 # 2)%Q None "series_a" = Ok sel /\
    In comp (components sel) /\
    lower (plot_name comp) = "lagged weights" /\
    comp_name comp <> None /\ weights comp <> None.
Proof.
  destruct ex_selection_has_lagged_panel as (sel & Hsel & Hin).
  exists sel. eexists. split; [exact Hsel|]. split; [exact Hin|].
  destruct (selected_panels_are_complete ex_data_params ex_model (1 # 2)%Q None
              "series_a" sel _ Hsel Hin eq_refl)
    as [(H & _)|[(_ & Hname & Hc & Hw)|(_ & H & _)]].
  - discriminate H.
  - repeat split; assumption.
  - exfalso. apply H. reflexivity.
Defined.

Lemma season_prediction_failures_witness :
  predict_season_from_dates ex_data_params ex_at_dates ex_model [0%Z] "monthly"
                            (1 # 2)%Q "series_a"
  = Raise (KeyError "monthly") /\
  predict_season_from_dates ex_data_params ex_at_dates ex_model [0%Z] "weekly"
                            (1 # 2)%Q "series_c"
  = Raise (KeyError "series_c").
Proof.
  split.
  - pose proof (season_prediction_failures ex_data_params ex_at_dates ex_model
                  [0%Z] "monthly" (1 # 2)%Q "series_a") as H.
    cbv zeta in H. destruct H as (_ & H & _).
    apply (H _ eq_refl). reflexivity.
  - pose proof (season_prediction_failures ex_data_params ex_at_dates ex_model
                  [0%Z] "weekly" (1 # 2)%Q "series_c") as H.
    cbv zeta in H. destruct H as (_ & _ & H & _).
    apply (H _ _ eq_refl eq_refl); [discriminate|discriminate|reflexivity].
Defined.

Lemma weekly_axis_repeats_witness :
  weekly_labels 7 = weekly_labels 0 /\
  exists p,
    ex_plot_weekly ex_model (1 # 2)%Q "weekly" 0%Z true "series_a" = Ok p /\
    List.length (se_x p) = 168.
Proof.
  split.
  - exact (proj1 (weekly_axis_repeats ex_data_params ex_at_dates ex_full_prediction 0)).
  - destruct (ex_plot_weekly ex_model (1 # 2)%Q "weekly" 0%Z true "series_a")
      as [p|e] eqn:E.
    + exists p. split; [reflexivity|].
      apply (proj2 (weekly_axis_repeats ex_data_params ex_at_dates
                                        ex_full_prediction 0)
                   ex_model (1 # 2)%Q "weekly" true "series_a" p E).
    + vm_compute in E. discriminate E.
Defined.

Lemma lagged_focus_wraps_witness :
  plot_lagged_weights ex_vector "AR" None = Raise IndexError /\
  plot_lagged_weights (ar_weights ex_model) "AR" (Some 3%Z) = Raise IndexError /\
  exists p p',
    plot_lagged_weights (ar_weights ex_model) "AR" (Some 0%Z) = Ok p /\
    plot_lagged_weights (ar_weights ex_model) "AR" (Some 2%Z) = Ok p' /\
    lg_bars p = lg_bars p'.
Proof.
  destruct (lagged_focus_wraps ex_vector "AR") as (Hvec & _).
  destruct (lagged_focus_wraps (ar_weights ex_model) "AR") as (_ & Hmat).
  split; [apply Hvec; simpl; lia|].
  destruct (Hmat 2 2 3%Z eq_refl) as (Hout & _).
  destruct (Hmat 2 2 0%Z eq_refl) as (_ & Hwrap).
  split; [apply Hout; lia|].
  apply Hwrap. lia.
Defined.

Lemma scalar_bars_are_numbers_witness :
  exists p,
    plot_scalar_weights [("a", ex_vector)] "Additive event" None = Ok p /\
    sc_names p = ["a"] /\
    Forall (fun v => shape v = [] \/ shape v = [0]) (sc_values p).
Proof.
  destruct (plot_scalar_weights [("a", ex_vector)] "Additive event" None)
    as [p|e] eqn:E.
  - destruct (scalar_bars_are_numbers _ _ _ p E) as (Hn & _ & Hall).
    exists p. repeat split; assumption.
  - vm_compute in E. discriminate E.
Defined.

End ParameterPanelFacts.
